(** * PrimeBackup: the backup creation pipeline

    A shallow embedding of [prime_backup/action/create_backup_action.py]:
    the batch query manager, the per-file resumable ingest task
    ([__create_file], [__get_or_create_blob], [attempt_once]), the
    coordinator loop of [__create_backup] and the rollback of [run].

    Generators are resumption trees over an explicit state; exceptions are
    values of [Exn]; the file system, the clock and the catalog session are
    part of the state. *)

From Stdlib Require Import ZArith QArith Strings.Byte Lia.
From stdpp Require Import gmap strings list fin_maps.

Open Scope Z_scope.

(** ** Data model *)

Definition Hash := string.
Definition bytes := list byte.

(** The value of a byte, and whether it lies in [lo..hi]. *)
Definition byte_val (b : byte) : Z := Z.of_N (Byte.to_N b).

Definition in_range (lo hi : Z) (b : byte) : bool :=
  (lo <=? byte_val b) && (byte_val b <=? hi).

(** Well-formed UTF-8 (the Unicode standard, table 3-7): the byte strings
    Python's utf-8 codec decodes without an error handler. *)
Fixpoint utf8_valid (l : bytes) : bool :=
  match l with
  | [] => true
  | b0 :: r0 =>
      if in_range 0 127 b0 then utf8_valid r0
      else
        match r0 with
        | [] => false
        | b1 :: r1 =>
            if in_range 194 223 b0 then in_range 128 191 b1 && utf8_valid r1
            else
              match r1 with
              | [] => false
              | b2 :: r2 =>
                  if in_range 224 239 b0 then
                    (if byte_val b0 =? 224 then in_range 160 191 b1
                     else if byte_val b0 =? 237 then in_range 128 159 b1
                     else in_range 128 191 b1)
                    && in_range 128 191 b2 && utf8_valid r2
                  else
                    match r2 with
                    | [] => false
                    | b3 :: r3 =>
                        if in_range 240 244 b0 then
                          (if byte_val b0 =? 240 then in_range 144 191 b1
                           else if byte_val b0 =? 244 then in_range 128 143 b1
                           else in_range 128 191 b1)
                          && in_range 128 191 b2 && in_range 128 191 b3
                          && utf8_valid r3
                        else false
                    end
              end
        end
  end.

(** Length of a byte string, as Python's [len]. *)
Definition blen (b : bytes) : Z := Z.of_nat (length b).

(** [f.read(n)]: at most [n] bytes from the start of the file. *)
Definition bread (n : Z) (b : bytes) : bytes := take (Z.to_nat n) b.

(** Paths the pipeline touches: entries of the source tree (by their posix
    path relative to the source root), temp files, and blob files (one per
    fingerprint). *)
Inductive Path :=
| SrcPath (rel : string)
| TempPath (name : string)
| BlobPath (h : Hash).

Global Instance Path_eq_dec : EqDecision Path.
Proof. solve_decision. Defined.

Global Instance Path_countable : Countable Path.
Proof.
  refine (inj_countable'
    (fun p => match p with
              | SrcPath r => inl r
              | TempPath n => inr (inl n)
              | BlobPath h => inr (inr h)
              end)
    (fun x => match x with
              | inl r => SrcPath r
              | inr (inl n) => TempPath n
              | inr (inr h) => BlobPath h
              end) _).
  by intros [].
Defined.

(** Modelled from the spec: [blob_utils.get_blob_path], which is not among
    the sources; [get_blob_path(H) = BS_ROOT / H[0:2] / H], one path per
    fingerprint. *)
Definition get_blob_path (h : Hash) : Path := BlobPath h.

Definition is_blob_path (p : Path) : bool :=
  match p with BlobPath _ => true | _ => false end.

(** [Path.relative_to(source_path)]: [None] stands for [ValueError]. *)
Definition relative_to_source (p : Path) : option string :=
  match p with SrcPath rel => Some rel | _ => None end.

Inductive CompressMethod := plain | gzip | zstd | lzma.

Global Instance CompressMethod_eq_dec : EqDecision CompressMethod.
Proof. solve_decision. Defined.

(** [os.stat_result], the fields the pipeline reads. *)
Record stat_result := {
  st_mode : Z;
  st_size : Z;
  st_uid : Z;
  st_gid : Z;
  st_mtime_ns : Z;
  st_dev : Z;
}.

(** An entry of the disk: metadata and body (the link target for a
    symlink). *)
Record Node := {
  n_mode : Z;
  n_uid : Z;
  n_gid : Z;
  n_mtime_ns : Z;
  n_dev : Z;
  n_data : bytes;
}.

Definition stat_of (n : Node) : stat_result :=
  {| st_mode := n_mode n; st_size := blen (n_data n); st_uid := n_uid n;
     st_gid := n_gid n; st_mtime_ns := n_mtime_ns n; st_dev := n_dev n |}.

(** A file freshly written by the pipeline (mode 0o100644). *)
Definition file_node (data : bytes) : Node :=
  {| n_mode := 33188; n_uid := 0; n_gid := 0; n_mtime_ns := 0; n_dev := 0;
     n_data := data |}.

(** [stat.S_ISREG], [stat.S_ISDIR], [stat.S_ISLNK]. *)
Definition S_IFMT (mode : Z) : Z := Z.land mode 61440.   (* 0o170000 *)
Definition S_ISREG (mode : Z) : bool := S_IFMT mode =? 32768.  (* 0o100000 *)
Definition S_ISDIR (mode : Z) : bool := S_IFMT mode =? 16384.  (* 0o040000 *)
Definition S_ISLNK (mode : Z) : bool := S_IFMT mode =? 40960.  (* 0o120000 *)

(** [schema.Blob]. *)
Record Blob := {
  blob_hash : Hash;
  blob_compress : CompressMethod;
  blob_raw_size : Z;
  blob_stored_size : Z;
}.

(** [schema.File], the columns [__create_file] fills. *)
Record File := {
  file_path : string;
  file_mode : Z;
  file_content : option bytes;
  file_blob_hash : option Hash;
  file_blob_compress : option CompressMethod;
  file_blob_raw_size : option Z;
  file_blob_stored_size : option Z;
  file_uid : Z;
  file_gid : Z;
  file_mtime : Z;
}.

(** [class _BlobCreatePolicy(enum.Enum)]. *)
Module Policy.
Inductive t := read_all | hash_once | copy_hash | default.
End Policy.

Global Instance Policy_eq_dec : EqDecision Policy.t.
Proof. solve_decision. Defined.

Definition BLOB_FILE_CHANGED_RETRY_COUNT : nat := 3.
Definition READ_ALL_SIZE_THRESHOLD : Z := 8 * 1024.
Definition HASH_ONCE_SIZE_THRESHOLD : Z := 10 * 1024 * 1024.

(** Exceptions.  [SourceFileNotFound] is the module's [_SourceFileNotFound],
    a subclass of [FileNotFoundError] that carries the source path. *)
Inductive Exn :=
| BlobFileChanged
| VolatileBlobFile
| SourceFileNotFound (file_path : Path)
| FileNotFoundError (p : Path)
| UnsupportedFileFormat (mode : Z)
| KeyError
| AssertionError
| TypeError
| ValueError
| OSError
| UnicodeEncodeError.

Global Instance Exn_eq_dec : EqDecision Exn.
Proof. solve_decision. Defined.

(** [except OSError] also catches [FileNotFoundError] and its subclass. *)
Definition is_OSError (e : Exn) : bool :=
  match e with
  | OSError | FileNotFoundError _ | SourceFileNotFound _ => true
  | _ => false
  end.

(** [except FileNotFoundError] also catches the subclass. *)
Definition is_FileNotFoundError (e : Exn) : bool :=
  match e with
  | FileNotFoundError _ | SourceFileNotFound _ => true
  | _ => false
  end.

(** Requests a task yields to the batch query manager, and the responses
    sent back ([BlobBySizeFetcher.Req/Rsp], [BlobByHashFetcher.Req/Rsp]). *)
Inductive BqmReq :=
| SizeReq (size : Z)
| HashReq (hash : Hash).

Inductive BqmRsp :=
| SizeRsp (exists_ : bool)
| HashRsp (blob : option Blob).

(** The batched catalog queries a session receives, in order. *)
Inductive DbQuery :=
| QHasBlobWithSize (sizes : list Z)
| QGetBlobs (hashes : list Hash).

(** What concurrent writers do to the source tree. *)
Inductive SrcEvent :=
| ev_write (rel : string) (n : Node)
| ev_delete (rel : string).

(** ** State *)

Record State := {
  (* the disk and the time *)
  disk : gmap Path Node;
  env_tick : nat;          (* file system operations done so far *)
  clock_tick : nat;        (* calls of time.time() so far *)
  (* _PreCalculationResult *)
  stats : gmap Path stat_result;
  hashes : gmap Path Hash;
  reused_files : gmap Path File;
  (* CreateBackupAction *)
  blob_by_size_cache : gmap Z bool;
  blob_by_hash_cache : gmap Hash (option Blob);
  blob_store_st_dev : Z;
  blob_store_in_cow_fs : bool;
  (* CreateBackupActionBase *)
  blob_rollbackers : list Path;
  new_blobs : list Blob;
  (* the catalog session *)
  db_blobs : gmap Hash Blob;
  db_last_backup_files : option (list File);
  db_queries : list DbQuery;
}.

Definition set_disk (f : gmap Path Node -> gmap Path Node) (s : State) : State :=
  {| disk := f (disk s); env_tick := env_tick s; clock_tick := clock_tick s;
     stats := stats s; hashes := hashes s; reused_files := reused_files s;
     blob_by_size_cache := blob_by_size_cache s;
     blob_by_hash_cache := blob_by_hash_cache s;
     blob_store_st_dev := blob_store_st_dev s;
     blob_store_in_cow_fs := blob_store_in_cow_fs s;
     blob_rollbackers := blob_rollbackers s; new_blobs := new_blobs s;
     db_blobs := db_blobs s; db_last_backup_files := db_last_backup_files s;
     db_queries := db_queries s |}.

Definition set_env_tick (n : nat) (s : State) : State :=
  {| disk := disk s; env_tick := n; clock_tick := clock_tick s;
     stats := stats s; hashes := hashes s; reused_files := reused_files s;
     blob_by_size_cache := blob_by_size_cache s;
     blob_by_hash_cache := blob_by_hash_cache s;
     blob_store_st_dev := blob_store_st_dev s;
     blob_store_in_cow_fs := blob_store_in_cow_fs s;
     blob_rollbackers := blob_rollbackers s; new_blobs := new_blobs s;
     db_blobs := db_blobs s; db_last_backup_files := db_last_backup_files s;
     db_queries := db_queries s |}.

Definition set_clock_tick (n : nat) (s : State) : State :=
  {| disk := disk s; env_tick := env_tick s; clock_tick := n;
     stats := stats s; hashes := hashes s; reused_files := reused_files s;
     blob_by_size_cache := blob_by_size_cache s;
     blob_by_hash_cache := blob_by_hash_cache s;
     blob_store_st_dev := blob_store_st_dev s;
     blob_store_in_cow_fs := blob_store_in_cow_fs s;
     blob_rollbackers := blob_rollbackers s; new_blobs := new_blobs s;
     db_blobs := db_blobs s; db_last_backup_files := db_last_backup_files s;
     db_queries := db_queries s |}.

Definition set_stats (f : gmap Path stat_result -> gmap Path stat_result)
    (s : State) : State :=
  {| disk := disk s; env_tick := env_tick s; clock_tick := clock_tick s;
     stats := f (stats s); hashes := hashes s; reused_files := reused_files s;
     blob_by_size_cache := blob_by_size_cache s;
     blob_by_hash_cache := blob_by_hash_cache s;
     blob_store_st_dev := blob_store_st_dev s;
     blob_store_in_cow_fs := blob_store_in_cow_fs s;
     blob_rollbackers := blob_rollbackers s; new_blobs := new_blobs s;
     db_blobs := db_blobs s; db_last_backup_files := db_last_backup_files s;
     db_queries := db_queries s |}.

Definition set_hashes (f : gmap Path Hash -> gmap Path Hash) (s : State) : State :=
  {| disk := disk s; env_tick := env_tick s; clock_tick := clock_tick s;
     stats := stats s; hashes := f (hashes s); reused_files := reused_files s;
     blob_by_size_cache := blob_by_size_cache s;
     blob_by_hash_cache := blob_by_hash_cache s;
     blob_store_st_dev := blob_store_st_dev s;
     blob_store_in_cow_fs := blob_store_in_cow_fs s;
     blob_rollbackers := blob_rollbackers s; new_blobs := new_blobs s;
     db_blobs := db_blobs s; db_last_backup_files := db_last_backup_files s;
     db_queries := db_queries s |}.

Definition set_reused_files (f : gmap Path File -> gmap Path File)
    (s : State) : State :=
  {| disk := disk s; env_tick := env_tick s; clock_tick := clock_tick s;
     stats := stats s; hashes := hashes s; reused_files := f (reused_files s);
     blob_by_size_cache := blob_by_size_cache s;
     blob_by_hash_cache := blob_by_hash_cache s;
     blob_store_st_dev := blob_store_st_dev s;
     blob_store_in_cow_fs := blob_store_in_cow_fs s;
     blob_rollbackers := blob_rollbackers s; new_blobs := new_blobs s;
     db_blobs := db_blobs s; db_last_backup_files := db_last_backup_files s;
     db_queries := db_queries s |}.

Definition set_blob_by_size_cache (f : gmap Z bool -> gmap Z bool)
    (s : State) : State :=
  {| disk := disk s; env_tick := env_tick s; clock_tick := clock_tick s;
     stats := stats s; hashes := hashes s; reused_files := reused_files s;
     blob_by_size_cache := f (blob_by_size_cache s);
     blob_by_hash_cache := blob_by_hash_cache s;
     blob_store_st_dev := blob_store_st_dev s;
     blob_store_in_cow_fs := blob_store_in_cow_fs s;
     blob_rollbackers := blob_rollbackers s; new_blobs := new_blobs s;
     db_blobs := db_blobs s; db_last_backup_files := db_last_backup_files s;
     db_queries := db_queries s |}.

Definition set_blob_by_hash_cache
    (f : gmap Hash (option Blob) -> gmap Hash (option Blob)) (s : State) : State :=
  {| disk := disk s; env_tick := env_tick s; clock_tick := clock_tick s;
     stats := stats s; hashes := hashes s; reused_files := reused_files s;
     blob_by_size_cache := blob_by_size_cache s;
     blob_by_hash_cache := f (blob_by_hash_cache s);
     blob_store_st_dev := blob_store_st_dev s;
     blob_store_in_cow_fs := blob_store_in_cow_fs s;
     blob_rollbackers := blob_rollbackers s; new_blobs := new_blobs s;
     db_blobs := db_blobs s; db_last_backup_files := db_last_backup_files s;
     db_queries := db_queries s |}.

Definition set_blob_store (dev : Z) (cow : bool) (s : State) : State :=
  {| disk := disk s; env_tick := env_tick s; clock_tick := clock_tick s;
     stats := stats s; hashes := hashes s; reused_files := reused_files s;
     blob_by_size_cache := blob_by_size_cache s;
     blob_by_hash_cache := blob_by_hash_cache s;
     blob_store_st_dev := dev;
     blob_store_in_cow_fs := cow;
     blob_rollbackers := blob_rollbackers s; new_blobs := new_blobs s;
     db_blobs := db_blobs s; db_last_backup_files := db_last_backup_files s;
     db_queries := db_queries s |}.

Definition set_blob_rollbackers (f : list Path -> list Path) (s : State) : State :=
  {| disk := disk s; env_tick := env_tick s; clock_tick := clock_tick s;
     stats := stats s; hashes := hashes s; reused_files := reused_files s;
     blob_by_size_cache := blob_by_size_cache s;
     blob_by_hash_cache := blob_by_hash_cache s;
     blob_store_st_dev := blob_store_st_dev s;
     blob_store_in_cow_fs := blob_store_in_cow_fs s;
     blob_rollbackers := f (blob_rollbackers s); new_blobs := new_blobs s;
     db_blobs := db_blobs s; db_last_backup_files := db_last_backup_files s;
     db_queries := db_queries s |}.

Definition set_new_blob (b : Blob) (s : State) : State :=
  {| disk := disk s; env_tick := env_tick s; clock_tick := clock_tick s;
     stats := stats s; hashes := hashes s; reused_files := reused_files s;
     blob_by_size_cache := blob_by_size_cache s;
     blob_by_hash_cache := blob_by_hash_cache s;
     blob_store_st_dev := blob_store_st_dev s;
     blob_store_in_cow_fs := blob_store_in_cow_fs s;
     blob_rollbackers := blob_rollbackers s; new_blobs := new_blobs s ++ [b];
     db_blobs := <[blob_hash b := b]> (db_blobs s);
     db_last_backup_files := db_last_backup_files s;
     db_queries := db_queries s |}.

Definition set_db_queries (f : list DbQuery -> list DbQuery) (s : State) : State :=
  {| disk := disk s; env_tick := env_tick s; clock_tick := clock_tick s;
     stats := stats s; hashes := hashes s; reused_files := reused_files s;
     blob_by_size_cache := blob_by_size_cache s;
     blob_by_hash_cache := blob_by_hash_cache s;
     blob_store_st_dev := blob_store_st_dev s;
     blob_store_in_cow_fs := blob_store_in_cow_fs s;
     blob_rollbackers := blob_rollbackers s; new_blobs := new_blobs s;
     db_blobs := db_blobs s; db_last_backup_files := db_last_backup_files s;
     db_queries := f (db_queries s) |}.

(** ** Resumable computations

    A generator body run from a state ends in one of three ways: it
    returns ([Done], Python's [StopIteration]), raises ([Err]) or yields a
    request ([Yield]) together with what remains to be run once a value is
    sent back; the state it is resumed in is the one the coordinator holds
    at that time. *)

Inductive Res (A : Type) : Type :=
| Done (s : State) (a : A)
| Err (s : State) (e : Exn)
| Yield (s : State) (q : BqmReq) (k : option BqmRsp -> State -> Res A).

Arguments Done {A} s a.
Arguments Err {A} s e.
Arguments Yield {A} s q k.

Definition M (A : Type) : Type := State -> Res A.

Definition ret {A} (a : A) : M A := fun s => Done s a.
Definition raise {A} (e : Exn) : M A := fun s => Err s e.
Definition yield_ (q : BqmReq) : M (option BqmRsp) :=
  fun s => Yield s q (fun v s' => Done s' v).
Definition get_state : M State := fun s => Done s s.
Definition modify (f : State -> State) : M unit := fun s => Done (f s) tt.

Fixpoint bind_res {A B} (r : Res A) (f : A -> M B) : Res B :=
  match r with
  | Done s a => f a s
  | Err s e => Err s e
  | Yield s q k => Yield s q (fun v s' => bind_res (k v s') f)
  end.

Definition bind {A B} (m : M A) (f : A -> M B) : M B :=
  fun s => bind_res (m s) f.

(** [try: m  except e: h e]. *)
Fixpoint catch_res {A} (r : Res A) (h : Exn -> M A) : Res A :=
  match r with
  | Done s a => Done s a
  | Err s e => h e s
  | Yield s q k => Yield s q (fun v s' => catch_res (k v s') h)
  end.

Definition catch {A} (m : M A) (h : Exn -> M A) : M A :=
  fun s => catch_res (m s) h.

(** [try: m  finally: c] ([c] does not raise). *)
Fixpoint finally_res {A} (r : Res A) (c : State -> State) : Res A :=
  match r with
  | Done s a => Done (c s) a
  | Err s e => Err (c s) e
  | Yield s q k => Yield s q (fun v s' => finally_res (k v s') c)
  end.

Definition finally {A} (m : M A) (c : State -> State) : M A :=
  fun s => finally_res (m s) c.

Notation "'let*' x ':=' m 'in' k" := (bind m (fun x => k))
  (at level 10, x pattern, m at level 100, k at level 200).
Notation "m1 '>>' m2" := (bind m1 (fun _ => m2))
  (at level 100, m2 at level 200, right associativity).

(** [misc_utils.assert_true]. *)
Definition assert_true (b : bool) : M unit :=
  if b then ret tt else raise AssertionError.

Arguments READ_ALL_SIZE_THRESHOLD : simpl never.
Arguments HASH_ONCE_SIZE_THRESHOLD : simpl never.
Arguments blen : simpl never.
Arguments bread : simpl never.

(** ** The environment and the configuration

    What the pipeline takes from outside: the wall clock, the writers that
    change the source tree while the backup runs, the platform probes, the
    hash and the compressors. *)

Record Env := {
  (* the value of the n-th call of time.time(), in seconds *)
  time_at : nat -> Q;
  (* what happens to the source tree right before the n-th read of the disk *)
  src_events : nat -> list SrcEvent;
  HAS_COPY_FILE_RANGE : bool;
  does_fs_support_cow : bool;
  blob_store_dev : Z;
  (* os.replace from the temp directory to the blob store raises OSError *)
  temp_on_other_device : bool;
  calc_bytes_hash : bytes -> Hash;
  compress : CompressMethod -> bytes -> bytes;
}.

Record Config := {
  get_compress_method_from_size : Z -> CompressMethod;
  reuse_stat_unchanged_file : bool;
  creation_skip_missing_file : bool;
  (* GitIgnoreSpec.from_lines(creation_skip_missing_file_patterns).match_file *)
  creation_skip_missing_file_patterns : string -> bool;
  get_effective_concurrency : Z;
}.

Definition apply_event (d : gmap Path Node) (ev : SrcEvent) : gmap Path Node :=
  match ev with
  | ev_write rel n => <[SrcPath rel := n]> d
  | ev_delete rel => delete (SrcPath rel) d
  end.

Record CopyCompressResult := {
  read_size : Z;
  read_hash : option Hash;
  write_size : Z;
}.

(** Local variables of [attempt_once] that outlive the policy selection. *)
Record Locals := {
  policy : option Policy.t;
  l_blob_hash : option Hash;
  blob_content : option bytes;
}.

(** [dict.get(h)] on [__blob_by_hash_cache]: a key bound to [None] (a batch
    answer for an unknown fingerprint) reads as [None]. *)
Definition hash_cache_get (s : State) (h : Hash) : option Blob :=
  mjoin (blob_by_hash_cache s !! h).

Section Pipeline.

Variable env : Env.
Variable config : Config.

(** *** File system and library calls *)

(** The writers act, then the call reads the disk. *)
Definition env_act (s : State) : State :=
  set_env_tick (S (env_tick s))
    (set_disk (fun d => fold_left apply_event (src_events env (env_tick s)) d) s).

Definition env_step : M unit := modify env_act.

(** [Path.lstat()]. *)
Definition lstat (p : Path) : M stat_result :=
  env_step >>
  fun s => match disk s !! p with
           | Some n => Done s (stat_of n)
           | None => Err s (FileNotFoundError p)
           end.

(** [open(p, 'rb')] followed by reading the body. *)
Definition open_rb (p : Path) : M bytes :=
  env_step >>
  fun s => match disk s !! p with
           | Some n => Done s (n_data n)
           | None => Err s (FileNotFoundError p)
           end.

(** [os.readlink]: the target of a symlink; for an entry that is not a
    symlink the call fails with [OSError] (EINVAL). *)
Definition readlink (p : Path) : M bytes :=
  env_step >>
  fun s => match disk s !! p with
           | Some n => if S_ISLNK (n_mode n) then Done s (n_data n) else Err s OSError
           | None => Err s (FileNotFoundError p)
           end.

(** [.encode('utf8')] of the [str] that [os.readlink] returns.  The target
    was decoded with the file system encoding (UTF-8) and surrogateescape:
    well-formed UTF-8 comes back byte for byte, and a byte that was
    escaped cannot be encoded. *)
Definition encode_utf8 (target : bytes) : M bytes :=
  if utf8_valid target then ret target else raise UnicodeEncodeError.

Definition write_file (p : Path) (data : bytes) : M unit :=
  modify (set_disk (fun d => <[p := file_node data]> d)).

(** [_SourceFileNotFound.wrap(path)]. *)
Definition wrap {A} (path : Path) (m : M A) : M A :=
  catch m (fun e => if is_FileNotFoundError e
                    then raise (SourceFileNotFound path) else raise e).

(** [_SourceFileNotFound.open_rb(path, 'rb')]. *)
Definition SourceFileNotFound_open_rb (path : Path) : M bytes :=
  wrap path (open_rb path).

(** [file_utils.copy_file_fast(src, dst, open_r_func=...)]; [wrapped] says
    that [open_r_func] is [_SourceFileNotFound.open_rb]. *)
Definition copy_file_fast (src dst : Path) (wrapped : bool) : M unit :=
  let* data := (if wrapped then SourceFileNotFound_open_rb src else open_rb src) in
  write_file dst data.

(** [hash_utils.calc_file_hash]. *)
Definition calc_file_hash (p : Path) : M Hash :=
  let* data := open_rb p in
  ret (calc_bytes_hash env data).

(** [hash_utils.calc_file_size_and_hash]. *)
Definition calc_file_size_and_hash (p : Path) : M (Z * Hash) :=
  let* data := open_rb p in
  ret (blen data, calc_bytes_hash env data).

(** [Compressor.create(method).copy_compressed(src, dst, calc_hash=...,
    open_r_func=...)]. *)
Definition copy_compressed (method : CompressMethod) (src dst : Path)
    (calc_hash wrapped : bool) : M CopyCompressResult :=
  let* data := (if wrapped then SourceFileNotFound_open_rb src else open_rb src) in
  let out := compress env method data in
  write_file dst out >>
  ret {| read_size := blen data;
         read_hash := if calc_hash then Some (calc_bytes_hash env data) else None;
         write_size := blen out |}.

(** [with compressor.open_compressed_bypassed(p) as (writer, f):
    f.write(content)], then [writer.get_write_len()]. *)
Definition write_compressed (method : CompressMethod) (p : Path)
    (content : bytes) : M Z :=
  let out := compress env method content in
  write_file p out >> ret (blen out).

(** [os.replace(src, dst)]. *)
Definition os_replace (src dst : Path) : M unit :=
  if temp_on_other_device env then raise OSError
  else fun s =>
    match disk s !! src with
    | Some n => Done (set_disk (fun d => <[dst := n]> (delete src d)) s) tt
    | None => Err s (FileNotFoundError src)
    end.

(** *** Helpers of [CreateBackupActionBase] *)

(** Modelled from the spec: [_remove_file] of the base class, which is not
    among the sources; a temp file is removed on every exit path. *)
Definition remove_file (p : Path) (s : State) : State :=
  set_disk (fun d => delete p d) s.

(** Modelled from the spec: [_add_remove_file_rollbacker] of the base
    class; the rollback list is an append-only ordered list of blob
    paths. *)
Definition add_remove_file_rollbacker (p : Path) : M unit :=
  modify (set_blob_rollbackers (fun l => l ++ [p])).

(** Modelled from the spec: [_apply_blob_rollback] of the base class; each
    path in the rollback list is removed from disk. *)
Definition apply_blob_rollback (s : State) : State :=
  fold_left (fun s p => remove_file p s) (blob_rollbackers s) s.

(** Modelled from the spec: [_create_blob] of the base class inserts a Blob
    row [(H, C, raw_size, stored_size)], or adopts the row the catalog
    already holds for [H]. *)
Definition create_blob (h : Hash) (c : CompressMethod) (raw stored : Z) : M Blob :=
  fun s =>
    match db_blobs s !! h with
    | Some b => Done s b
    | None =>
        let b := {| blob_hash := h; blob_compress := c;
                    blob_raw_size := raw; blob_stored_size := stored |} in
        Done (set_new_blob b s) b
    end.

(** *** [__get_or_create_blob] *)

Definition path_str (p : Path) : string :=
  match p with
  | SrcPath rel => "src/" +:+ rel
  | TempPath n => "temp/" +:+ n
  | BlobPath h => "blob/" +:+ h
  end.

(** [make_temp_file]: one temp file per source path (the name holds the
    process id, the thread id and the MD5 of the path), removed when the
    block is left. *)
Definition temp_file_path (src_path : Path) : Path :=
  TempPath ("blob_" +:+ path_str src_path +:+ ".tmp").

Definition make_temp_file {A} (src_path : Path) (body : Path -> M A) : M A :=
  finally (body (temp_file_path src_path)) (remove_file (temp_file_path src_path)).

Definition can_copy_on_write (compress_method : CompressMethod)
    (st : stat_result) (s : State) : bool :=
  HAS_COPY_FILE_RANGE env
  && bool_decide (compress_method = plain)
  && blob_store_in_cow_fs s
  && (st_dev st =? blob_store_st_dev s).

(** [self.__pre_calc_result.hashes.pop(src_path, None)]. *)
Definition pop_hash (src_path : Path) : M (option Hash) :=
  fun s => Done (set_hashes (delete src_path) s) (hashes s !! src_path).

(** [check_changes] (the [blob_hash] of the enclosing attempt is passed). *)
Definition check_changes (st : stat_result) (blob_hash : option Hash)
    (new_size : Z) (new_hash : option Hash) : M unit :=
  if negb (new_size =? st_size st) then raise BlobFileChanged
  else match blob_hash, new_hash with
       | Some h, Some h' =>
           if bool_decide (h' <> h) then raise BlobFileChanged else ret tt
       | _, _ => ret tt
       end.

(** [bp_rba]: blob path, roll back add. *)
Definition bp_rba (h : Hash) : M Path :=
  let bp := get_blob_path h in
  add_remove_file_rollbacker bp >> ret bp.

(** The dedup check: the cache, then a hash-batch request, then the cache
    again.  [Some b] is [return cache]. *)
Definition dedup_by_hash (h : Hash) : M (option Blob) :=
  let* s := get_state in
  match hash_cache_get s h with
  | Some cache => ret (Some cache)
  | None =>
      yield_ (HashReq h) >>
      let* s' := get_state in
      ret (hash_cache_get s' h)
  end.

Definition mkLocals (p : option Policy.t) (h : option Hash) (c : option bytes) :=
  {| policy := p; l_blob_hash := h; blob_content := c |}.

(** [attempt_once], lines 445-489: the policy selection. *)
Definition attempt_select (src_path : Path) (st : stat_result)
    (last_chance : bool) : M Locals :=
  let compress_method := get_compress_method_from_size config (st_size st) in
  let* s0 := get_state in
  let can_cow := can_copy_on_write compress_method st s0 in
  let* pre_calc_hash := pop_hash src_path in
  let* loc :=
    (if last_chance then
       ret (mkLocals (Some Policy.copy_hash) None None)
     else match pre_calc_hash with
     | Some h => ret (mkLocals (Some Policy.default) (Some h) None)
     | None =>
       if negb can_cow then
         if st_size st <=? READ_ALL_SIZE_THRESHOLD then
           let* data := SourceFileNotFound_open_rb src_path in
           let content := bread (READ_ALL_SIZE_THRESHOLD + 1) data in
           if blen content >? READ_ALL_SIZE_THRESHOLD then raise BlobFileChanged
           else ret (mkLocals (Some Policy.read_all)
                       (Some (calc_bytes_hash env content)) (Some content))
         else if st_size st >? HASH_ONCE_SIZE_THRESHOLD then
           let* s := get_state in
           let* can_hash_once :=
             (match blob_by_size_cache s !! st_size st with
              | None =>
                  yield_ (SizeReq (st_size st)) >>
                  let* s' := get_state in
                  match blob_by_size_cache s' !! st_size st with
                  | Some ex => ret (negb ex)
                  | None => raise KeyError
                  end
              | Some ex => ret (negb ex)
              end) in
           if can_hash_once : bool then ret (mkLocals (Some Policy.hash_once) None None)
           else ret (mkLocals None None None)
         else ret (mkLocals None None None)
       else ret (mkLocals None None None)
     end) in
  match policy loc with
  | None =>
      let* h := wrap src_path (calc_file_hash src_path) in
      ret (mkLocals (Some Policy.default) (Some h) (blob_content loc))
  | Some _ => ret loc
  end.

(** [attempt_once], lines 492-499: the dedup short-circuit. *)
Definition attempt_dedup (loc : Locals) : M (option Blob) :=
  match l_blob_hash loc with
  | Some h =>
      assert_true (bool_decide (policy loc <> Some Policy.hash_once)) >>
      dedup_by_hash h
  | None => ret None
  end.

(** [attempt_once], lines 521-603: the write paths and the Blob row. *)
Definition attempt_write (src_path : Path) (st : stat_result)
    (last_chance : bool) (can_cow : bool) (loc : Locals) : M Blob :=
  let compress_method := get_compress_method_from_size config (st_size st) in
  let* r :=
    (match policy loc with
     | Some Policy.copy_hash =>
         assert_true (bool_decide (l_blob_hash loc = None)) >>
         make_temp_file src_path (fun temp =>
           copy_file_fast src_path temp true >>
           let* h := calc_file_hash temp in
           assert_true last_chance >>
           let* hit := dedup_by_hash h in
           match hit with
           | Some cache => ret (inl cache)
           | None =>
               let* blob_path := bp_rba h in
               let* cr := copy_compressed compress_method temp blob_path false false in
               ret (inr (Some h, read_size cr, write_size cr))
           end)
     | Some Policy.hash_once =>
         assert_true (bool_decide (l_blob_hash loc = None)) >>
         make_temp_file src_path (fun temp =>
           let* cr := copy_compressed compress_method src_path temp true true in
           check_changes st (l_blob_hash loc) (read_size cr) None >>
           match read_hash cr with
           | None => raise TypeError
           | Some h =>
               let* blob_path := bp_rba h in
               catch (os_replace temp blob_path)
                 (fun e => if is_OSError e
                           then copy_file_fast temp blob_path false
                           else raise e) >>
               ret (inr (Some h, read_size cr, write_size cr))
           end)
     | _ =>
         match l_blob_hash loc with
         | None => raise AssertionError
         | Some h =>
             let* blob_path := bp_rba h in
             match policy loc with
             | Some Policy.read_all =>
                 match blob_content loc with
                 | None => raise AssertionError
                 | Some content =>
                     let* write_len := write_compressed compress_method blob_path content in
                     ret (inr (Some h, blen content, write_len))
                 end
             | Some Policy.default =>
                 if can_cow && bool_decide (compress_method = plain) then
                   copy_file_fast src_path blob_path true >>
                   let* sah := calc_file_size_and_hash blob_path in
                   check_changes st (l_blob_hash loc) (fst sah) (Some (snd sah)) >>
                   ret (inr (Some h, fst sah, fst sah))
                 else
                   let* cr := copy_compressed compress_method src_path blob_path true true in
                   check_changes st (l_blob_hash loc) (read_size cr) (read_hash cr) >>
                   ret (inr (Some h, read_size cr, write_size cr))
             | _ => raise AssertionError
             end
         end
     end) in
  match r with
  | inl cache => ret cache
  | inr (Some h, raw_size, stored_size) => create_blob h compress_method raw_size stored_size
  | inr (None, _, _) => raise AssertionError
  end.

(** [attempt_once] from line 492 on, with [can_copy_on_write] and the
    locals of the selection. *)
Definition attempt_finish (src_path : Path) (st : stat_result)
    (last_chance : bool) (can_cow : bool) (loc : Locals) : M Blob :=
  let* hit := attempt_dedup loc in
  match hit with
  | Some cache => ret cache
  | None => attempt_write src_path st last_chance can_cow loc
  end.

(** [attempt_once(last_chance)]. *)
Definition attempt_once (src_path : Path) (st : stat_result)
    (last_chance : bool) : M Blob :=
  let compress_method := get_compress_method_from_size config (st_size st) in
  let* s0 := get_state in
  let can_cow := can_copy_on_write compress_method st s0 in
  let* loc := attempt_select src_path st last_chance in
  attempt_finish src_path st last_chance can_cow loc.

(** Lines 616-620: a finished attempt records the blob in both caches. *)
Definition record_blob_state (blob : Blob) (s : State) : State :=
  set_blob_by_hash_cache (fun c => <[blob_hash blob := Some blob]> c)
    (set_blob_by_size_cache (fun c => <[blob_raw_size blob := true]> c) s).

Definition record_blob (blob : Blob) : M unit := modify (record_blob_state blob).

(** The retry loop of [__get_or_create_blob]: [n] iterations remain, [i] is
    the loop index.  The loop is written over the attempt it runs. *)
Fixpoint retry_loop (attempt : stat_result -> bool -> M Blob) (src_path : Path)
    (n : nat) (i : nat) (st : stat_result) : M (Blob * stat_result) :=
  match n with
  | O => raise VolatileBlobFile
  | S n' =>
      let retry_cnt := (i + 1)%nat in
      let is_last_attempt := (retry_cnt =? BLOB_FILE_CHANGED_RETRY_COUNT)%nat in
      catch
        (let* blob := attempt st is_last_attempt in
         record_blob blob >> ret (blob, st))
        (fun e => match e with
                  | BlobFileChanged =>
                      let* st' := lstat src_path in
                      retry_loop attempt src_path n' (S i) st'
                  | _ => raise e
                  end)
  end.

Definition get_or_create_blob (src_path : Path) (st : stat_result)
    : M (Blob * stat_result) :=
  retry_loop (attempt_once src_path) src_path BLOB_FILE_CHANGED_RETRY_COUNT 0 st.

(** *** [__create_file] *)

(** [__file_path_to_db_path]. *)
Definition file_path_to_db_path (path : Path) : M string :=
  match relative_to_source path with
  | Some rel => ret rel
  | None => raise ValueError
  end.

(** [self.__pre_calc_result.stats.pop(path, None)]. *)
Definition pop_stat (path : Path) : M (option stat_result) :=
  fun s => Done (set_stats (delete path) s) (stats s !! path).

(** [session.create_file] for a reused row: every column is copied. *)
Definition copy_file_row (reused_file : File) : File :=
  {| file_path := file_path reused_file;
     file_mode := file_mode reused_file;
     file_content := file_content reused_file;
     file_blob_hash := file_blob_hash reused_file;
     file_blob_compress := file_blob_compress reused_file;
     file_blob_raw_size := file_blob_raw_size reused_file;
     file_blob_stored_size := file_blob_stored_size reused_file;
     file_uid := file_uid reused_file;
     file_gid := file_gid reused_file;
     file_mtime := file_mtime reused_file |}.

(** [session.create_file(path=..., mode=..., content=..., uid=..., gid=...,
    mtime=..., blob=blob)]. *)
Definition new_file_row (db_path : string) (st : stat_result)
    (content : option bytes) (blob : option Blob) : File :=
  {| file_path := db_path;
     file_mode := st_mode st;
     file_content := content;
     file_blob_hash := blob_hash <$> blob;
     file_blob_compress := blob_compress <$> blob;
     file_blob_raw_size := blob_raw_size <$> blob;
     file_blob_stored_size := blob_stored_size <$> blob;
     file_uid := st_uid st;
     file_gid := st_gid st;
     file_mtime := st_mtime_ns st / 1000 |}.

Definition create_file (path : Path) : M File :=
  let* s := get_state in
  match reused_files s !! path with
  | Some reused_file => ret (copy_file_row reused_file)
  | None =>
      let* cached := pop_stat path in
      let* st := (match cached with
                  | Some st => ret st
                  | None => wrap path (lstat path)
                  end) in
      let* (blob, content, st) :=
        (if S_ISREG (st_mode st) then
           let* (blob, st') := get_or_create_blob path st in
           ret (Some blob, None, st')
         else if S_ISDIR (st_mode st) then
           ret (None, None, st)
         else if S_ISLNK (st_mode st) then
           let* target := wrap path (let* link := readlink path in
                                     encode_utf8 link) in
           ret (None, Some target, st)
         else raise (UnsupportedFileFormat (st_mode st))) in
      let* db_path := file_path_to_db_path path in
      ret (new_file_row db_path st content blob)
  end.

(** *** The catalog session *)

(** Modelled from the spec: [has_blob_with_size_batched(sizes)] answers,
    for each size asked, whether a blob of that raw size exists. *)
Definition has_blob_with_size (s : State) (sz : Z) : bool :=
  existsb (fun kb => blob_raw_size (snd kb) =? sz) (map_to_list (db_blobs s)).

Definition has_blob_with_size_batched (sizes : list Z) (s : State)
    : State * gmap Z bool :=
  (set_db_queries (fun l => l ++ [QHasBlobWithSize sizes]) s,
   list_to_map ((fun sz => (sz, has_blob_with_size s sz)) <$> sizes)).

(** Modelled from the spec: [get_blobs(hashes)] answers, for each
    fingerprint asked, the Blob row or nothing. *)
Definition get_blobs (hs : list Hash) (s : State)
    : State * gmap Hash (option Blob) :=
  (set_db_queries (fun l => l ++ [QGetBlobs hs]) s,
   list_to_map ((fun h => (h, db_blobs s !! h)) <$> hs)).

(** *** Pre-calculation *)

(** [_ScanResultEntry]. *)
Record ScanResultEntry := {
  entry_path : Path;
  entry_stat : stat_result;
}.

Definition is_file (e : ScanResultEntry) : bool := S_ISREG (st_mode (entry_stat e)).

(** [__pre_calculate_stats]. *)
Definition pre_calculate_stats (all_files : list ScanResultEntry) (s : State) : State :=
  set_stats (fun _ =>
    fold_left (fun m e => <[entry_path e := entry_stat e]> m) all_files ∅) s.

(** [StatKey] of [__reuse_unchanged_files]. *)
Record StatKey := {
  key_path : string;
  key_size : option Z;
  key_mode : Z;
  key_uid : Z;
  key_gid : Z;
  key_mtime_us : Z;
}.

Global Instance StatKey_eq_dec : EqDecision StatKey.
Proof. solve_decision. Defined.

Definition stat_key_of_file (file : File) : StatKey :=
  {| key_path := file_path file;
     key_size := file_blob_raw_size file;
     key_mode := file_mode file;
     key_uid := file_uid file;
     key_gid := file_gid file;
     key_mtime_us := file_mtime file |}.

Definition stat_key_of_entry (db_path : string) (st : stat_result) : StatKey :=
  {| key_path := db_path;
     key_size := Some (st_size st);
     key_mode := st_mode st;
     key_uid := st_uid st;
     key_gid := st_gid st;
     key_mtime_us := st_mtime_ns st / 1000 |}.

(** The dict [stat_to_files] as an association list, newest binding
    first. *)
Definition stat_to_files_of (backup_files : list File) : list (StatKey * File) :=
  fold_left (fun acc file =>
               if S_ISREG (file_mode file) then (stat_key_of_file file, file) :: acc
               else acc)
            backup_files [].

Definition stat_to_files_get (d : list (StatKey * File)) (key : StatKey) : option File :=
  snd <$> (snd <$> list_find (fun kf => fst kf = key) d).

Fixpoint reuse_scan (d : list (StatKey * File)) (all_files : list ScanResultEntry)
    : M unit :=
  match all_files with
  | [] => ret tt
  | file_entry :: rest =>
      (if is_file file_entry then
         let* db_path := file_path_to_db_path (entry_path file_entry) in
         match stat_to_files_get d (stat_key_of_entry db_path (entry_stat file_entry)) with
         | Some file =>
             modify (set_reused_files (fun r => <[entry_path file_entry := file]> r))
         | None => ret tt
         end
       else ret tt) >>
      reuse_scan d rest
  end.

(** [__reuse_unchanged_files]. *)
Definition reuse_unchanged_files (all_files : list ScanResultEntry) : M unit :=
  let* s := get_state in
  match db_last_backup_files s with
  | None => ret tt
  | Some backup_files => reuse_scan (stat_to_files_of backup_files) all_files
  end.

Fixpoint hash_files (existed_sizes : gmap Z bool) (entries : list ScanResultEntry)
    : M unit :=
  match entries with
  | [] => ret tt
  | file_entry :: rest =>
      match existed_sizes !! st_size (entry_stat file_entry) with
      | None => raise KeyError
      | Some true =>
          let* h := calc_file_hash (entry_path file_entry) in
          modify (set_hashes (fun m => <[entry_path file_entry := h]> m)) >>
          hash_files existed_sizes rest
      | Some false => hash_files existed_sizes rest
      end
  end.

(** [__pre_calculate_hash]; the worker pool hashes the files one after the
    other here. *)
Definition pre_calculate_hash (all_files : list ScanResultEntry) : M unit :=
  modify (set_hashes (fun _ => ∅)) >>
  let* s := get_state in
  let file_entries_to_hash :=
    filter (fun e => is_file e /\ reused_files s !! entry_path e = None) all_files in
  let all_sizes : gset Z :=
    list_to_set ((fun e => st_size (entry_stat e)) <$> file_entries_to_hash) in
  let* existed_sizes :=
    (fun s => let (s', r) := has_blob_with_size_batched (elements all_sizes) s in
              Done s' r) in
  modify (set_blob_by_size_cache (fun c => existed_sizes ∪ c)) >>
  hash_files existed_sizes file_entries_to_hash.

(** *** The batch query manager and the coordinator

    A generator object is what remains to be run once a value is sent to
    it.  The coordinator keeps the deque of [(generator, value)] pairs, the
    two fetchers and the File rows finished so far; the fetchers' result
    caches are the action's own dicts, in [world]. *)

Definition Generator := option BqmRsp -> State -> Res File.
Definition Queue := list (Generator * option BqmRsp).
Definition Callback := BqmRsp -> Queue -> Queue.

(** [BatchFetcherBase] with the task list and key set of its subclasses. *)
Record Fetcher (K : Type) `{Countable K} := {
  tasks : list (K * Callback);
  keys : gset K;
  max_batch_size : nat;
  first_task_scheduled_time : Q;
}.

Arguments tasks {K _ _} f.
Arguments keys {K _ _} f.
Arguments max_batch_size {K _ _} f.
Arguments first_task_scheduled_time {K _ _} f.

Record Coord := {
  world : State;
  schedule_queue : Queue;
  fetcher_size : Fetcher Z;
  fetcher_hash : Fetcher Hash;
  files : list File;
}.

Definition set_world (s : State) (c : Coord) : Coord :=
  {| world := s; schedule_queue := schedule_queue c;
     fetcher_size := fetcher_size c; fetcher_hash := fetcher_hash c;
     files := files c |}.

Definition set_schedule_queue (q : Queue) (c : Coord) : Coord :=
  {| world := world c; schedule_queue := q;
     fetcher_size := fetcher_size c; fetcher_hash := fetcher_hash c;
     files := files c |}.

Definition set_fetcher_size (f : Fetcher Z) (c : Coord) : Coord :=
  {| world := world c; schedule_queue := schedule_queue c;
     fetcher_size := f; fetcher_hash := fetcher_hash c;
     files := files c |}.

Definition set_fetcher_hash (f : Fetcher Hash) (c : Coord) : Coord :=
  {| world := world c; schedule_queue := schedule_queue c;
     fetcher_size := fetcher_size c; fetcher_hash := f;
     files := files c |}.

Definition set_files (l : list File) (c : Coord) : Coord :=
  {| world := world c; schedule_queue := schedule_queue c;
     fetcher_size := fetcher_size c; fetcher_hash := fetcher_hash c;
     files := l |}.

(** What a coordinator-level call ends in. *)
Inductive CRes :=
| COk (c : Coord)
| CErr (c : Coord) (e : Exn).

Definition cbind (r : CRes) (f : Coord -> CRes) : CRes :=
  match r with
  | COk c => f c
  | CErr c e => CErr c e
  end.

(** [time.time()]. *)
Definition time_time (c : Coord) : Q * Coord :=
  (time_at env (clock_tick (world c)),
   set_world (set_clock_tick (S (clock_tick (world c))) (world c)) c).

(** [for key, callback in reversed(self.tasks): callback(Rsp(result[key]))];
    [None] is the [KeyError] of [result[key]]. *)
Fixpoint run_callbacks {K V} `{Countable K} (result : gmap K V)
    (mk_rsp : V -> BqmRsp) (reversed_tasks : list (K * Callback)) (q : Queue)
    : option Queue :=
  match reversed_tasks with
  | [] => Some q
  | (key, callback) :: rest =>
      match result !! key with
      | None => None
      | Some v => run_callbacks result mk_rsp rest (callback (mk_rsp v) q)
      end
  end.

Definition clear_fetcher {K} `{Countable K} (f : Fetcher K) : Fetcher K :=
  {| tasks := []; keys := ∅; max_batch_size := max_batch_size f;
     first_task_scheduled_time := first_task_scheduled_time f |}.

(** [BlobBySizeFetcher._batch_run]. *)
Definition size_batch_run (c : Coord) : CRes :=
  let f := fetcher_size c in
  let (s1, existence) := has_blob_with_size_batched (elements (keys f)) (world c) in
  let s2 := set_blob_by_size_cache (fun cache => existence ∪ cache) s1 in
  match run_callbacks existence SizeRsp (reverse (tasks f)) (schedule_queue c) with
  | None => CErr (set_world s2 c) KeyError
  | Some q => COk (set_fetcher_size (clear_fetcher f) (set_schedule_queue q (set_world s2 c)))
  end.

(** [BlobByHashFetcher._batch_run]. *)
Definition hash_batch_run (c : Coord) : CRes :=
  let f := fetcher_hash c in
  let (s1, blobs) := get_blobs (elements (keys f)) (world c) in
  let s2 := set_blob_by_hash_cache (fun cache => blobs ∪ cache) s1 in
  match run_callbacks blobs HashRsp (reverse (tasks f)) (schedule_queue c) with
  | None => CErr (set_world s2 c) KeyError
  | Some q => COk (set_fetcher_hash (clear_fetcher f) (set_schedule_queue q (set_world s2 c)))
  end.

(** The methods of [BatchFetcherBase], over the fetcher they act on and
    its [_batch_run]. *)
Section BatchFetcherBase.
Context {K : Type} `{Countable K}.
Variable get_fetcher : Coord -> Fetcher K.
Variable set_fetcher : Fetcher K -> Coord -> Coord.
Variable batch_run : Coord -> CRes.

(** [flush_if_needed]: [and] and [or] short-circuit, so the clock is read
    only for a non-empty batch below the size bound. *)
Definition flush_if_needed (c : Coord) : CRes :=
  let f := get_fetcher c in
  if (0 <? length (tasks f))%nat then
    if (max_batch_size f <=? length (tasks f))%nat then batch_run c
    else
      let (now, c') := time_time c in
      if Qle_bool (1 # 10) (now - first_task_scheduled_time f) then batch_run c'
      else COk c'
  else COk c.

(** [flush]. *)
Definition flush (c : Coord) : CRes :=
  if (0 <? length (tasks (get_fetcher c)))%nat then batch_run c else COk c.

(** [_post_query]. *)
Definition post_query (c : Coord) : CRes :=
  let (now, c1) := time_time c in
  let f := get_fetcher c1 in
  let c2 :=
    if (length (tasks f) =? 1)%nat then
      set_fetcher {| tasks := tasks f; keys := keys f;
                     max_batch_size := max_batch_size f;
                     first_task_scheduled_time := now |} c1
    else c1 in
  flush_if_needed c2.

(** [query]: append the task, add the key, [_post_query]. *)
Definition fetcher_query (key : K) (callback : Callback) (c : Coord) : CRes :=
  let f := get_fetcher c in
  post_query
    (set_fetcher {| tasks := tasks f ++ [(key, callback)];
                    keys := {[key]} ∪ keys f;
                    max_batch_size := max_batch_size f;
                    first_task_scheduled_time := first_task_scheduled_time f |} c).
End BatchFetcherBase.

(** [BatchQueryManager.query]. *)
Definition bqm_query (query : BqmReq) (callback : Callback) (c : Coord) : CRes :=
  match query with
  | SizeReq size => fetcher_query fetcher_size set_fetcher_size size_batch_run size callback c
  | HashReq h => fetcher_query fetcher_hash set_fetcher_hash hash_batch_run h callback c
  end.

(** [BatchQueryManager.flush_if_needed]. *)
Definition bqm_flush_if_needed (c : Coord) : CRes :=
  cbind (flush_if_needed fetcher_size size_batch_run c)
        (flush_if_needed fetcher_hash hash_batch_run).

(** [BatchQueryManager.flush]. *)
Definition bqm_flush (c : Coord) : CRes :=
  cbind (flush fetcher_size size_batch_run c) (flush fetcher_hash hash_batch_run).

(** [BatchFetcherBase.__init__] and [BatchQueryManager.__init__]
    ([max_batch_size: int = 100]). *)
Definition new_fetcher {K} `{Countable K} (max_batch_size : nat) (now : Q) : Fetcher K :=
  {| tasks := []; keys := ∅; max_batch_size := max_batch_size;
     first_task_scheduled_time := now |}.

Definition DEFAULT_MAX_BATCH_SIZE : nat := 100.

Definition new_coord (s : State) : Coord :=
  let t1 := time_at env (clock_tick s) in
  let t2 := time_at env (S (clock_tick s)) in
  {| world := set_clock_tick (S (S (clock_tick s))) s;
     schedule_queue := [];
     fetcher_size := new_fetcher DEFAULT_MAX_BATCH_SIZE t1;
     fetcher_hash := new_fetcher DEFAULT_MAX_BATCH_SIZE t2;
     files := [] |}.

(** [should_skip_missing_source_file]. *)
Definition should_skip_missing_source_file (src_file_path : Path) : bool :=
  if creation_skip_missing_file config then
    match relative_to_source src_file_path with
    | None => false
    | Some rel_path => creation_skip_missing_file_patterns config rel_path
    end
  else false.

(** [def callback(query_rsp, g=gen): schedule_queue.appendleft((g, query_rsp))]. *)
Definition callback (g : Generator) : Callback :=
  fun query_rsp q => (g, Some query_rsp) :: q.

(** One iteration of the [while] loop of [__create_backup], after
    [popleft]. *)
Definition schedule_step (gen : Generator) (value : option BqmRsp) (c : Coord) : CRes :=
  cbind
    (match gen value (world c) with
     | Yield s query_req k => bqm_query query_req (callback k) (set_world s c)
     | Done s file => COk (set_files (files c ++ [file]) (set_world s c))
     | Err s e =>
         match e with
         | SourceFileNotFound file_path =>
             if should_skip_missing_source_file file_path then COk (set_world s c)
             else CErr (set_world s c) e
         | _ => CErr (set_world s c) e
         end
     end)
    (fun c1 =>
       cbind (bqm_flush_if_needed c1)
             (fun c2 => match schedule_queue c2 with
                        | [] => bqm_flush c2
                        | _ :: _ => COk c2
                        end)).

(** How a run of the coordinator ends; [OutOfFuel] is not an outcome of the
    program, only of a bound on the iterations. *)
Inductive RunRes :=
| Finished (c : Coord)
| Failed (c : Coord) (e : Exn)
| OutOfFuel (c : Coord).

Fixpoint schedule_loop (fuel : nat) (c : Coord) : RunRes :=
  match schedule_queue c with
  | [] => Finished c
  | (gen, value) :: rest =>
      match fuel with
      | O => OutOfFuel c
      | S fuel' =>
          match schedule_step gen value (set_schedule_queue rest c) with
          | COk c' => schedule_loop fuel' c'
          | CErr c' e => Failed c' e
          end
      end
  end.

(** A plain (non-generator) method run from the coordinator. *)
Definition call {A} (m : M A) (c : Coord) (k : A -> Coord -> RunRes) : RunRes :=
  match m (world c) with
  | Done s a => k a (set_world s c)
  | Err s e => Failed (set_world s c) e
  | Yield s _ _ => Failed (set_world s c) TypeError
  end.

(** [__create_backup], from the scan result on ([__scan_files] walks the
    disk; its list of entries is an input here). *)
Definition create_backup (fuel : nat) (all_files : list ScanResultEntry)
    (c : Coord) : RunRes :=
  let c := set_world (pre_calculate_stats all_files (world c)) c in
  call (if reuse_stat_unchanged_file config then reuse_unchanged_files all_files
        else ret tt) c (fun _ c =>
  call (if 1 <? get_effective_concurrency config then pre_calculate_hash all_files
        else ret tt) c (fun _ c =>
  let c := set_world (set_blob_store (blob_store_dev env) (does_fs_support_cow env)
                        (world c)) c in
  let c := set_schedule_queue
             ((fun file_entry =>
                 ((fun _ => create_file (entry_path file_entry)) : Generator, None))
              <$> all_files) c in
  schedule_loop fuel c)).

(** [run]: the caches are cleared, the manager is created, and any
    exception applies the blob rollback before it is raised again. *)
Definition run (fuel : nat) (all_files : list ScanResultEntry) (s : State) : RunRes :=
  let s := set_blob_by_hash_cache (fun _ => ∅) (set_blob_by_size_cache (fun _ => ∅) s) in
  match create_backup fuel all_files (new_coord s) with
  | Finished c => Finished c
  | Failed c e => Failed (set_world (apply_blob_rollback (world c)) c) e
  | OutOfFuel c => OutOfFuel c
  end.

End Pipeline.

Arguments tasks {K _ _} f.
Arguments keys {K _ _} f.
Arguments max_batch_size {K _ _} f.
Arguments first_task_scheduled_time {K _ _} f.

(** * Specification vocabulary *)

(** ** The policy decision table

    The table of the specification, first match wins: the rows are the
    final retry, a pre-computed fingerprint, a small file without
    copy-on-write, a large file of a size no blob has, and the rest. *)

(** The rows of the table. *)
Inductive TableRow :=
| row_copy_hash
| row_default_pre (h : Hash)
| row_read_all
| row_hash_once
| row_default_read.

(** The row that applies, first match wins. *)
Definition decision_table (last_chance : bool) (pre_hash : option Hash)
    (can_cow : bool) (sz : Z) (size_exists : bool) : TableRow :=
  if last_chance then row_copy_hash
  else match pre_hash with
       | Some h => row_default_pre h
       | None =>
           if negb can_cow && (sz <=? READ_ALL_SIZE_THRESHOLD) then row_read_all
           else if negb can_cow && (sz >? HASH_ONCE_SIZE_THRESHOLD) && negb size_exists
                then row_hash_once
                else row_default_read
       end.

(** The policy a row names. *)
Definition decision_policy (d : TableRow) : Policy.t :=
  match d with
  | row_copy_hash => Policy.copy_hash
  | row_default_pre _ => Policy.default
  | row_read_all => Policy.read_all
  | row_hash_once => Policy.hash_once
  | row_default_read => Policy.default
  end.

(** What a row of the table entails, run from state [s]: the locals the
    selection ends with, or the exception the one read of the source
    raises. *)
Definition selection_of (env : Env) (src_path : Path) (d : TableRow) (s : State) : Res Locals :=
  match d with
  | row_copy_hash => Done s (mkLocals (Some Policy.copy_hash) None None)
  | row_default_pre h => Done s (mkLocals (Some Policy.default) (Some h) None)
  | row_hash_once => Done s (mkLocals (Some Policy.hash_once) None None)
  | row_read_all =>
      match disk (env_act env s) !! src_path with
      | None => Err (env_act env s) (SourceFileNotFound src_path)
      | Some n =>
          let content := bread (READ_ALL_SIZE_THRESHOLD + 1) (n_data n) in
          if blen content >? READ_ALL_SIZE_THRESHOLD
          then Err (env_act env s) BlobFileChanged
          else Done (env_act env s)
                 (mkLocals (Some Policy.read_all)
                    (Some (calc_bytes_hash env content)) (Some content))
      end
  | row_default_read =>
      match disk (env_act env s) !! src_path with
      | None => Err (env_act env s) (SourceFileNotFound src_path)
      | Some n =>
          Done (env_act env s)
            (mkLocals (Some Policy.default)
               (Some (calc_bytes_hash env (n_data n))) None)
      end
  end.

(** The selection asks the batch query manager for the size exactly when
    the first three rows do not apply, the file is above the hash-once
    threshold and the size cache has no answer. *)
Definition needs_size_lookup (last_chance : bool) (pre_hash : option Hash)
    (can_cow : bool) (sz : Z) (cached : option bool) : bool :=
  negb last_chance
  && bool_decide (pre_hash = None)
  && negb can_cow
  && negb (sz <=? READ_ALL_SIZE_THRESHOLD)
  && (sz >? HASH_ONCE_SIZE_THRESHOLD)
  && bool_decide (cached = None).

(** The row of the decision table for a file of size 0. *)
Definition size_zero_row (last_chance : bool) (pre_hash : option Hash)
    (can_cow : bool) : TableRow :=
  if last_chance then row_copy_hash
  else match pre_hash with
       | Some h => row_default_pre h
       | None => if can_cow then row_default_read else row_read_all
       end.

(** ** Outcomes of a resumable computation *)

(** How a computation ends: it returns or it raises. *)
Inductive Outcome (A : Type) : Type :=
| Returned (s : State) (a : A)
| Raised (s : State) (e : Exn).

Arguments Returned {A} s a.
Arguments Raised {A} s e.

(** [Ends r o]: the computation [r], resumed at each of its requests with
    some value in some state, finishes with outcome [o]. *)
Inductive Ends {A} : Res A -> Outcome A -> Prop :=
| Ends_done s a : Ends (Done s a) (Returned s a)
| Ends_err s e : Ends (Err s e) (Raised s e)
| Ends_yield s q k v s' o : Ends (k v s') o -> Ends (Yield s q k) o.




(** ** A program logic for resumable computations *)

(** [wp I Q E r]: whenever [r] gives up control the state satisfies [I]
    (at a request), [Q] (at its return) or [E] (at a raise), provided every
    resumption happens in a state that satisfies [I]. *)
Inductive wp (I : State -> Prop) {A} (Q : State -> A -> Prop)
    (E : State -> Exn -> Prop) : Res A -> Prop :=
| wp_done s a : Q s a -> wp I Q E (Done s a)
| wp_err s e : E s e -> wp I Q E (Err s e)
| wp_yield s q k :
    I s -> (forall v s', I s' -> wp I Q E (k v s')) -> wp I Q E (Yield s q k).

(** A task keeps [I]: [I] holds wherever the task gives up control, if it
    holds wherever the task is resumed. *)
Definition task_keeps (I : State -> Prop) {A} (r : Res A) : Prop :=
  wp I (fun s _ => I s) (fun s _ => I s) r.

(** [seg R s r]: every stretch that [r] runs without giving up control,
    from the state it is entered or resumed in to the state it yields,
    returns or raises in, is related by [R]. *)
Inductive seg {A} (R : State -> State -> Prop) : State -> Res A -> Prop :=
| seg_done s0 s a : R s0 s -> seg R s0 (Done s a)
| seg_err s0 s e : R s0 s -> seg R s0 (Err s e)
| seg_yield s0 s q k :
    R s0 s -> (forall v s', seg R s' (k v s')) -> seg R s0 (Yield s q k).

(** The blob files on disk, the rollback list and the Blob rows are the
    same in both states. *)
Definition same_store (s s' : State) : Prop :=
  blob_rollbackers s' = blob_rollbackers s /\
  db_blobs s' = db_blobs s /\
  new_blobs s' = new_blobs s /\
  forall h, disk s' !! BlobPath h = disk s !! BlobPath h.

(** ** Blob acquisition with retry *)

(** The retry loop as the specification words it: attempts are numbered
    from 1 to [BLOB_FILE_CHANGED_RETRY_COUNT], the last one is the last
    chance; an attempt that raises [BlobFileChanged] is followed by a
    re-stat of the source and, if one is left, by the next attempt; when
    none is left [VolatileBlobFile] is raised. *)
Inductive blob_acquisition (env : Env) (attempt : stat_result -> bool -> M Blob)
    (src_path : Path) :
    nat -> stat_result -> State -> Outcome (Blob * stat_result) -> Prop :=
| acq_success k st s s' blob :
    (1 <= k <= BLOB_FILE_CHANGED_RETRY_COUNT)%nat ->
    Ends (attempt st (k =? BLOB_FILE_CHANGED_RETRY_COUNT)%nat s) (Returned s' blob) ->
    blob_acquisition env attempt src_path k st s
      (Returned (record_blob_state blob s') (blob, st))
| acq_error k st s s' e :
    (1 <= k <= BLOB_FILE_CHANGED_RETRY_COUNT)%nat ->
    e <> BlobFileChanged ->
    Ends (attempt st (k =? BLOB_FILE_CHANGED_RETRY_COUNT)%nat s) (Raised s' e) ->
    blob_acquisition env attempt src_path k st s (Raised s' e)
| acq_retry k st s s1 s2 st' o :
    (1 <= k < BLOB_FILE_CHANGED_RETRY_COUNT)%nat ->
    Ends (attempt st (k =? BLOB_FILE_CHANGED_RETRY_COUNT)%nat s) (Raised s1 BlobFileChanged) ->
    lstat env src_path s1 = Done s2 st' ->
    blob_acquisition env attempt src_path (S k) st' s2 o ->
    blob_acquisition env attempt src_path k st s o
| acq_restat_failed k st s s1 s2 e :
    (1 <= k <= BLOB_FILE_CHANGED_RETRY_COUNT)%nat ->
    Ends (attempt st (k =? BLOB_FILE_CHANGED_RETRY_COUNT)%nat s) (Raised s1 BlobFileChanged) ->
    lstat env src_path s1 = Err s2 e ->
    blob_acquisition env attempt src_path k st s (Raised s2 e)
| acq_volatile st s s1 s2 st' :
    Ends (attempt st true s) (Raised s1 BlobFileChanged) ->
    lstat env src_path s1 = Done s2 st' ->
    blob_acquisition env attempt src_path BLOB_FILE_CHANGED_RETRY_COUNT st s
      (Raised s2 VolatileBlobFile).

(** ** The batch fetchers and the coordinator *)

(** The key set of a fetcher holds the key of every pending task. *)
Definition fetcher_wf {K} `{Countable K} (f : Fetcher K) : Prop :=
  forall key cb, (key, cb) ∈ tasks f -> key ∈ keys f.

(** The session received the batched query [q] between [c] and [c']. *)
Definition issued (q : DbQuery) (c c' : Coord) : Prop :=
  db_queries (world c') = db_queries (world c) ++ [q].

(** The session received no query between [c] and [c']. *)
Definition not_issued (c c' : Coord) : Prop :=
  db_queries (world c') = db_queries (world c).

(** When [flush_if_needed] runs the batch. *)
Definition flush_needed {K} `{Countable K} (env : Env)
    (get_fetcher : Coord -> Fetcher K) (c : Coord) : Prop :=
  let f := get_fetcher c in
  (0 < length (tasks f))%nat /\
  ((max_batch_size f <= length (tasks f))%nat \/
   (1 # 10 <= time_at env (clock_tick (world c)) - first_task_scheduled_time f)%Q).


(** Both fetchers of a coordinator are well formed. *)
Definition coord_wf (c : Coord) : Prop :=
  fetcher_wf (fetcher_size c) /\ fetcher_wf (fetcher_hash c).

(** The batched query each fetcher sends for its pending keys. *)
Definition size_query_of (c : Coord) : DbQuery :=
  QHasBlobWithSize (elements (keys (fetcher_size c))).

Definition hash_query_of (c : Coord) : DbQuery :=
  QGetBlobs (elements (keys (fetcher_hash c))).

(** A generator keeps [I] however it is resumed. *)
Definition gen_ok (I : State -> Prop) (g : Generator) : Prop :=
  forall v s, I s -> task_keeps I (g v s).

(** Every generator of the deque keeps [I]. *)
Definition queue_ok (I : State -> Prop) (q : Queue) : Prop :=
  Forall (fun gv => gen_ok I (fst gv)) q.

(** A callback puts only such generators on the deque. *)
Definition callback_ok (I : State -> Prop) (cb : Callback) : Prop :=
  forall rsp q, queue_ok I q -> queue_ok I (cb rsp q).

(** Every pending task of a fetcher has such a callback. *)
Definition tasks_ok (I : State -> Prop) {K} `{Countable K} (f : Fetcher K) : Prop :=
  Forall (fun t => callback_ok I (snd t)) (tasks f).

(** What the coordinator keeps: its fetchers are well formed, its state
    satisfies [I], and every task in the deque or behind a callback keeps
    [I]. *)
Definition coord_inv (I : State -> Prop) (c : Coord) : Prop :=
  coord_wf c /\ I (world c) /\ queue_ok I (schedule_queue c) /\
  tasks_ok I (fetcher_size c) /\ tasks_ok I (fetcher_hash c).

(** The state a run ends in, and the exception it raises if it fails. *)
Definition run_res_world (r : RunRes) : State :=
  match r with
  | Finished c | Failed c _ | OutOfFuel c => world c
  end.

Definition run_res_error (r : RunRes) : option Exn :=
  match r with
  | Failed _ e => Some e
  | _ => None
  end.

(** ** The blob store *)

(** Every blob file on disk was there before the run or is in the
    rollback list. *)
Definition rb_inv (B0 : Hash -> Prop) (s : State) : Prop :=
  forall h, is_Some (disk s !! BlobPath h) -> BlobPath h ∈ blob_rollbackers s \/ B0 h.

(** The Blob rows created by the run have distinct fingerprints and are in
    the catalog. *)
Definition db_new_ok (db : gmap Hash Blob) (nb : list Blob) : Prop :=
  NoDup (blob_hash <$> nb) /\ forall b, b ∈ nb -> db !! blob_hash b = Some b.

Definition db_new_inv (s : State) : Prop := db_new_ok (db_blobs s) (new_blobs s).

(** ** Scenarios *)

(** Nobody else writes to the source tree, the clock stands still, the
    fingerprint of a body is the body itself and nothing is compressed. *)
Definition quiet_env : Env :=
  {| time_at := fun _ => 0%Q;
     src_events := fun _ => [];
     HAS_COPY_FILE_RANGE := false;
     does_fs_support_cow := false;
     blob_store_dev := 1;
     temp_on_other_device := false;
     calc_bytes_hash := String.string_of_list_byte;
     compress := fun _ body => body |}.

(** No compression, no reuse, no skipping, one worker. *)
Definition plain_config : Config :=
  {| get_compress_method_from_size := fun _ => plain;
     reuse_stat_unchanged_file := false;
     creation_skip_missing_file := false;
     creation_skip_missing_file_patterns := fun _ => false;
     get_effective_concurrency := 1 |}.

(** The state before a run over the disk [d], with an empty catalog. *)
Definition state_of_disk (d : gmap Path Node) : State :=
  {| disk := d; env_tick := 0; clock_tick := 0;
     stats := ∅; hashes := ∅; reused_files := ∅;
     blob_by_size_cache := ∅; blob_by_hash_cache := ∅;
     blob_store_st_dev := 1; blob_store_in_cow_fs := false;
     blob_rollbackers := []; new_blobs := [];
     db_blobs := ∅; db_last_backup_files := None; db_queries := [] |}.

(** A regular file owned by uid and gid 1000 on device 2. *)
Definition regular_file (mtime_ns : Z) (body : bytes) : Node :=
  {| n_mode := 33188; n_uid := 1000; n_gid := 1000; n_mtime_ns := mtime_ns;
     n_dev := 2; n_data := body |}.

(** A directory, owned alike. *)
Definition directory (mtime_ns : Z) : Node :=
  {| n_mode := 16877; n_uid := 1000; n_gid := 1000; n_mtime_ns := mtime_ns;
     n_dev := 2; n_data := [] |}.

(** The scan entry of the node [n] at the source path [rel]. *)
Definition scan_entry (rel : string) (n : Node) : ScanResultEntry :=
  {| entry_path := SrcPath rel; entry_stat := stat_of n |}.


(** A body of 8193 bytes behind a stat that says 100 bytes. *)
Definition grown_body : bytes := repeat x61 (Z.to_nat 8193).

(** A directory whose mtime lies one nanosecond before the epoch. *)
Definition pre_epoch_state : State :=
  set_stats (fun m => <[SrcPath "old" := stat_of (directory (-1))]> m)
    (state_of_disk {[ SrcPath "old" := directory (-1) ]}).

(** Every reading of the clock is 200 ms after the one before. *)
Definition ticking_env : Env :=
  {| time_at := fun n => (Z.of_nat n # 5)%Q;
     src_events := fun _ => [];
     HAS_COPY_FILE_RANGE := false;
     does_fs_support_cow := false;
     blob_store_dev := 1;
     temp_on_other_device := false;
     calc_bytes_hash := String.string_of_list_byte;
     compress := fun _ body => body |}.


(** A named pipe (mode 0o010644). *)
Definition fifo : Node :=
  {| n_mode := 4516; n_uid := 1000; n_gid := 1000; n_mtime_ns := 0; n_dev := 2;
     n_data := [] |}.

(** A small file followed by a named pipe: the file's blob is written,
    then the pipe aborts the run. *)
Definition pipe_disk : gmap Path Node :=
  {[ SrcPath "a.txt" := regular_file 0 [x68; x69]; SrcPath "pipe" := fifo ]}.

Definition pipe_scan : list ScanResultEntry :=
  [scan_entry "a.txt" (regular_file 0 [x68; x69]); scan_entry "pipe" fifo].

(** The skip-missing feature is on and its patterns match every path. *)
Definition skip_all_config : Config :=
  {| get_compress_method_from_size := fun _ => plain;
     reuse_stat_unchanged_file := false;
     creation_skip_missing_file := true;
     creation_skip_missing_file_patterns := fun _ => true;
     get_effective_concurrency := 1 |}.

(** Somebody deletes "log" right before the third read of the disk. *)
Definition deleting_env : Env :=
  {| time_at := fun _ => 0%Q;
     src_events := fun n => match n with 2%nat => [ev_delete "log"] | _ => [] end;
     HAS_COPY_FILE_RANGE := false;
     does_fs_support_cow := false;
     blob_store_dev := 1;
     temp_on_other_device := false;
     calc_bytes_hash := String.string_of_list_byte;
     compress := fun _ body => body |}.

(** "log" was scanned with 100 bytes and has 8193 bytes by the time it is
    read. *)
Definition log_disk : gmap Path Node :=
  {[ SrcPath "keep.txt" := regular_file 0 [x68; x69];
     SrcPath "log" := regular_file 0 grown_body ]}.

Definition log_scan : list ScanResultEntry :=
  [scan_entry "keep.txt" (regular_file 0 [x68; x69]);
   scan_entry "log" (regular_file 0 (repeat x61 100))].

(** A small regular file scanned before a directory. *)
Definition order_disk : gmap Path Node :=
  {[ SrcPath "a.txt" := regular_file 1700000000123456789 [x68; x69; x0a];
     SrcPath "d" := directory 1700000000000000000 ]}.

Definition order_scan : list ScanResultEntry :=
  [scan_entry "a.txt" (regular_file 1700000000123456789 [x68; x69; x0a]);
   scan_entry "d" (directory 1700000000000000000)].

(** The platform copies with reflinks and the blob store is on a
    copy-on-write file system, on the device of the source. *)
Definition cow_env : Env :=
  {| time_at := fun _ => 0%Q;
     src_events := fun _ => [];
     HAS_COPY_FILE_RANGE := true;
     does_fs_support_cow := true;
     blob_store_dev := 2;
     temp_on_other_device := false;
     calc_bytes_hash := String.string_of_list_byte;
     compress := fun _ body => body |}.

(** Two empty regular files. *)
Definition empty_disk : gmap Path Node :=
  {[ SrcPath "e1" := regular_file 0 []; SrcPath "e2" := regular_file 0 [] ]}.

(** The Blob row of the empty body, under the fingerprint of [quiet_env]. *)
Definition zero_blob : Blob :=
  {| blob_hash := ""; blob_compress := plain; blob_raw_size := 0;
     blob_stored_size := 0 |}.

(** A catalog that already holds the Blob row of the empty body. *)
Definition catalogued_state : State :=
  {| disk := <[BlobPath "" := file_node []]> empty_disk;
     env_tick := 0; clock_tick := 0;
     stats := ∅; hashes := ∅; reused_files := ∅;
     blob_by_size_cache := ∅; blob_by_hash_cache := ∅;
     blob_store_st_dev := 1; blob_store_in_cow_fs := false;
     blob_rollbackers := []; new_blobs := [];
     db_blobs := {[ "" := zero_blob ]}; db_last_backup_files := None;
     db_queries := [] |}.

(** ** Counting the requests of a task *)

(** [wpn I Q E n r]: as [wp I Q E r], and [r] makes at most [n] requests
    before it returns or raises, however it is resumed. *)
Inductive wpn (I : State -> Prop) {A} (Q : State -> A -> Prop)
    (E : State -> Exn -> Prop) : nat -> Res A -> Prop :=
| wpn_done n s a : Q s a -> wpn I Q E n (Done s a)
| wpn_err n s e : E s e -> wpn I Q E n (Err s e)
| wpn_yield n s q k :
    I s -> (forall v s', I s' -> wpn I Q E n (k v s')) ->
    wpn I Q E (S n) (Yield s q k).

(** The File row [f] is the row of the source path [p]. *)
Definition row_of (p : Path) (f : File) : Prop :=
  relative_to_source p = Some (file_path f).

(** A [_SourceFileNotFound] carries the path [p] and no other. *)
Definition own_missing (p : Path) (e : Exn) : Prop :=
  forall p', e = SourceFileNotFound p' -> p' = p.

(** The task of the path [p]: it makes at most [n] requests, a row it
    returns satisfies [Qd p], and a missing source file it reports is
    [p]. *)
Definition task_ok (I : State -> Prop) (Qd : Path -> File -> Prop)
    (p : Path) (n : nat) (r : Res File) : Prop :=
  wpn I (fun s f => I s /\ Qd p f) (fun s e => I s /\ own_missing p e) n r.

(** Every row kept for reuse is filed under its own path. *)
Definition reused_ok (s : State) : Prop :=
  forall p f, reused_files s !! p = Some f -> row_of p f.

(** The requests one attempt makes at most, and those of the loop with
    [n] iterations left at index [i]. *)
Definition attempt_requests (last_chance : bool) : nat :=
  if last_chance then 1%nat else 2%nat.

Fixpoint retry_requests (n i : nat) : nat :=
  match n with
  | O => O
  | S n' =>
      (attempt_requests (i + 1 =? BLOB_FILE_CHANGED_RETRY_COUNT) + retry_requests n' (S i))%nat
  end.

(** The requests the task of one file makes at most. *)
Definition FILE_REQUESTS : nat := retry_requests BLOB_FILE_CHANGED_RETRY_COUNT 0.

(** *** The tasks a coordinator holds

    Each task in the deque or behind a callback of a fetcher is labelled
    with its source path and the requests it may still make; [done] and
    [skipped] are the paths whose task returned a row or was skipped. *)
Record Ledger := {
  l_queue : list (Path * nat);
  l_size : list (Path * nat);
  l_hash : list (Path * nat);
  l_done : list Path;
  l_skipped : list Path;
}.

Definition ledger_pending (G : Ledger) : list (Path * nat) :=
  l_queue G ++ l_size G ++ l_hash G.

Definition ledger_paths (G : Ledger) : list Path :=
  l_done G ++ l_skipped G ++ (fst <$> ledger_pending G).

(** The iterations of the coordinator loop the pending tasks can take. *)
Definition ledger_cost (G : Ledger) : nat :=
  sum_list_with (fun l => S (snd l)) (ledger_pending G).

Definition gen_lab (I : State -> Prop) (Qd : Path -> File -> Prop)
    (l : Path * nat) (g : Generator) : Prop :=
  forall v s, I s -> task_ok I Qd (fst l) (snd l) (g v s).

Definition cb_lab (I : State -> Prop) (Qd : Path -> File -> Prop)
    (l : Path * nat) (cb : Callback) : Prop :=
  forall rsp q, exists g, cb rsp q = (g, Some rsp) :: q /\ gen_lab I Qd l g.

Definition ledger_inv (config : Config) (I : State -> Prop)
    (Qd : Path -> File -> Prop) (c : Coord) (G : Ledger) : Prop :=
  coord_wf c /\ I (world c) /\
  Forall2 (fun gv l => gen_lab I Qd l (fst gv)) (schedule_queue c) (l_queue G) /\
  Forall2 (fun t l => cb_lab I Qd l (snd t)) (tasks (fetcher_size c)) (l_size G) /\
  Forall2 (fun t l => cb_lab I Qd l (snd t)) (tasks (fetcher_hash c)) (l_hash G) /\
  Forall2 Qd (l_done G) (files c) /\
  Forall (fun p => should_skip_missing_source_file config p = true) (l_skipped G).

(** The ledger [G'] holds the tasks of [G], in the deque or behind
    callbacks, and the same finished paths. *)
Definition ledger_same (G G' : Ledger) : Prop :=
  l_done G' = l_done G /\ l_skipped G' = l_skipped G /\
  ledger_pending G' ≡ₚ ledger_pending G.

Definition run_finished (r : RunRes) : bool :=
  match r with Finished _ => true | _ => false end.

(** The row the last backup holds for "a.txt" of [order_disk], and a state
    whose catalog has that backup. *)
Definition kept_row : File :=
  new_file_row "a.txt" (stat_of (regular_file 1700000000123456789 [x68; x69; x0a])) None
    (Some {| blob_hash := "hi"; blob_compress := plain; blob_raw_size := 3;
             blob_stored_size := 3 |}).

Definition reuse_state : State :=
  {| disk := order_disk; env_tick := 0; clock_tick := 0;
     stats := ∅; hashes := ∅; reused_files := ∅;
     blob_by_size_cache := ∅; blob_by_hash_cache := ∅;
     blob_store_st_dev := 1; blob_store_in_cow_fs := false;
     blob_rollbackers := []; new_blobs := [];
     db_blobs := ∅; db_last_backup_files := Some [kept_row]; db_queries := [] |}.

(** Both fetchers hold fewer pending tasks than their batch size. *)
Definition batch_room (c : Coord) : Prop :=
  (length (tasks (fetcher_size c)) < max_batch_size (fetcher_size c))%nat /\
  (length (tasks (fetcher_hash c)) < max_batch_size (fetcher_hash c))%nat.

(** The Blob row of the body "hi", and a state whose hash cache holds it. *)
Definition hi_blob : Blob :=
  {| blob_hash := "hi"; blob_compress := plain; blob_raw_size := 2;
     blob_stored_size := 2 |}.

Definition cached_state : State :=
  set_blob_by_hash_cache (fun _ => {[ "hi" := Some hi_blob ]}) (state_of_disk pipe_disk).

(** A symlink (mode 0o120777) with the given target. *)
Definition symlink (target : bytes) : Node :=
  {| n_mode := 41471; n_uid := 1000; n_gid := 1000; n_mtime_ns := 0; n_dev := 2;
     n_data := target |}.

(** Two scanned symlinks: the target of "good" is well-formed UTF-8, the
    target of "bad" is the single byte 0xff. *)
Definition links_state : State :=
  set_stats (fun _ => {[ SrcPath "good" := stat_of (symlink [x61; xc3; xa9]);
                         SrcPath "bad" := stat_of (symlink [xff]) ]})
    (state_of_disk {[ SrcPath "good" := symlink [x61; xc3; xa9];
                      SrcPath "bad" := symlink [xff] ]}).

(** "log" was scanned with 100 bytes; one read of the disk later it is
    deleted. *)
Definition gone_state : State :=
  set_env_tick 1
    (set_stats (fun _ => {[ SrcPath "log" := stat_of (regular_file 0 (repeat x61 100)) ]})
       (state_of_disk log_disk)).

(** * Properties *)

Arguments env_act : simpl never.
Arguments attempt_select : simpl never.
Arguments attempt_finish : simpl never.
Arguments attempt_write : simpl never.
Arguments attempt_once : simpl never.
Arguments get_or_create_blob : simpl never.
Arguments lstat : simpl never.

(** ** Byte strings *)

Lemma blen_nonneg (b : bytes) : 0 <= blen b.
Proof. unfold blen. lia. Qed.

Lemma blen_bread (n : Z) (b : bytes) :
  0 <= n -> blen (bread n b) = Z.min n (blen b).
Proof.
  intros Hn. unfold blen, bread. rewrite length_take. lia.
Qed.

Lemma blen_nil_iff (b : bytes) : blen b = 0 <-> b = [].
Proof.
  unfold blen. split.
  - destruct b; [done | cbn; lia].
  - by intros ->.
Qed.

(** ** The policy decision table *)

(** A finished selection carries the policy of its row. *)
Lemma selection_of_policy env src_path d s s' loc :
  selection_of env src_path d s = Done s' loc ->
  policy loc = Some (decision_policy d).
Proof.
  destruct d; cbn; try (intros [= <- <-]; reflexivity).
  - destruct (disk _ !! _); [|done].
    destruct (_ >? _); [done|]. by intros [= <- <-].
  - destruct (disk _ !! _); [|done]. by intros [= <- <-].
Qed.

Lemma attempt_select_spec env config src_path st last_chance s :
  let can_cow :=
    can_copy_on_write env (get_compress_method_from_size config (st_size st)) st s in
  let pre_hash := hashes s !! src_path in
  let sz := st_size st in
  let s1 := set_hashes (delete src_path) s in
  if needs_size_lookup last_chance pre_hash can_cow sz (blob_by_size_cache s !! sz)
  then exists k,
    attempt_select env config src_path st last_chance s = Yield s1 (SizeReq sz) k /\
    forall v s',
      k v s' = match blob_by_size_cache s' !! sz with
               | Some ex =>
                   selection_of env src_path (decision_table last_chance pre_hash can_cow sz ex) s'
               | None => Err s' KeyError
               end
  else
    attempt_select env config src_path st last_chance s =
    selection_of env src_path
      (decision_table last_chance pre_hash can_cow sz
         (default true (blob_by_size_cache s !! sz))) s1.
Proof.
  cbn zeta. unfold needs_size_lookup, decision_table, attempt_select.
  destruct last_chance; [reflexivity|].
  cbn. destruct (hashes s !! src_path) as [h|] eqn:Hpre; [reflexivity|].
  cbn. destruct (can_copy_on_write _ _ _ _) eqn:Hcow; cbn.
  { unfold wrap, calc_file_hash, open_rb. cbn.
    change (fold_left apply_event (src_events env (env_tick s)) (disk s))
      with (disk (env_act env (set_hashes (delete src_path) s))).
    destruct (disk _ !! src_path); reflexivity. }
  destruct (st_size st <=? READ_ALL_SIZE_THRESHOLD) eqn:Hsmall; cbn.
  { unfold SourceFileNotFound_open_rb, wrap, open_rb. cbn.
    change (fold_left apply_event (src_events env (env_tick s)) (disk s))
      with (disk (env_act env (set_hashes (delete src_path) s))).
    destruct (disk _ !! src_path); cbn; [|reflexivity].
    destruct (_ >? _); reflexivity. }
  destruct (st_size st >? HASH_ONCE_SIZE_THRESHOLD) eqn:Hbig; cbn.
  2:{ unfold wrap, calc_file_hash, open_rb. cbn.
      change (fold_left apply_event (src_events env (env_tick s)) (disk s))
        with (disk (env_act env (set_hashes (delete src_path) s))).
      destruct (disk _ !! src_path); reflexivity. }
  destruct (blob_by_size_cache s !! st_size st) as [ex|] eqn:Hcache; cbn.
  { destruct ex; cbn; [|reflexivity].
    unfold wrap, calc_file_hash, open_rb. cbn.
    change (fold_left apply_event (src_events env (env_tick s)) (disk s))
      with (disk (env_act env (set_hashes (delete src_path) s))).
    destruct (disk _ !! src_path); reflexivity. }
  eexists. split; [reflexivity|].
  intros v s'. cbn.
  destruct (blob_by_size_cache s' !! st_size st) as [ex|]; cbn; [|reflexivity].
  destruct ex; cbn; [|reflexivity].
  unfold wrap, calc_file_hash, open_rb. cbn.
  change (fold_left apply_event (src_events env (env_tick s')) (disk s'))
    with (disk (env_act env s')).
  destruct (disk _ !! src_path); reflexivity.
Qed.

(** ** Outcomes of a resumable computation *)

Lemma Ends_bind_inv {A B} (r : Res A) (f : A -> M B) o :
  Ends (bind_res r f) o ->
  (exists s a, Ends r (Returned s a) /\ Ends (f a s) o) \/
  (exists s e, Ends r (Raised s e) /\ o = Raised s e).
Proof.
  induction r as [s a|s e|s q k IH]; cbn; intros HE.
  - left. exists s, a. split; [constructor | done].
  - right. inversion HE; subst. exists s, e. split; [constructor | done].
  - inversion HE as [| |? ? ? v s' ? Hk]; subst.
    destruct (IH v s' Hk) as [(s1 & a & H1 & H2)|(s1 & e & H1 & ->)].
    + left. exists s1, a. split; [by econstructor | done].
    + right. exists s1, e. split; [by econstructor | done].
Qed.

Lemma Ends_bind_ret {A B} (r : Res A) (f : A -> M B) s a o :
  Ends r (Returned s a) -> Ends (f a s) o -> Ends (bind_res r f) o.
Proof.
  intros H. remember (Returned s a) as o1 eqn:Ho1.
  induction H as [s0 a0|s0 e0|s0 q k v s' o' Hk IH]; intros Hf; cbn.
  - injection Ho1 as -> ->. done.
  - discriminate.
  - econstructor. by apply IH.
Qed.

Lemma Ends_bind_raise {A B} (r : Res A) (f : A -> M B) s e :
  Ends r (Raised s e) -> Ends (bind_res r f) (Raised s e).
Proof.
  intros H. remember (Raised s e) as o1 eqn:Ho1.
  induction H as [s0 a0|s0 e0|s0 q k v s' o' Hk IH]; cbn.
  - discriminate.
  - injection Ho1 as -> ->. constructor.
  - econstructor. by apply IH.
Qed.

Lemma Ends_catch_inv {A} (r : Res A) (h : Exn -> M A) o :
  Ends (catch_res r h) o ->
  (exists s a, Ends r (Returned s a) /\ o = Returned s a) \/
  (exists s e, Ends r (Raised s e) /\ Ends (h e s) o).
Proof.
  induction r as [s a|s e|s q k IH]; cbn; intros HE.
  - left. inversion HE; subst. exists s, a. split; [constructor | done].
  - right. exists s, e. split; [constructor | done].
  - inversion HE as [| |? ? ? v s' ? Hk]; subst.
    destruct (IH v s' Hk) as [(s1 & a & H1 & ->)|(s1 & e & H1 & H2)].
    + left. exists s1, a. split; [by econstructor | done].
    + right. exists s1, e. split; [by econstructor | done].
Qed.

Lemma Ends_catch_ret {A} (r : Res A) (h : Exn -> M A) s a :
  Ends r (Returned s a) -> Ends (catch_res r h) (Returned s a).
Proof.
  intros H. remember (Returned s a) as o1 eqn:Ho1.
  induction H as [s0 a0|s0 e0|s0 q k v s' o' Hk IH]; cbn.
  - injection Ho1 as -> ->. constructor.
  - discriminate.
  - econstructor. by apply IH.
Qed.

Lemma Ends_catch_raise {A} (r : Res A) (h : Exn -> M A) s e o :
  Ends r (Raised s e) -> Ends (h e s) o -> Ends (catch_res r h) o.
Proof.
  intros H. remember (Raised s e) as o1 eqn:Ho1.
  induction H as [s0 a0|s0 e0|s0 q k v s' o' Hk IH]; intros Hh; cbn.
  - discriminate.
  - injection Ho1 as -> ->. done.
  - econstructor. by apply IH.
Qed.

(** ** A program logic for resumable computations *)

Section Logic.

Variable I : State -> Prop.

Lemma wp_mono {A} (Q Q' : State -> A -> Prop) (E E' : State -> Exn -> Prop) r :
  wp I Q E r ->
  (forall s a, Q s a -> Q' s a) -> (forall s e, E s e -> E' s e) ->
  wp I Q' E' r.
Proof.
  induction 1 as [s a H|s e H|s q k HI Hk IH]; intros HQ HE.
  - constructor. auto.
  - constructor. auto.
  - constructor; [done|]. intros v s' Hs'. by apply IH.
Qed.

Lemma wp_bind {A B} (Q' : State -> A -> Prop) (Q : State -> B -> Prop) E
    (r : Res A) (f : A -> M B) :
  wp I Q' E r ->
  (forall s a, Q' s a -> wp I Q E (f a s)) ->
  wp I Q E (bind_res r f).
Proof.
  induction 1 as [s a H|s e H|s q k HI Hk IH]; intros Hf; cbn.
  - by apply Hf.
  - by constructor.
  - constructor; [done|]. intros v s' Hs'. by apply IH.
Qed.

Lemma wp_catch {A} (Q : State -> A -> Prop) E' E (r : Res A) (h : Exn -> M A) :
  wp I Q E' r ->
  (forall s e, E' s e -> wp I Q E (h e s)) ->
  wp I Q E (catch_res r h).
Proof.
  induction 1 as [s a H|s e H|s q k HI Hk IH]; intros Hh; cbn.
  - by constructor.
  - by apply Hh.
  - constructor; [done|]. intros v s' Hs'. by apply IH.
Qed.

Lemma wp_finally {A} (Q' Q : State -> A -> Prop) E' E (r : Res A) (c : State -> State) :
  wp I Q' E' r ->
  (forall s a, Q' s a -> Q (c s) a) ->
  (forall s e, E' s e -> E (c s) e) ->
  wp I Q E (finally_res r c).
Proof.
  induction 1 as [s a H|s e H|s q k HI Hk IH]; intros HQ HE; cbn.
  - constructor. auto.
  - constructor. auto.
  - constructor; [done|]. intros v s' Hs'. by apply IH.
Qed.

End Logic.

(** With resumptions in arbitrary states, [wp] bounds every outcome. *)
Lemma wp_Ends {A} (Q : State -> A -> Prop) E (r : Res A) o :
  wp (fun _ => True) Q E r -> Ends r o ->
  match o with
  | Returned s a => Q s a
  | Raised s e => E s e
  end.
Proof.
  intros Hwp HE. induction HE as [s a|s e|s q k v s' o Hk IH].
  - by inversion Hwp.
  - by inversion Hwp.
  - inversion Hwp as [| |? ? ? _ Hk']; subst. apply IH. by apply Hk'.
Qed.

(** Symbolic execution of a computation under [wp]. *)
Ltac wp_step :=
  first
    [ apply wp_done
    | apply wp_err
    | apply wp_yield; [ | intros ? ? ?]
    | match goal with
      | |- context [match ?x with _ => _ end] => destruct x eqn:?
      end ].

Ltac wp_run := repeat (wp_step; cbn).

(** ** Blob acquisition with retry *)

Section Acquisition.

Variable env : Env.
Variable attempt : stat_result -> bool -> M Blob.
Variable src_path : Path.

Lemma lstat_cases s :
  (exists n, disk (env_act env s) !! src_path = Some n /\
             lstat env src_path s = Done (env_act env s) (stat_of n)) \/
  (disk (env_act env s) !! src_path = None /\
   lstat env src_path s = Err (env_act env s) (FileNotFoundError src_path)).
Proof.
  unfold lstat. cbn.
  change (fold_left apply_event (src_events env (env_tick s)) (disk s))
    with (disk (env_act env s)).
  destruct (disk (env_act env s) !! src_path) as [n|]; [left; eauto | right; eauto].
Qed.

Lemma retry_loop_unfold n i st :
  retry_loop env attempt src_path (S n) i st =
  catch
    (let* blob := attempt st (i + 1 =? BLOB_FILE_CHANGED_RETRY_COUNT)%nat in
     record_blob blob >> ret (blob, st))
    (fun e => match e with
              | BlobFileChanged =>
                  let* st' := lstat env src_path in
                  retry_loop env attempt src_path n (S i) st'
              | _ => raise e
              end).
Proof. reflexivity. Qed.

(** One iteration of the loop, by the outcome of its attempt. *)
Lemma retry_loop_step n i st s o :
  Ends (retry_loop env attempt src_path (S n) i st s) o <->
  let last := (i + 1 =? BLOB_FILE_CHANGED_RETRY_COUNT)%nat in
  (exists s' blob, Ends (attempt st last s) (Returned s' blob) /\
                   o = Returned (record_blob_state blob s') (blob, st)) \/
  (exists s' e, e <> BlobFileChanged /\ Ends (attempt st last s) (Raised s' e) /\
                o = Raised s' e) \/
  (exists s1, Ends (attempt st last s) (Raised s1 BlobFileChanged) /\
     ((exists s2 e, lstat env src_path s1 = Err s2 e /\ o = Raised s2 e) \/
      (exists s2 st', lstat env src_path s1 = Done s2 st' /\
                      Ends (retry_loop env attempt src_path n (S i) st' s2) o))).
Proof.
  cbn zeta. cbn [retry_loop]. unfold catch, bind. split.
  - intros HE. apply Ends_catch_inv in HE as [(s1 & a & H1 & ->)|(s1 & e & H1 & H2)].
    + apply Ends_bind_inv in H1 as [(s2 & b & H2 & H3)|(s2 & e & H2 & [=])].
      cbn in H3. inversion H3; subst. left. eauto.
    + apply Ends_bind_inv in H1 as [(s2 & b & H3 & H4)|(s2 & e' & H3 & [= <- <-])].
      { cbn in H4. inversion H4. }
      destruct (decide (e = BlobFileChanged)) as [->|Hne].
      * right. right. exists s1. split; [done|].
        destruct (lstat_cases s1) as [(nd & _ & Hl)|(_ & Hl)].
        -- right. do 2 eexists. split; [exact Hl|].
           unfold bind in H2. rewrite Hl in H2. exact H2.
        -- left. do 2 eexists. split; [exact Hl|].
           unfold bind in H2. rewrite Hl in H2. cbn in H2. by inversion H2.
      * right. left. exists s1, e. split; [done|]. split; [done|].
        destruct e; try done; cbn in H2; by inversion H2.
  - intros [(s' & blob & H1 & ->)|[(s' & e & Hne & H1 & ->)|(s1 & H1 & Hr)]].
    + apply Ends_catch_ret. eapply Ends_bind_ret; [exact H1|]. cbn. constructor.
    + eapply Ends_catch_raise; [by apply Ends_bind_raise|].
      destruct e; try done; constructor.
    + eapply Ends_catch_raise; [by apply Ends_bind_raise|].
      unfold bind.
      destruct Hr as [(s2 & e & Hl & ->)|(s2 & st' & Hl & H2)]; rewrite Hl; cbn.
      * constructor.
      * exact H2.
Qed.

Lemma retry_loop_exhausted i st s o :
  Ends (retry_loop env attempt src_path 0 i st s) o <-> o = Raised s VolatileBlobFile.
Proof.
  cbn. split; [by inversion 1 | intros ->; constructor].
Qed.

(** The loop with [n] iterations left, at index [i], is the acquisition
    at attempt number [i + 1]. *)
Lemma retry_loop_acquisition n i st s o :
  (n + i = BLOB_FILE_CHANGED_RETRY_COUNT)%nat -> (1 <= n)%nat ->
  Ends (retry_loop env attempt src_path n i st s) o <->
  blob_acquisition env attempt src_path (S i) st s o.
Proof.
  revert i st s o. induction n as [|n IH]; intros i st s o Hsum Hn; [lia|].
  rewrite retry_loop_step. cbn zeta.
  replace (i + 1)%nat with (S i) by lia.
  split.
  - intros [(s' & blob & H1 & ->)|[(s' & e & Hne & H1 & ->)|(s1 & H1 & Hr)]].
    + apply acq_success; [lia | done].
    + apply acq_error; [lia | done | done].
    + destruct Hr as [(s2 & e & Hl & ->)|(s2 & st' & Hl & H2)].
      * eapply acq_restat_failed; [lia | done | done].
      * destruct n as [|n'].
        -- apply retry_loop_exhausted in H2 as ->.
           replace (S i) with BLOB_FILE_CHANGED_RETRY_COUNT in * by lia.
           eapply acq_volatile; [exact H1 | exact Hl].
        -- eapply acq_retry; [lia | exact H1 | exact Hl |].
           apply IH; [lia | lia | exact H2].
  - intros Hacq. inversion Hacq as
      [k st0 s0 s' blob Hk H1|k st0 s0 s' e Hk Hne H1
      |k st0 s0 s1 s2 st' o0 Hk H1 Hl H2|k st0 s0 s1 s2 e Hk H1 Hl
      |st0 s0 s1 s2 st' H1 Hl]; subst.
    + left. eauto.
    + right. left. eauto.
    + right. right. exists s1. split; [done|]. right. exists s2, st'. split; [done|].
      apply IH; [lia | lia | done].
    + right. right. exists s1. split; [done|]. left. eauto.
    + right. right. exists s1.
      assert (n = 0%nat) as -> by (unfold BLOB_FILE_CHANGED_RETRY_COUNT in *; lia).
      split; [exact H1|].
      right. exists s2, st'. split; [done|]. by apply retry_loop_exhausted.
Qed.

End Acquisition.

(** ** What one segment of a task does to the store *)

Lemma apply_events_other (evs : list SrcEvent) (d : gmap Path Node) (p : Path) :
  relative_to_source p = None ->
  fold_left apply_event evs d !! p = d !! p.
Proof.
  intros Hp. revert d. induction evs as [|ev evs IH]; intros d; [done|].
  cbn. rewrite IH. destruct ev as [rel n|rel]; cbn.
  - apply lookup_insert_ne. by intros <-.
  - apply lookup_delete_ne. by intros <-.
Qed.

Lemma env_act_disk_other env s p :
  relative_to_source p = None ->
  disk (env_act env s) !! p = disk s !! p.
Proof. intros Hp. unfold env_act. cbn. by apply apply_events_other. Qed.

Lemma same_store_refl s : same_store s s.
Proof. by repeat split. Qed.

Lemma same_store_env_act env s s' :
  same_store s s' -> same_store s (env_act env s').
Proof.
  intros (H1 & H2 & H3 & H4). repeat split; try done.
  intros h. rewrite env_act_disk_other; [apply H4 | done].
Qed.

Lemma same_store_pop_hash s src_path :
  same_store s (set_hashes (delete src_path) s).
Proof. by repeat split. Qed.

Lemma selection_of_seg env src_path d s :
  seg same_store s (selection_of env src_path d s).
Proof.
  destruct d; cbn; try (constructor; apply same_store_refl).
  - destruct (disk _ !! _); [destruct (_ >? _)|]; constructor;
      apply same_store_env_act, same_store_refl.
  - destruct (disk _ !! _); constructor; apply same_store_env_act, same_store_refl.
Qed.

(** The selection writes no blob file, adds nothing to the rollback list
    and creates no Blob row. *)
Lemma attempt_select_seg env config src_path st last_chance s :
  seg same_store s (attempt_select env config src_path st last_chance s).
Proof.
  pose proof (attempt_select_spec env config src_path st last_chance s) as H.
  cbn zeta in H. destruct (needs_size_lookup _ _ _ _ _).
  - destruct H as (k & -> & Hk). constructor; [apply same_store_pop_hash|].
    intros v s'. rewrite Hk. destruct (blob_by_size_cache s' !! _).
    + apply selection_of_seg.
    + constructor. apply same_store_refl.
  - rewrite H.
    pose proof (selection_of_seg env src_path
      (decision_table last_chance (hashes s !! src_path)
         (can_copy_on_write env (get_compress_method_from_size config (st_size st)) st s)
         (st_size st) (default true (blob_by_size_cache s !! st_size st)))
      (set_hashes (delete src_path) s)) as Hs.
    revert Hs. generalize (selection_of env src_path
      (decision_table last_chance (hashes s !! src_path)
         (can_copy_on_write env (get_compress_method_from_size config (st_size st)) st s)
         (st_size st) (default true (blob_by_size_cache s !! st_size st)))
      (set_hashes (delete src_path) s)).
    intros r Hs. inversion Hs as [? ? ? HR|? ? ? HR|? ? ? ? HR Hk]; subst.
    + constructor. destruct HR as (?&?&?&?). by repeat split.
    + constructor. destruct HR as (?&?&?&?). by repeat split.
    + constructor; [|done]. destruct HR as (?&?&?&?). by repeat split.
Qed.


(** ** The policy of an attempt and the retry loop *)

(** C1. The blob-creation policy a single attempt chooses is the one the
    decision table gives: copy_hash on the final retry; else default with
    the pre-computed fingerprint of the path when the hashes map holds one;
    else read_all when copy-on-write is unavailable and the size is at most
    8 KiB; else hash_once when copy-on-write is unavailable, the size
    exceeds 10 MiB and no blob of that size exists (asked from the batch
    query manager when the size cache has no answer); else default with
    the fingerprint computed by reading the source once. *)
Theorem C1_policy_matches_decision_table
    (env : Env) (config : Config) (src_path : Path) (st : stat_result)
    (last_chance : bool) (s : State) :
  let can_cow :=
    can_copy_on_write env (get_compress_method_from_size config (st_size st)) st s in
  let pre_hash := hashes s !! src_path in
  let sz := st_size st in
  let s1 := set_hashes (delete src_path) s in
  (if needs_size_lookup last_chance pre_hash can_cow sz (blob_by_size_cache s !! sz)
   then exists k,
     attempt_select env config src_path st last_chance s = Yield s1 (SizeReq sz) k /\
     forall v s',
       k v s' = match blob_by_size_cache s' !! sz with
                | Some ex =>
                    selection_of env src_path
                      (decision_table last_chance pre_hash can_cow sz ex) s'
                | None => Err s' KeyError
                end
   else
     attempt_select env config src_path st last_chance s =
     selection_of env src_path
       (decision_table last_chance pre_hash can_cow sz
          (default true (blob_by_size_cache s !! sz))) s1)
  /\ (forall d s0 s' loc,
        selection_of env src_path d s0 = Done s' loc ->
        policy loc = Some (decision_policy d)).
Proof.
  cbn zeta. split.
  - exact (attempt_select_spec env config src_path st last_chance s).
  - intros d s0 s' loc. apply selection_of_policy.
Qed.









Lemma selection_of_shape env src_path d s s0 loc :
  Ends (selection_of env src_path d s) (Returned s0 loc) ->
  loc = mkLocals (Some Policy.copy_hash) None None \/
  loc = mkLocals (Some Policy.hash_once) None None \/
  (exists h, loc = mkLocals (Some Policy.default) (Some h) None) \/
  (exists content,
     loc = mkLocals (Some Policy.read_all) (Some (calc_bytes_hash env content))
             (Some content)).
Proof.
  destruct d; cbn.
  - inversion 1; subst. by left.
  - inversion 1; subst. right; right; left. by eexists.
  - destruct (disk _ !! _); [|by inversion 1].
    destruct (_ >? _); inversion 1; subst. right; right; right. by eexists.
  - inversion 1; subst. right; by left.
  - destruct (disk _ !! _); inversion 1; subst. right; right; left. by eexists.
Qed.

Lemma attempt_select_shape env config src_path st last_chance s s0 loc :
  Ends (attempt_select env config src_path st last_chance s) (Returned s0 loc) ->
  loc = mkLocals (Some Policy.copy_hash) None None \/
  loc = mkLocals (Some Policy.hash_once) None None \/
  (exists h, loc = mkLocals (Some Policy.default) (Some h) None) \/
  (exists content,
     loc = mkLocals (Some Policy.read_all) (Some (calc_bytes_hash env content))
             (Some content)).
Proof.
  intros HE.
  pose proof (attempt_select_spec env config src_path st last_chance s) as Hspec.
  cbn zeta in Hspec.
  destruct (needs_size_lookup _ _ _ _ _).
  - destruct Hspec as (k & Hk & Hres). rewrite Hk in HE.
    inversion HE as [| |s2 q k2 v s3 o Hend]; subst.
    rewrite Hres in Hend. destruct (blob_by_size_cache s3 !! _); [|inversion Hend].
    by eapply selection_of_shape.
  - rewrite Hspec in HE. by eapply selection_of_shape.
Qed.



(** ** The batch fetchers *)


Lemma batch_answer_lookup {K V} `{Countable K} (f : K -> V) (ks : gset K) (key : K) :
  key ∈ ks ->
  (list_to_map ((fun k => (k, f k)) <$> elements ks) : gmap K V) !! key = Some (f key).
Proof.
  intros Hin. apply elem_of_list_to_map_1'.
  - intros y Hy. apply list_elem_of_fmap in Hy as (k & [= -> ->] & _). done.
  - apply list_elem_of_fmap. exists key. split; [done|]. by apply elem_of_elements.
Qed.

Lemma run_callbacks_total {K V} `{Countable K} (result : gmap K V) mk_rsp
    (l : list (K * Callback)) (q : Queue) :
  (forall key cb, (key, cb) ∈ l -> is_Some (result !! key)) ->
  exists q', run_callbacks result mk_rsp l q = Some q'.
Proof.
  revert q. induction l as [|[key cb] l IH]; intros q Hl; cbn; [eauto|].
  destruct (Hl key cb) as [v ->]; [left|].
  apply IH. intros k' cb' Hin. apply (Hl k' cb'). by right.
Qed.

Lemma size_batch_run_spec c :
  fetcher_wf (fetcher_size c) ->
  exists c', size_batch_run c = COk c' /\
    issued (QHasBlobWithSize (elements (keys (fetcher_size c)))) c c' /\
    tasks (fetcher_size c') = [] /\ keys (fetcher_size c') = ∅ /\
    max_batch_size (fetcher_size c') = max_batch_size (fetcher_size c) /\
    fetcher_hash c' = fetcher_hash c.
Proof.
  intros Hwf. unfold size_batch_run, has_blob_with_size_batched.
  destruct (run_callbacks_total
    (list_to_map ((fun sz => (sz, has_blob_with_size (world c) sz))
                  <$> elements (keys (fetcher_size c))) : gmap Z bool)
    SizeRsp (reverse (tasks (fetcher_size c))) (schedule_queue c)) as [q' Hq].
  { intros key cb Hin. rewrite elem_of_reverse in Hin.
    rewrite (batch_answer_lookup (has_blob_with_size (world c))); [by eexists|].
    by eapply Hwf. }
  rewrite Hq. eexists. split; [reflexivity|]. by repeat split.
Qed.

Lemma hash_batch_run_spec c :
  fetcher_wf (fetcher_hash c) ->
  exists c', hash_batch_run c = COk c' /\
    issued (QGetBlobs (elements (keys (fetcher_hash c)))) c c' /\
    tasks (fetcher_hash c') = [] /\ keys (fetcher_hash c') = ∅ /\
    max_batch_size (fetcher_hash c') = max_batch_size (fetcher_hash c) /\
    fetcher_size c' = fetcher_size c.
Proof.
  intros Hwf. unfold hash_batch_run, get_blobs.
  destruct (run_callbacks_total
    (list_to_map ((fun h => (h, db_blobs (world c) !! h))
                  <$> elements (keys (fetcher_hash c))) : gmap Hash (option Blob))
    HashRsp (reverse (tasks (fetcher_hash c))) (schedule_queue c)) as [q' Hq].
  { intros key cb Hin. rewrite elem_of_reverse in Hin.
    rewrite (batch_answer_lookup (fun h => db_blobs (world c) !! h)); [by eexists|].
    by eapply Hwf. }
  rewrite Hq. eexists. split; [reflexivity|]. by repeat split.
Qed.

Section FetcherFacts.

Context {K : Type} `{Countable K}.
Variable env : Env.
Variable get_fetcher : Coord -> Fetcher K.
Variable batch_run : Coord -> CRes.
Variable query_of : Coord -> DbQuery.
(* what the fetcher leaves alone *)
Variable frame : Coord -> Prop.

Hypothesis get_fetcher_world : forall s c, get_fetcher (set_world s c) = get_fetcher c.
Hypothesis query_of_world : forall s c, query_of (set_world s c) = query_of c.
Hypothesis frame_world : forall s c, frame c -> frame (set_world s c).
Hypothesis batch_run_spec : forall c,
  fetcher_wf (get_fetcher c) ->
  exists c', batch_run c = COk c' /\ issued (query_of c) c c' /\
    tasks (get_fetcher c') = [] /\ keys (get_fetcher c') = ∅ /\
    max_batch_size (get_fetcher c') = max_batch_size (get_fetcher c) /\
    (frame c -> frame c').

Lemma fetcher_wf_cleared (f : Fetcher K) : tasks f = [] -> fetcher_wf f.
Proof. intros Ht key cb. rewrite Ht. by intros ?%elem_of_nil. Qed.

Lemma flush_if_needed_spec c :
  fetcher_wf (get_fetcher c) ->
  exists c', flush_if_needed env get_fetcher batch_run c = COk c' /\
    (flush_needed env get_fetcher c ->
       issued (query_of c) c c' /\
       tasks (get_fetcher c') = [] /\ keys (get_fetcher c') = ∅) /\
    (~ flush_needed env get_fetcher c -> not_issued c c' /\ get_fetcher c' = get_fetcher c) /\
    fetcher_wf (get_fetcher c') /\
    max_batch_size (get_fetcher c') = max_batch_size (get_fetcher c) /\
    (frame c -> frame c').
Proof.
  intros Hwf. unfold flush_if_needed, flush_needed. cbn zeta.
  destruct (Nat.ltb_spec 0 (length (tasks (get_fetcher c)))) as [Hpos|Hzero].
  - destruct (Nat.leb_spec (max_batch_size (get_fetcher c))
                (length (tasks (get_fetcher c)))) as [Hfull|Hroom].
    + destruct (batch_run_spec c Hwf) as (c' & -> & Hi & Ht & Hk & Hm & Hf).
      exists c'. split; [done|]. split; [done|].
      split; [intros Hn; exfalso; apply Hn; auto|].
      split; [by apply fetcher_wf_cleared|]. done.
    + cbn. destruct (Qle_bool _ _) eqn:Hq.
      * destruct (batch_run_spec
          (set_world (set_clock_tick (S (clock_tick (world c))) (world c)) c))
          as (c' & -> & Hi & Ht & Hk & Hm & Hf).
        { by rewrite get_fetcher_world. }
        exists c'. split; [done|]. rewrite query_of_world in Hi.
        split; [done|].
        split; [intros Hn; exfalso; apply Hn; split; [done|]; right;
                by apply Qle_bool_iff|].
        split; [by apply fetcher_wf_cleared|].
        rewrite get_fetcher_world in Hm. split; [done|]. auto.
      * eexists. split; [reflexivity|]. split.
        -- intros [_ [Hfull|Hlate]]; [lia|].
           apply Qle_bool_iff in Hlate. congruence.
        -- rewrite get_fetcher_world. repeat split; auto.
  - eexists. split; [reflexivity|]. split; [intros [? _]; lia|]. repeat split; auto.
Qed.

Lemma flush_spec c :
  fetcher_wf (get_fetcher c) ->
  exists c', flush get_fetcher batch_run c = COk c' /\
    ((0 < length (tasks (get_fetcher c)))%nat ->
       issued (query_of c) c c' /\ keys (get_fetcher c') = ∅) /\
    (~ (0 < length (tasks (get_fetcher c)))%nat -> c' = c) /\
    tasks (get_fetcher c') = [] /\
    (frame c -> frame c').
Proof.
  intros Hwf. unfold flush.
  destruct (Nat.ltb_spec 0 (length (tasks (get_fetcher c)))) as [Hpos|Hzero].
  - destruct (batch_run_spec c Hwf) as (c' & -> & Hi & Ht & Hk & Hm & Hf).
    exists c'. split; [done|]. split; [done|]. split; [intros Hn; lia|]. done.
  - eexists. split; [reflexivity|]. split; [lia|]. split; [done|].
    split; [|done]. destruct (tasks (get_fetcher c)); [done | cbn in Hzero; lia].
Qed.

End FetcherFacts.

Lemma size_batch_run_frame (P : Fetcher Hash -> Prop) c :
  fetcher_wf (fetcher_size c) ->
  exists c', size_batch_run c = COk c' /\ issued (size_query_of c) c c' /\
    tasks (fetcher_size c') = [] /\ keys (fetcher_size c') = ∅ /\
    max_batch_size (fetcher_size c') = max_batch_size (fetcher_size c) /\
    (P (fetcher_hash c) -> P (fetcher_hash c')).
Proof.
  intros Hwf. destruct (size_batch_run_spec c Hwf) as (c' & ? & ? & ? & ? & ? & Hh).
  exists c'. rewrite Hh. by repeat split.
Qed.

Lemma hash_batch_run_frame (P : Fetcher Z -> Prop) c :
  fetcher_wf (fetcher_hash c) ->
  exists c', hash_batch_run c = COk c' /\ issued (hash_query_of c) c c' /\
    tasks (fetcher_hash c') = [] /\ keys (fetcher_hash c') = ∅ /\
    max_batch_size (fetcher_hash c') = max_batch_size (fetcher_hash c) /\
    (P (fetcher_size c) -> P (fetcher_size c')).
Proof.
  intros Hwf. destruct (hash_batch_run_spec c Hwf) as (c' & ? & ? & ? & ? & ? & Hh).
  exists c'. rewrite Hh. by repeat split.
Qed.

(** After [BatchQueryManager.flush] no fetcher has a pending task. *)
Lemma bqm_flush_spec c :
  coord_wf c ->
  exists c', bqm_flush c = COk c' /\
    tasks (fetcher_size c') = [] /\ tasks (fetcher_hash c') = [] /\ coord_wf c'.
Proof.
  intros [Hs Hh]. unfold bqm_flush.
  destruct (flush_spec fetcher_size size_batch_run size_query_of
              (fun c => fetcher_wf (fetcher_hash c))
              (size_batch_run_frame fetcher_wf) c Hs)
    as (c1 & -> & _ & _ & Ht1 & Hf1).
  cbn [cbind].
  destruct (flush_spec fetcher_hash hash_batch_run hash_query_of
              (fun c => tasks (fetcher_size c) = [])
              (hash_batch_run_frame (fun f => tasks f = [])) c1 (Hf1 Hh))
    as (c2 & -> & _ & _ & Ht2 & Hf2).
  exists c2. split; [done|]. split; [auto|]. split; [done|].
  split; apply fetcher_wf_cleared; auto.
Qed.

Lemma bqm_flush_if_needed_wf env c :
  coord_wf c -> exists c', bqm_flush_if_needed env c = COk c' /\ coord_wf c'.
Proof.
  intros [Hs Hh]. unfold bqm_flush_if_needed.
  destruct (flush_if_needed_spec env fetcher_size size_batch_run size_query_of
              (fun c => fetcher_wf (fetcher_hash c))
              (fun _ _ => eq_refl) (fun _ _ => eq_refl) (fun _ _ H => H)
              (size_batch_run_frame fetcher_wf) c Hs)
    as (c1 & -> & _ & _ & Hw1 & _ & Hf1).
  cbn [cbind].
  destruct (flush_if_needed_spec env fetcher_hash hash_batch_run hash_query_of
              (fun c => fetcher_wf (fetcher_size c))
              (fun _ _ => eq_refl) (fun _ _ => eq_refl) (fun _ _ H => H)
              (hash_batch_run_frame fetcher_wf) c1 (Hf1 Hh))
    as (c2 & -> & _ & _ & Hw2 & _ & Hf2).
  exists c2. split; [done|]. split; auto.
Qed.

Section QueryFacts.

Context {K : Type} `{Countable K}.
Variable env : Env.
Variable get_fetcher : Coord -> Fetcher K.
Variable set_fetcher : Fetcher K -> Coord -> Coord.
Variable batch_run : Coord -> CRes.
Variable query_of : Coord -> DbQuery.
Variable frame : Coord -> Prop.

Hypothesis get_fetcher_world : forall s c, get_fetcher (set_world s c) = get_fetcher c.
Hypothesis query_of_world : forall s c, query_of (set_world s c) = query_of c.
Hypothesis frame_world : forall s c, frame c -> frame (set_world s c).
Hypothesis get_set_fetcher : forall f c, get_fetcher (set_fetcher f c) = f.
Hypothesis frame_set_fetcher : forall f c, frame c -> frame (set_fetcher f c).
Hypothesis batch_run_spec : forall c,
  fetcher_wf (get_fetcher c) ->
  exists c', batch_run c = COk c' /\ issued (query_of c) c c' /\
    tasks (get_fetcher c') = [] /\ keys (get_fetcher c') = ∅ /\
    max_batch_size (get_fetcher c') = max_batch_size (get_fetcher c) /\
    (frame c -> frame c').

(** [query] never fails, and keeps the fetchers well formed. *)
Lemma fetcher_query_wf key callback c :
  fetcher_wf (get_fetcher c) ->
  exists c', fetcher_query env get_fetcher set_fetcher batch_run key callback c = COk c' /\
    fetcher_wf (get_fetcher c') /\ (frame c -> frame c').
Proof.
  intros Hwf. unfold fetcher_query, post_query. cbn [time_time].
  rewrite get_fetcher_world, get_set_fetcher. cbn [tasks keys max_batch_size].
  set (f1 := {| tasks := tasks (get_fetcher c) ++ [(key, callback)];
                keys := {[key]} ∪ keys (get_fetcher c);
                max_batch_size := max_batch_size (get_fetcher c);
                first_task_scheduled_time := first_task_scheduled_time (get_fetcher c) |}).
  assert (Hwf1 : fetcher_wf f1).
  { intros k cb Hin. cbn in *. apply elem_of_app in Hin as [Hin|Hin].
    - apply elem_of_union_r. by eapply Hwf.
    - apply list_elem_of_singleton in Hin as [= -> ->]. apply elem_of_union_l.
      by apply elem_of_singleton. }
  match goal with
  | |- exists c', flush_if_needed _ _ _ ?c2 = _ /\ _ =>
      assert (Hc2 : fetcher_wf (get_fetcher c2) /\ (frame c -> frame c2))
  end.
  { destruct (length _ =? 1)%nat.
    - rewrite get_set_fetcher. split; [exact Hwf1|].
      intros Hf. by apply frame_set_fetcher, frame_world, frame_set_fetcher.
    - rewrite get_fetcher_world, get_set_fetcher. split; [exact Hwf1|].
      intros Hf. by apply frame_world, frame_set_fetcher. }
  destruct Hc2 as [Hw2 Hf2].
  match goal with
  | |- exists c', flush_if_needed _ _ _ ?c2 = _ /\ _ =>
      destruct (flush_if_needed_spec env get_fetcher batch_run query_of frame
                  get_fetcher_world query_of_world frame_world batch_run_spec c2 Hw2)
        as (c' & Hc' & _ & _ & Hw' & _ & Hf')
  end.
  exists c'. split; [exact Hc'|]. split; [exact Hw'|]. auto.
Qed.

End QueryFacts.

Lemma bqm_query_wf env query callback c :
  coord_wf c -> exists c', bqm_query env query callback c = COk c' /\ coord_wf c'.
Proof.
  intros [Hs Hh]. destruct query as [size|h]; cbn [bqm_query].
  - destruct (fetcher_query_wf env fetcher_size set_fetcher_size size_batch_run
                size_query_of (fun c => fetcher_wf (fetcher_hash c))
                (fun _ _ => eq_refl) (fun _ _ => eq_refl) (fun _ _ H => H)
                (fun _ _ => eq_refl) (fun _ _ H => H)
                (size_batch_run_frame fetcher_wf) size callback c Hs)
      as (c' & -> & Hw & Hf).
    exists c'. split; [done|]. split; auto.
  - destruct (fetcher_query_wf env fetcher_hash set_fetcher_hash hash_batch_run
                hash_query_of (fun c => fetcher_wf (fetcher_size c))
                (fun _ _ => eq_refl) (fun _ _ => eq_refl) (fun _ _ H => H)
                (fun _ _ => eq_refl) (fun _ _ H => H)
                (hash_batch_run_frame fetcher_wf) h callback c Hh)
      as (c' & -> & Hw & Hf).
    exists c'. split; [done|]. split; auto.
Qed.

(** A step of the coordinator keeps the fetchers well formed, and leaves
    no task waiting in a fetcher when the deque is empty. *)
Lemma schedule_step_wf env config gen value c c' :
  coord_wf c ->
  schedule_step env config gen value c = COk c' ->
  coord_wf c' /\
  (schedule_queue c' = [] ->
   tasks (fetcher_size c') = [] /\ tasks (fetcher_hash c') = []).
Proof.
  intros Hwf. unfold schedule_step.
  match goal with
  | |- cbind ?r _ = _ -> _ =>
      assert (H1 : forall c1, r = COk c1 -> coord_wf c1); [|destruct r as [c1|]; [|done]]
  end.
  { intros c1. destruct (gen value (world c)) as [s f|s e|s q k].
    - intros [= <-]. exact Hwf.
    - destruct e; try done.
      destruct (should_skip_missing_source_file _ _); [|done]. intros [= <-]. exact Hwf.
    - destruct (bqm_query_wf env q (callback k) (set_world s c) Hwf) as (c2 & -> & Hw2).
      by intros [= <-]. }
  specialize (H1 c1 eq_refl). cbn [cbind].
  destruct (bqm_flush_if_needed_wf env c1 H1) as (c2 & -> & Hw2). cbn [cbind].
  destruct (schedule_queue c2) as [|x q] eqn:Hq.
  - destruct (bqm_flush_spec c2 Hw2) as (c3 & -> & Ht1 & Ht2 & Hw3).
    intros [= <-]. auto.
  - intros [= <-]. split; [done|]. by rewrite Hq.
Qed.


Section QueryTime.

Context {K : Type} `{Countable K}.
Variable env : Env.
Variable get_fetcher : Coord -> Fetcher K.
Variable set_fetcher : Fetcher K -> Coord -> Coord.
Variable batch_run : Coord -> CRes.
(* what the fetcher leaves alone *)
Variable frame : Coord -> Prop.

Hypothesis frame_world : forall s c, frame c -> frame (set_world s c).
Hypothesis frame_set_fetcher : forall f c, frame c -> frame (set_fetcher f c).
Hypothesis get_fetcher_world : forall s c, get_fetcher (set_world s c) = get_fetcher c.
Hypothesis get_set_fetcher : forall f c, get_fetcher (set_fetcher f c) = f.
Hypothesis world_set_fetcher : forall f c, world (set_fetcher f c) = world c.



End QueryTime.





(** C5. An attempt that knows the fingerprint before writing (it left the
    selection with a blob hash, which only read_all and default do) first
    looks the fingerprint up in blob_by_hash: a row found there is
    returned at once, in the unchanged state.  Otherwise (the key is
    absent, or bound to None by an earlier batch answer) the attempt
    suspends with a hash-batch request in the unchanged state; resumed, it
    looks the fingerprint up again in the cache as it is then and returns
    the row it finds, in the state of the resumption, or else goes on to
    the write.  So a row found by either check is returned with no blob
    file written and nothing added to the rollback list; the selection
    before it writes nothing either. *)
Theorem C5_dedup_short_circuit
    (env : Env) (config : Config) (src_path : Path) (st : stat_result)
    (last_chance can_cow : bool) (loc : Locals) (h : Hash) (s : State) :
  l_blob_hash loc = Some h ->
  policy loc <> Some Policy.hash_once ->
  (forall s0,
     attempt_once env config src_path st last_chance s0 =
     bind_res (attempt_select env config src_path st last_chance s0)
       (attempt_finish env config src_path st last_chance
          (can_copy_on_write env
             (get_compress_method_from_size config (st_size st)) st s0))) /\
  (forall s0, seg same_store s0 (attempt_select env config src_path st last_chance s0)) /\
  (forall s0 s1 loc',
     Ends (attempt_select env config src_path st last_chance s0) (Returned s1 loc') ->
     match l_blob_hash loc' with
     | Some _ => policy loc' = Some Policy.read_all \/ policy loc' = Some Policy.default
     | None => policy loc' = Some Policy.copy_hash \/ policy loc' = Some Policy.hash_once
     end) /\
  (forall cache,
     blob_by_hash_cache s !! h = Some (Some cache) ->
     attempt_finish env config src_path st last_chance can_cow loc s = Done s cache) /\
  (blob_by_hash_cache s !! h = None \/ blob_by_hash_cache s !! h = Some None ->
   exists k,
     attempt_finish env config src_path st last_chance can_cow loc s
     = Yield s (HashReq h) k /\
     (forall v s' cache,
        blob_by_hash_cache s' !! h = Some (Some cache) -> k v s' = Done s' cache) /\
     (forall v s',
        blob_by_hash_cache s' !! h = None \/ blob_by_hash_cache s' !! h = Some None ->
        k v s' = attempt_write env config src_path st last_chance can_cow loc s')).
Proof.
  intros Hh Hp. split; [reflexivity|]. split; [intros s0; apply attempt_select_seg|].
  split.
  { intros s0 s1 loc' HE.
    destruct (attempt_select_shape _ _ _ _ _ _ _ _ HE)
      as [->|[->|[[h' ->]|[content ->]]]]; cbn; auto. }
  unfold attempt_finish, attempt_dedup, dedup_by_hash. rewrite Hh.
  rewrite bool_decide_true by done. cbn. unfold hash_cache_get. split.
  - intros cache Hc. rewrite Hc. reflexivity.
  - intros Hmiss.
    assert (mjoin (blob_by_hash_cache s !! h) = None) as ->
      by (by destruct Hmiss as [-> | ->]).
    cbn. eexists. split; [reflexivity|]. split.
    + intros v s' cache Hc. cbn. rewrite Hc. reflexivity.
    + intros v s' Hm. cbn.
      assert (mjoin (blob_by_hash_cache s' !! h) = None) as ->
        by (by destruct Hm as [-> | ->]).
      reflexivity.
Qed.

(** C5 at a small file: with its fingerprint in the cache the rest of the
    attempt returns the cached row at once; with an empty cache it
    suspends with the hash request and, resumed with the row in the cache,
    returns it. *)
Lemma C5_dedup_short_circuit_witness :
  attempt_finish quiet_env plain_config (SrcPath "a.txt")
    (stat_of (regular_file 0 [x68; x69])) false false
    (mkLocals (Some Policy.read_all) (Some "hi") (Some [x68; x69])) cached_state
  = Done cached_state hi_blob /\
  exists k,
    attempt_finish quiet_env plain_config (SrcPath "a.txt")
      (stat_of (regular_file 0 [x68; x69])) false false
      (mkLocals (Some Policy.read_all) (Some "hi") (Some [x68; x69]))
      (state_of_disk ∅)
    = Yield (state_of_disk ∅) (HashReq "hi") k /\
    k None cached_state = Done cached_state hi_blob.
Proof.
  split.
  - destruct (C5_dedup_short_circuit quiet_env plain_config (SrcPath "a.txt")
                (stat_of (regular_file 0 [x68; x69])) false false
                (mkLocals (Some Policy.read_all) (Some "hi") (Some [x68; x69]))
                "hi" cached_state eq_refl ltac:(discriminate))
      as (_ & _ & _ & Hhit & _).
    exact (Hhit hi_blob eq_refl).
  - destruct (C5_dedup_short_circuit quiet_env plain_config (SrcPath "a.txt")
                (stat_of (regular_file 0 [x68; x69])) false false
                (mkLocals (Some Policy.read_all) (Some "hi") (Some [x68; x69]))
                "hi" (state_of_disk ∅) eq_refl ltac:(discriminate))
      as (_ & _ & _ & _ & Hmiss).
    destruct (Hmiss (or_introl eq_refl)) as (k & Hk & Hhit & _).
    exists k. split; [exact Hk|]. exact (Hhit None cached_state hi_blob eq_refl).
Defined.

(** C9. Under read_all the attempt reads at most READ_ALL_THRESHOLD + 1
    bytes; when the body on disk has more than READ_ALL_THRESHOLD bytes
    (it grew after the stat) the attempt raises BlobFileChanged without
    having written anything, and the retry loop re-stats the source and
    goes on with the next attempt; otherwise the bytes read are the whole
    body. *)
Theorem C9_read_all_oversized_raises
    (env : Env) (config : Config) (src_path : Path) (st : stat_result)
    (s : State) (n : Node) :
  hashes s !! src_path = None ->
  can_copy_on_write env (get_compress_method_from_size config (st_size st)) st s = false ->
  st_size st <= READ_ALL_SIZE_THRESHOLD ->
  disk (env_act env (set_hashes (delete src_path) s)) !! src_path = Some n ->
  let s1 := env_act env (set_hashes (delete src_path) s) in
  let content := bread (READ_ALL_SIZE_THRESHOLD + 1) (n_data n) in
  blen content <= READ_ALL_SIZE_THRESHOLD + 1 /\
  same_store s s1 /\
  (READ_ALL_SIZE_THRESHOLD < blen (n_data n) ->
     attempt_once env config src_path st false s = Err s1 BlobFileChanged /\
     get_or_create_blob env config src_path st s =
     bind_res (lstat env src_path s1)
       (retry_loop env (attempt_once env config src_path) src_path 2 1)) /\
  (blen (n_data n) <= READ_ALL_SIZE_THRESHOLD ->
     content = n_data n /\
     attempt_select env config src_path st false s =
     Done s1 (mkLocals (Some Policy.read_all)
                (Some (calc_bytes_hash env content)) (Some content))).
Proof.
  intros Hpre Hcow Hsmall Hdisk. cbn zeta.
  assert (Hsel := attempt_select_spec env config src_path st false s).
  cbn zeta in Hsel. unfold needs_size_lookup, decision_table in Hsel.
  rewrite Hpre, Hcow in Hsel.
  destruct (Z.leb_spec (st_size st) READ_ALL_SIZE_THRESHOLD) as [_|]; [|lia].
  cbn in Hsel. rewrite Hdisk in Hsel.
  pose proof (blen_nonneg (n_data n)) as Hnn.
  assert (Hlen : blen (bread (READ_ALL_SIZE_THRESHOLD + 1) (n_data n))
                 = Z.min (READ_ALL_SIZE_THRESHOLD + 1) (blen (n_data n))).
  { apply blen_bread. unfold READ_ALL_SIZE_THRESHOLD. lia. }
  split; [lia|].
  split; [apply same_store_env_act, same_store_pop_hash|].
  split.
  - intros Hbig.
    destruct (Z.gtb_spec (blen (bread (READ_ALL_SIZE_THRESHOLD + 1) (n_data n)))
                READ_ALL_SIZE_THRESHOLD) as [_|]; [|lia].
    assert (Hatt : attempt_once env config src_path st false s =
                   Err (env_act env (set_hashes (delete src_path) s)) BlobFileChanged).
    { unfold attempt_once, bind, get_state. cbn [bind_res]. by rewrite Hsel. }
    split; [exact Hatt|].
    unfold get_or_create_blob, BLOB_FILE_CHANGED_RETRY_COUNT.
    rewrite retry_loop_unfold. unfold catch, bind.
    change (0 + 1 =? BLOB_FILE_CHANGED_RETRY_COUNT)%nat with false.
    by rewrite Hatt.
  - intros Hfit.
    destruct (Z.gtb_spec (blen (bread (READ_ALL_SIZE_THRESHOLD + 1) (n_data n)))
                READ_ALL_SIZE_THRESHOLD) as [|_]; [lia|].
    split; [|exact Hsel].
    unfold bread. apply take_ge. unfold blen in Hfit. lia.
Qed.

(** C9 at a file that grew to 8193 bytes after its stat of 100 bytes. *)
Lemma C9_read_all_oversized_raises_witness :
  attempt_once quiet_env plain_config (SrcPath "log")
    (stat_of (regular_file 0 (repeat x61 100)))
    false (state_of_disk {[ SrcPath "log" := regular_file 0 grown_body ]})
  = Err (env_act quiet_env
           (set_hashes (delete (SrcPath "log"))
              (state_of_disk {[ SrcPath "log" := regular_file 0 grown_body ]})))
        BlobFileChanged.
Proof.
  refine (proj1 (proj1 (proj2 (proj2
    (C9_read_all_oversized_raises quiet_env plain_config (SrcPath "log")
       (stat_of (regular_file 0 (repeat x61 100)))
       (state_of_disk {[ SrcPath "log" := regular_file 0 grown_body ]})
       (regular_file 0 grown_body) _ _ _ _))) _)).
  - reflexivity.
  - reflexivity.
  - by vm_compute.
  - by vm_compute.
  - by vm_compute.
Defined.

(** ** File rows and the reuse key *)

Arguments create_file : simpl never.

(** The row [__create_file] returns for a path that is not reused and whose
    stat is in the pre-calculated table: for a regular file it is built
    from the stat that blob acquisition returns, else from the table's. *)
Lemma create_file_row env config path rel st s s' f :
  relative_to_source path = Some rel ->
  reused_files s !! path = None ->
  stats s !! path = Some st ->
  Ends (create_file env config path s) (Returned s' f) ->
  if S_ISREG (st_mode st) then
    exists blob st',
      Ends (get_or_create_blob env config path st (set_stats (delete path) s))
           (Returned s' (blob, st')) /\
      f = new_file_row rel st' None (Some blob)
  else exists content, f = new_file_row rel st content None.
Proof.
  intros Hrel Hreuse Hst. unfold create_file, bind, get_state, pop_stat.
  cbn. rewrite Hreuse, Hst. cbn.
  unfold file_path_to_db_path. rewrite Hrel.
  destruct (S_ISREG (st_mode st)).
  - intros HE. apply Ends_bind_inv in HE as [(s1 & x & H1 & H2)|(s1 & e & _ & [=])].
    apply Ends_bind_inv in H1 as [(s2 & [blob st'] & H3 & H4)|(s2 & e & _ & [=])].
    cbn in H4. inversion H4; subst. cbn in H2. inversion H2; subst.
    exists blob, st'. by split.
  - destruct (S_ISDIR (st_mode st)).
    + cbn. inversion 1; subst. by eexists.
    + destruct (S_ISLNK (st_mode st)); [|cbn; inversion 1].
      intros HE. apply Ends_bind_inv in HE as [(s1 & x & H1 & H2)|(s1 & e & _ & [=])].
      apply Ends_bind_inv in H1 as [(s2 & target & H3 & H4)|(s2 & e & _ & [=])].
      cbn in H4. inversion H4; subst. cbn in H2. inversion H2; subst. by eexists.
Qed.

Lemma create_file_reused env config path reused_file s s' f :
  reused_files s !! path = Some reused_file ->
  Ends (create_file env config path s) (Returned s' f) ->
  f = copy_file_row reused_file.
Proof.
  intros Hreuse. unfold create_file, bind, get_state. cbn. rewrite Hreuse. cbn.
  by inversion 1.
Qed.

Lemma stat_to_files_of_key backup_files acc key file :
  (forall k f, (k, f) ∈ acc -> k = stat_key_of_file f) ->
  (key, file) ∈ fold_left
     (fun acc file =>
        if S_ISREG (file_mode file) then (stat_key_of_file file, file) :: acc else acc)
     backup_files acc ->
  key = stat_key_of_file file.
Proof.
  revert acc. induction backup_files as [|x l IH]; intros acc Hacc; cbn; [by apply Hacc|].
  apply IH. destruct (S_ISREG (file_mode x)); [|done].
  intros k f [[= -> ->]|Hin]%elem_of_cons; [done | by apply Hacc].
Qed.

Lemma stat_to_files_get_key backup_files key file :
  stat_to_files_get (stat_to_files_of backup_files) key = Some file ->
  key = stat_key_of_file file.
Proof.
  unfold stat_to_files_get, stat_to_files_of. intros Hget.
  destruct (list_find _ _) as [[i [k f]]|] eqn:Hfind; [|done].
  cbn in Hget. injection Hget as ->.
  apply list_find_Some in Hfind as (Hi & Hk & _). cbn in Hk. subst k.
  eapply stat_to_files_of_key; [|by eapply list_elem_of_lookup_2].
  by intros ? ? ?%elem_of_nil.
Qed.

(** C6, as stated, fails before the epoch: for st_mtime_ns = -1 the row
    stores -1, while the truncating division of -1 by 1000 is 0. *)
Lemma C6_truncation_counterexample :
  exists s' f,
    create_file quiet_env plain_config (SrcPath "old") pre_epoch_state = Done s' f /\
    file_mtime f = -1 /\
    file_mtime f <> Z.quot (st_mtime_ns (stat_of (directory (-1)))) 1000.
Proof.
  eexists _, _. split; [vm_compute; reflexivity|]. split; [reflexivity | by vm_compute].
Qed.

(** C6 (amended). The mtime of every File row built from a stat is
    st_mtime_ns divided by 1000 with Python's floor division (rounding
    toward minus infinity, which is the truncating division when
    st_mtime_ns is not negative); the row of a scanned path is built from
    the stat of the pre-calculated table or, for a regular file, from the
    stat blob acquisition returns; the reuse key uses the same division,
    so the row of an unchanged stat gives an equal mtime key, and a reused
    row carries the mtime of the key that matched. *)
Theorem C6_mtime_floor_division (env : Env) (config : Config) :
  (forall db_path st content blob,
     file_mtime (new_file_row db_path st content blob) = st_mtime_ns st / 1000) /\
  (forall path rel st s s' f,
     relative_to_source path = Some rel ->
     reused_files s !! path = None ->
     stats s !! path = Some st ->
     Ends (create_file env config path s) (Returned s' f) ->
     if S_ISREG (st_mode st) then
       exists blob st',
         Ends (get_or_create_blob env config path st (set_stats (delete path) s))
              (Returned s' (blob, st')) /\
         file_mtime f = st_mtime_ns st' / 1000
     else file_mtime f = st_mtime_ns st / 1000) /\
  (forall db_path st,
     key_mtime_us (stat_key_of_entry db_path st) = st_mtime_ns st / 1000) /\
  (forall db_path st content blob,
     key_mtime_us (stat_key_of_file (new_file_row db_path st content blob)) =
     key_mtime_us (stat_key_of_entry db_path st)) /\
  (forall backup_files key file path s s' f,
     stat_to_files_get (stat_to_files_of backup_files) key = Some file ->
     reused_files s !! path = Some file ->
     Ends (create_file env config path s) (Returned s' f) ->
     file_mtime f = key_mtime_us key) /\
  (forall st, 0 <= st_mtime_ns st ->
     st_mtime_ns st / 1000 = Z.quot (st_mtime_ns st) 1000).
Proof.
  repeat apply conj; try reflexivity.
  - intros path rel st s s' f Hrel Hreuse Hst HE.
    pose proof (create_file_row env config path rel st s s' f Hrel Hreuse Hst HE) as H.
    destruct (S_ISREG (st_mode st)).
    + destruct H as (blob & st' & H1 & ->). by exists blob, st'.
    + by destruct H as (content & ->).
  - intros backup_files key file path s s' f Hget Hreuse HE.
    apply stat_to_files_get_key in Hget as ->.
    by rewrite (create_file_reused env config path file s s' f Hreuse HE).
  - intros st Hnn. symmetry. apply Z.quot_div_nonneg; lia.
Qed.

(** ** Invariants of a whole run

    A state invariant [I] that every task keeps between the points where
    it gives up control, and that the batch answers and the clock keep, is
    kept by the coordinator: it holds in the state any run ends in. *)

Section RunInvariant.

Variable env : Env.
Variable config : Config.
Variable I : State -> Prop.

Hypothesis I_clock : forall n s, I s -> I (set_clock_tick n s).
Hypothesis I_size_batch : forall ks s,
  I s ->
  I (set_blob_by_size_cache (fun c => snd (has_blob_with_size_batched ks s) ∪ c)
       (fst (has_blob_with_size_batched ks s))).
Hypothesis I_hash_batch : forall ks s,
  I s ->
  I (set_blob_by_hash_cache (fun c => snd (get_blobs ks s) ∪ c)
       (fst (get_blobs ks s))).
Hypothesis I_create_file : forall path s,
  I s -> task_keeps I (create_file env config path s).

Lemma callback_gen_ok g : gen_ok I g -> callback_ok I (callback g).
Proof. intros Hg rsp q Hq. constructor; [exact Hg | exact Hq]. Qed.

Lemma run_callbacks_ok {K V} `{Countable K} (result : gmap K V) mk_rsp
    (l : list (K * Callback)) q q' :
  Forall (fun t => callback_ok I (snd t)) l -> queue_ok I q ->
  run_callbacks result mk_rsp l q = Some q' -> queue_ok I q'.
Proof.
  revert q. induction l as [|[key cb] l IH]; intros q Hl Hq; cbn.
  - by intros [= <-].
  - destruct (result !! key) as [v|]; [|done].
    inversion Hl as [|? ? Hcb Hl']; subst. apply IH; [done|]. by apply Hcb.
Qed.

Lemma tasks_ok_cleared {K} `{Countable K} (f : Fetcher K) : tasks_ok I (clear_fetcher f).
Proof. constructor. Qed.

Lemma size_batch_run_inv c :
  coord_inv I c -> exists c', size_batch_run c = COk c' /\ coord_inv I c'.
Proof.
  intros ([Hws Hwh] & HI & Hq & Hts & Hth).
  pose proof (I_size_batch (elements (keys (fetcher_size c))) (world c) HI) as HI'.
  unfold size_batch_run.
  destruct (has_blob_with_size_batched _ _) as [s1 existence] eqn:Hb.
  cbn [fst snd] in HI'.
  assert (Hex : existence = list_to_map
            ((fun sz => (sz, has_blob_with_size (world c) sz))
             <$> elements (keys (fetcher_size c)))).
  { unfold has_blob_with_size_batched in Hb. by injection Hb as _ <-. }
  destruct (run_callbacks_total existence SizeRsp (reverse (tasks (fetcher_size c)))
              (schedule_queue c)) as [q' Hq'].
  { intros key cb Hin. rewrite elem_of_reverse in Hin. rewrite Hex.
    rewrite (batch_answer_lookup (has_blob_with_size (world c))); [by eexists|].
    by eapply Hws. }
  rewrite Hq'. eexists. split; [reflexivity|].
  split; [split; [by apply fetcher_wf_cleared | exact Hwh]|].
  split; [exact HI'|].
  split; [|split; [apply tasks_ok_cleared | exact Hth]].
  eapply run_callbacks_ok; [|exact Hq|exact Hq']. by apply Forall_reverse.
Qed.

Lemma hash_batch_run_inv c :
  coord_inv I c -> exists c', hash_batch_run c = COk c' /\ coord_inv I c'.
Proof.
  intros ([Hws Hwh] & HI & Hq & Hts & Hth).
  pose proof (I_hash_batch (elements (keys (fetcher_hash c))) (world c) HI) as HI'.
  unfold hash_batch_run.
  destruct (get_blobs _ _) as [s1 blobs] eqn:Hb.
  cbn [fst snd] in HI'.
  assert (Hex : blobs = list_to_map
            ((fun h => (h, db_blobs (world c) !! h))
             <$> elements (keys (fetcher_hash c)))).
  { unfold get_blobs in Hb. by injection Hb as _ <-. }
  destruct (run_callbacks_total blobs HashRsp (reverse (tasks (fetcher_hash c)))
              (schedule_queue c)) as [q' Hq'].
  { intros key cb Hin. rewrite elem_of_reverse in Hin. rewrite Hex.
    rewrite (batch_answer_lookup (fun h => db_blobs (world c) !! h)); [by eexists|].
    by eapply Hwh. }
  rewrite Hq'. eexists. split; [reflexivity|].
  split; [split; [exact Hws | by apply fetcher_wf_cleared]|].
  split; [exact HI'|].
  split; [|split; [exact Hts | apply tasks_ok_cleared]].
  eapply run_callbacks_ok; [|exact Hq|exact Hq']. by apply Forall_reverse.
Qed.

Lemma coord_inv_time c : coord_inv I c -> coord_inv I (snd (time_time env c)).
Proof.
  intros (Hw & HI & Hq & Hts & Hth). cbn. repeat split; try done; try apply Hw.
  by apply I_clock.
Qed.

Lemma flush_if_needed_inv {K} `{Countable K} (get_fetcher : Coord -> Fetcher K)
    (batch_run : Coord -> CRes) c :
  (forall c, coord_inv I c -> exists c', batch_run c = COk c' /\ coord_inv I c') ->
  coord_inv I c ->
  exists c', flush_if_needed env get_fetcher batch_run c = COk c' /\ coord_inv I c'.
Proof.
  intros Hrun Hc. unfold flush_if_needed.
  destruct (0 <? _)%nat; [|by exists c].
  destruct (_ <=? _)%nat; [by apply Hrun|].
  pose proof (coord_inv_time c Hc) as Hc'.
  destruct (time_time env c) as [now c1]. cbn [snd] in Hc'.
  destruct (Qle_bool _ _); [by apply Hrun | by exists c1].
Qed.

Lemma flush_inv {K} `{Countable K} (get_fetcher : Coord -> Fetcher K)
    (batch_run : Coord -> CRes) c :
  (forall c, coord_inv I c -> exists c', batch_run c = COk c' /\ coord_inv I c') ->
  coord_inv I c ->
  exists c', flush get_fetcher batch_run c = COk c' /\ coord_inv I c'.
Proof.
  intros Hrun Hc. unfold flush. destruct (0 <? _)%nat; [by apply Hrun | by exists c].
Qed.

Lemma bqm_flush_if_needed_inv c :
  coord_inv I c -> exists c', bqm_flush_if_needed env c = COk c' /\ coord_inv I c'.
Proof.
  intros Hc. unfold bqm_flush_if_needed.
  destruct (flush_if_needed_inv fetcher_size size_batch_run c size_batch_run_inv Hc)
    as (c1 & -> & Hc1).
  cbn [cbind]. by apply flush_if_needed_inv; [apply hash_batch_run_inv|].
Qed.

Lemma bqm_flush_inv c :
  coord_inv I c -> exists c', bqm_flush c = COk c' /\ coord_inv I c'.
Proof.
  intros Hc. unfold bqm_flush.
  destruct (flush_inv fetcher_size size_batch_run c size_batch_run_inv Hc)
    as (c1 & -> & Hc1).
  cbn [cbind]. by apply flush_inv; [apply hash_batch_run_inv|].
Qed.

Lemma fetcher_wf_enqueue {K} `{Countable K} (f : Fetcher K) key cb now :
  fetcher_wf f ->
  fetcher_wf {| tasks := tasks f ++ [(key, cb)]; keys := {[key]} ∪ keys f;
                max_batch_size := max_batch_size f;
                first_task_scheduled_time := now |}.
Proof.
  intros Hwf k cb' Hin. cbn in *. apply elem_of_app in Hin as [Hin|Hin].
  - apply elem_of_union_r. by eapply Hwf.
  - apply list_elem_of_singleton in Hin as [= -> ->]. apply elem_of_union_l.
    by apply elem_of_singleton.
Qed.

Lemma bqm_query_inv query cb c :
  coord_inv I c -> callback_ok I cb ->
  exists c', bqm_query env query cb c = COk c' /\ coord_inv I c'.
Proof.
  intros ([Hws Hwh] & HI & Hq & Hts & Hth) Hcb.
  destruct query as [size|h]; cbn [bqm_query]; unfold fetcher_query, post_query;
    cbn [time_time fetcher_size fetcher_hash set_world set_fetcher_size
         set_fetcher_hash tasks keys max_batch_size first_task_scheduled_time world].
  - apply flush_if_needed_inv; [apply size_batch_run_inv|].
    destruct (length _ =? 1)%nat; unfold coord_inv, coord_wf, tasks_ok; cbn.
    all: repeat split; try done; try (by apply fetcher_wf_enqueue);
      try (by apply I_clock).
    all: apply Forall_app; split; [done | by constructor].
  - apply flush_if_needed_inv; [apply hash_batch_run_inv|].
    destruct (length _ =? 1)%nat; unfold coord_inv, coord_wf, tasks_ok; cbn.
    all: repeat split; try done; try (by apply fetcher_wf_enqueue);
      try (by apply I_clock).
    all: apply Forall_app; split; [done | by constructor].
Qed.

(** A step of the coordinator keeps the invariant; when it fails, the
    state it fails in satisfies [I]. *)
Lemma schedule_step_inv gen value c :
  coord_inv I c -> gen_ok I gen ->
  match schedule_step env config gen value c with
  | COk c' => coord_inv I c'
  | CErr c' _ => I (world c')
  end.
Proof.
  intros Hc Hgen. unfold schedule_step.
  pose proof Hc as ([Hws Hwh] & HI & Hq & Hts & Hth).
  pose proof (Hgen value (world c) HI) as Hwp.
  match goal with
  | |- match cbind ?r _ with _ => _ end =>
      assert (H1 : match r with COk c1 => coord_inv I c1 | CErr c1 _ => I (world c1) end)
  end.
  { inversion Hwp as [s f HIs Heq|s e HIs Heq|s q k HIs Hk Heq]; subst.
    - by repeat split.
    - destruct e; try exact HIs.
      destruct (should_skip_missing_source_file _ _); [|exact HIs]. by repeat split.
    - destruct (bqm_query_inv q (callback k) (set_world s c)) as (c1 & -> & Hc1);
        [by repeat split | | exact Hc1].
      apply callback_gen_ok. intros v s' Hs'. by apply Hk. }
  match goal with
  | |- match cbind ?r _ with _ => _ end => destruct r as [c1|c1 e]; [|exact H1]
  end.
  cbn [cbind].
  destruct (bqm_flush_if_needed_inv c1 H1) as (c2 & -> & Hc2). cbn [cbind].
  destruct (schedule_queue c2).
  - by destruct (bqm_flush_inv c2 Hc2) as (c3 & -> & Hc3).
  - exact Hc2.
Qed.

Lemma schedule_loop_inv fuel c :
  coord_inv I c -> I (run_res_world (schedule_loop env config fuel c)).
Proof.
  revert c. induction fuel as [|fuel IH]; intros c Hc; cbn [schedule_loop].
  - destruct (schedule_queue c) as [|[gen value] rest]; apply Hc.
  - destruct (schedule_queue c) as [|[gen value] rest] eqn:Hq; [apply Hc|].
    pose proof Hc as (Hw & HI & Hqok & Hts & Hth).
    rewrite Hq in Hqok. inversion Hqok as [|? ? Hgen Hrest]; subst.
    assert (Hc' : coord_inv I (set_schedule_queue rest c)).
    { split; [exact Hw|]. split; [exact HI|]. split; [exact Hrest|]. by split. }
    pose proof (schedule_step_inv gen value (set_schedule_queue rest c) Hc' Hgen) as Hstep.
    destruct (schedule_step env config gen value (set_schedule_queue rest c)) as [c'|c' e].
    + by apply IH.
    + exact Hstep.
Qed.

Hypothesis I_pre_stats : forall all_files s, I s -> I (pre_calculate_stats all_files s).
Hypothesis I_reuse : forall all_files s,
  I s -> task_keeps I (reuse_unchanged_files all_files s).
Hypothesis I_pre_hash : forall all_files s,
  I s -> task_keeps I (pre_calculate_hash env all_files s).
Hypothesis I_blob_store : forall d cow s, I s -> I (set_blob_store d cow s).
Hypothesis I_clear_caches : forall s,
  I s -> I (set_blob_by_hash_cache (fun _ => ∅) (set_blob_by_size_cache (fun _ => ∅) s)).

Lemma call_inv {A} (m : M A) c (k : A -> Coord -> RunRes) :
  task_keeps I (m (world c)) ->
  (forall a s, I s -> I (run_res_world (k a (set_world s c)))) ->
  I (run_res_world (call m c k)).
Proof.
  intros Hm Hk. unfold call.
  inversion Hm as [s a HIs Heq|s e HIs Heq|s q k' HIs Hk' Heq]; subst; cbn; auto.
Qed.

Lemma create_backup_inv fuel all_files c :
  coord_inv I c -> schedule_queue c = [] ->
  I (run_res_world (create_backup env config fuel all_files c)).
Proof.
  intros (Hw & HI & Hq & Hts & Hth) Hempty. unfold create_backup.
  apply call_inv.
  { cbn. destruct (reuse_stat_unchanged_file config).
    - by apply I_reuse, I_pre_stats.
    - constructor. by apply I_pre_stats. }
  intros _ s1 Hs1. apply call_inv.
  { cbn. destruct (1 <? get_effective_concurrency config).
    - by apply I_pre_hash.
    - by constructor. }
  intros _ s2 Hs2. apply schedule_loop_inv.
  split; [exact Hw|]. split; [cbn; by apply I_blob_store|].
  split; [|by split].
  cbn. apply Forall_fmap, Forall_forall. intros file_entry _ v s Hs. cbn.
  by apply I_create_file.
Qed.

Lemma new_coord_inv s : I s -> coord_inv I (new_coord env s).
Proof.
  intros Hs. unfold new_coord. split; [split; by intros ? ? ?%elem_of_nil|].
  split; [cbn; by apply I_clock|]. repeat split; constructor.
Qed.

(** The invariant holds where a run ends; a failed run ends in the state
    the blob rollback leaves. *)
Lemma run_inv fuel all_files s :
  I s ->
  match run env config fuel all_files s with
  | Finished c | OutOfFuel c => I (world c)
  | Failed c e => exists s', I s' /\ world c = apply_blob_rollback s'
  end.
Proof.
  intros Hs. unfold run.
  pose proof (create_backup_inv fuel all_files
    (new_coord env (set_blob_by_hash_cache (fun _ => ∅)
                      (set_blob_by_size_cache (fun _ => ∅) s)))
    (new_coord_inv _ (I_clear_caches s Hs)) eq_refl) as H.
  destruct (create_backup _ _ _ _ _) as [c|c e|c]; cbn in *; eauto.
Qed.

End RunInvariant.

(** The retry loop keeps what its attempts keep. *)
Section RetryInvariant.

Variable env : Env.
Variable I : State -> Prop.
Variable attempt : stat_result -> bool -> M Blob.
Variable src_path : Path.
Variable Q_att Q_fin : State -> Blob -> Prop.

Hypothesis I_env_act : forall s, I s -> I (env_act env s).
Hypothesis attempt_wp : forall st last_chance s,
  I s -> wp I Q_att (fun s _ => I s) (attempt st last_chance s).
Hypothesis Q_record : forall s blob, Q_att s blob -> Q_fin (record_blob_state blob s) blob.

Lemma lstat_wp p s :
  I s -> wp I (fun s (_ : stat_result) => I s) (fun s _ => I s) (lstat env p s).
Proof.
  intros Hs. unfold lstat, bind, env_step, modify. cbn.
  change (set_env_tick (S (env_tick s))
            (set_disk (fun d => fold_left apply_event (src_events env (env_tick s)) d) s))
    with (env_act env s).
  destruct (_ !! p); constructor; by apply I_env_act.
Qed.

Lemma retry_loop_wp n i st s :
  I s ->
  wp I (fun s r => Q_fin s (fst r)) (fun s _ => I s)
     (retry_loop env attempt src_path n i st s).
Proof.
  revert i st s. induction n as [|n IH]; intros i st s Hs.
  - by constructor.
  - rewrite retry_loop_unfold. unfold catch.
    eapply wp_catch with (E' := fun s _ => I s).
    + unfold bind. eapply wp_bind; [by apply attempt_wp|].
      intros s1 blob Hq. cbn. constructor. cbn. by apply Q_record.
    + intros s1 e Hs1. destruct e; try (by constructor).
      unfold bind. eapply wp_bind; [by apply lstat_wp|].
      intros s2 st' Hs2. by apply IH.
Qed.

End RetryInvariant.

(** ** The rollback list covers the blob files of the run *)

Lemma apply_blob_rollback_fold (l : list Path) (s : State) :
  blob_rollbackers (fold_left (fun s p => remove_file p s) l s) = blob_rollbackers s /\
  forall p,
    disk (fold_left (fun s p => remove_file p s) l s) !! p =
    if decide (p ∈ l) then None else disk s !! p.
Proof.
  revert s. induction l as [|x l IH]; intros s; cbn.
  - split; [done|]. intros p. destruct (decide _) as [Hin|]; [|done].
    by apply elem_of_nil in Hin.
  - destruct (IH (remove_file x s)) as [Hrb Hdisk]. split; [by rewrite Hrb|].
    intros p. rewrite Hdisk. cbn.
    destruct (decide (p ∈ l)) as [Hin|Hnin].
    + rewrite decide_True; [done | by right].
    + destruct (decide (p = x)) as [->|Hne].
      * rewrite decide_True; [|by left]. apply lookup_delete_eq.
      * rewrite decide_False; [by apply lookup_delete_ne|].
        by intros [?|?]%elem_of_cons.
Qed.

Lemma apply_blob_rollback_disk (s : State) (p : Path) :
  disk (apply_blob_rollback s) !! p =
  if decide (p ∈ blob_rollbackers s) then None else disk s !! p.
Proof. unfold apply_blob_rollback. apply apply_blob_rollback_fold. Qed.

Lemma apply_blob_rollback_list (s : State) :
  blob_rollbackers (apply_blob_rollback s) = blob_rollbackers s.
Proof. unfold apply_blob_rollback. apply apply_blob_rollback_fold. Qed.

(** An invariant that reads only the store (the blob files, the rollback
    list and the Blob rows) and that one attempt keeps is kept by a whole
    run. *)
Section StoreInvariant.

Variable env : Env.
Variable config : Config.
Variable I : State -> Prop.

Hypothesis I_same_store : forall s s', same_store s s' -> I s -> I s'.
Hypothesis attempt_keeps : forall src_path st last_chance s,
  I s -> task_keeps I (attempt_once env config src_path st last_chance s).

Ltac same_store_tac :=
  match goal with
  | H : I ?s |- I _ =>
      apply (I_same_store s); [|exact H];
      unfold same_store, env_act, record_blob_state, pre_calculate_stats,
        has_blob_with_size_batched, get_blobs;
      cbn; repeat split; try done;
      intros; by rewrite ?apply_events_other
  end.

Lemma store_inv_env_act s : I s -> I (env_act env s).
Proof. intros Hs. same_store_tac. Qed.

Lemma get_or_create_blob_keeps src_path st s :
  I s -> task_keeps I (get_or_create_blob env config src_path st s).
Proof.
  intros Hs. unfold task_keeps, get_or_create_blob.
  eapply wp_mono.
  - apply (retry_loop_wp env I (attempt_once env config src_path) src_path
             (fun s _ => I s) (fun s _ => I s)); [| | |exact Hs].
    + apply store_inv_env_act.
    + intros st' lc s' Hs'. by apply attempt_keeps.
    + intros s' blob Hs'. same_store_tac.
  - done.
  - done.
Qed.

Lemma create_file_keeps path s :
  I s -> task_keeps I (create_file env config path s).
Proof.
  intros Hs. unfold task_keeps, create_file, bind, get_state, pop_stat. cbn.
  destruct (reused_files s !! path); [by constructor|]. cbn.
  assert (Hs1 : I (set_stats (delete path) s)) by same_store_tac.
  revert Hs1. generalize (set_stats (delete path) s). intros s1 Hs1.
  eapply wp_bind with (Q' := fun s _ => I s).
  - destruct (stats s !! path); [by constructor|].
    unfold wrap, catch. eapply wp_catch; [by apply (lstat_wp env I store_inv_env_act)|].
    intros s2 e Hs2. cbn. destruct (is_FileNotFoundError e); by constructor.
  - intros s2 st Hs2. cbn.
    eapply wp_bind with (Q' := fun s _ => I s).
    + destruct (S_ISREG (st_mode st)).
      * eapply wp_bind; [by apply get_or_create_blob_keeps|].
        intros s3 [blob st'] Hs3. by constructor.
      * destruct (S_ISDIR (st_mode st)); [by constructor|].
        destruct (S_ISLNK (st_mode st)); [|by constructor].
        eapply wp_bind with (Q' := fun s _ => I s); [|intros; by constructor].
        unfold wrap, catch, readlink, encode_utf8, env_step, modify, bind. cbn.
        destruct (_ !! path) as [n|]; cbn;
          [destruct (S_ISLNK (n_mode n)); cbn;
           [destruct (utf8_valid (n_data n)); cbn|]|];
          constructor; by apply store_inv_env_act.
    + intros s3 [[blob content] st'] Hs3. unfold file_path_to_db_path.
      destruct (relative_to_source path); by constructor.
Qed.

Lemma reuse_scan_keeps d all_files s :
  I s -> task_keeps I (reuse_scan d all_files s).
Proof.
  revert s. induction all_files as [|file_entry rest IH]; intros s Hs; cbn.
  - by constructor.
  - unfold bind. eapply wp_bind with (Q' := fun s _ => I s); [|intros; by apply IH].
    destruct (is_file file_entry); [|by constructor].
    unfold file_path_to_db_path.
    destruct (relative_to_source _); [|by constructor]. cbn.
    destruct (stat_to_files_get _ _); constructor; [same_store_tac | done].
Qed.

Lemma hash_files_keeps existed_sizes entries s :
  I s -> task_keeps I (hash_files env existed_sizes entries s).
Proof.
  revert s. induction entries as [|file_entry rest IH]; intros s Hs; cbn.
  - by constructor.
  - destruct (existed_sizes !! _) as [[|]|]; [|by apply IH|by constructor].
    unfold bind, calc_file_hash, open_rb, env_step, modify. cbn.
    destruct (_ !! entry_path file_entry).
    + cbn. apply IH. same_store_tac.
    + constructor. same_store_tac.
Qed.

(** The invariant holds where a run ends; a failed run ends in the state
    the blob rollback leaves. *)
Lemma run_store_inv fuel all_files s :
  I s ->
  match run env config fuel all_files s with
  | Finished c | OutOfFuel c => I (world c)
  | Failed c e => exists s', I s' /\ world c = apply_blob_rollback s'
  end.
Proof.
  apply run_inv.
  - intros n s0 Hs0. same_store_tac.
  - intros ks s0 Hs0. same_store_tac.
  - intros ks s0 Hs0. same_store_tac.
  - apply create_file_keeps.
  - intros all s0 Hs0. same_store_tac.
  - intros all s0 Hs0. unfold reuse_unchanged_files, bind, get_state. cbn.
    destruct (db_last_backup_files s0); [by apply reuse_scan_keeps | by constructor].
  - intros all s0 Hs0. unfold pre_calculate_hash, bind, get_state, modify. cbn.
    apply hash_files_keeps. same_store_tac.
  - intros d cow s0 Hs0. same_store_tac.
  - intros s0 Hs0. same_store_tac.
Qed.

End StoreInvariant.

Section Rollback.

Variable env : Env.
Variable config : Config.
(* the fingerprints whose blob file was on disk before the run *)
Variable B0 : Hash -> Prop.

Ltac rb_leaf :=
  match goal with
  | |- rb_inv B0 _ =>
      let h := fresh "h" in
      let Hh := fresh "Hh" in
      intros h Hh;
      unfold remove_file, env_act, set_new_blob, get_blob_path, temp_file_path in *;
      cbn in Hh |- *;
      repeat first
        [ rewrite apply_events_other in Hh by done
        | rewrite lookup_insert in Hh
        | rewrite lookup_delete in Hh
        | case_decide ];
      simplify_eq;
      try (by destruct Hh);
      rewrite ?elem_of_app, ?list_elem_of_singleton;
      try match goal with
          | H : rb_inv B0 _, H' : is_Some _ |- _ => apply H in H'
          end;
      try tauto; eauto
  end.

Lemma rb_inv_same_store s s' : same_store s s' -> rb_inv B0 s -> rb_inv B0 s'.
Proof.
  intros (Hrb & _ & _ & Hdisk) Hs h Hh. rewrite Hrb. apply Hs. by rewrite <- Hdisk.
Qed.

Lemma attempt_once_rb src_path st last_chance s :
  rb_inv B0 s -> task_keeps (rb_inv B0) (attempt_once env config src_path st last_chance s).
Proof.
  intros Hs.
  unfold task_keeps, attempt_once, attempt_finish, attempt_select, attempt_dedup,
    attempt_write, make_temp_file, copy_file_fast, SourceFileNotFound_open_rb, wrap,
    open_rb, calc_file_hash, calc_file_size_and_hash, dedup_by_hash, bp_rba,
    copy_compressed, create_blob, write_file, write_compressed, check_changes,
    os_replace, assert_true, add_remove_file_rollbacker, env_step.
  cbn. wp_run. all: try done. all: rb_leaf.
Qed.

Lemma create_file_rb path s :
  rb_inv B0 s -> task_keeps (rb_inv B0) (create_file env config path s).
Proof.
  apply (create_file_keeps env config (rb_inv B0) rb_inv_same_store attempt_once_rb).
Qed.

(** Any run leaves the state within the invariant; a failed run leaves the
    state its rollback produces from such a state. *)
Lemma run_rb fuel all_files s :
  rb_inv B0 s ->
  match run env config fuel all_files s with
  | Finished c | OutOfFuel c => rb_inv B0 (world c)
  | Failed c e => exists s', rb_inv B0 s' /\ world c = apply_blob_rollback s'
  end.
Proof.
  apply (run_store_inv env config (rb_inv B0) rb_inv_same_store attempt_once_rb).
Qed.

End Rollback.

(** ** A fingerprint is committed at most once *)

Lemma db_new_ok_insert db nb b :
  db_new_ok db nb -> db !! blob_hash b = None ->
  db_new_ok (<[blob_hash b := b]> db) (nb ++ [b]).
Proof.
  intros [Hnd Hin] Hnone. split.
  - rewrite fmap_app. apply NoDup_app. split; [exact Hnd|]. split.
    + intros h Hh [= ->]%list_elem_of_singleton.
      apply list_elem_of_fmap in Hh as (b' & Hb' & Hin').
      apply Hin in Hin'. rewrite <- Hb' in Hin'. congruence.
    + apply NoDup_singleton.
  - intros b' [Hb'|Hb']%elem_of_app.
    + destruct (decide (blob_hash b = blob_hash b')) as [Heq|Hne].
      * apply Hin in Hb'. rewrite <- Heq in Hb'. congruence.
      * rewrite lookup_insert_ne by done. by apply Hin.
    + apply list_elem_of_singleton in Hb' as ->. apply lookup_insert_eq.
Qed.

Lemma db_new_inv_same_store s s' : same_store s s' -> db_new_inv s -> db_new_inv s'.
Proof. intros (_ & Hdb & Hnb & _). unfold db_new_inv. by rewrite Hdb, Hnb. Qed.

Ltac db_leaf :=
  match goal with
  | |- db_new_inv _ =>
      unfold db_new_inv, remove_file, env_act, set_new_blob in *; cbn in *;
      first [ assumption
            | apply (db_new_ok_insert _ _ (Build_Blob _ _ _ _)); assumption ]
  end.

Lemma attempt_once_db_new env config src_path st last_chance s :
  db_new_inv s ->
  task_keeps db_new_inv (attempt_once env config src_path st last_chance s).
Proof.
  intros Hs.
  unfold task_keeps, attempt_once, attempt_finish, attempt_select, attempt_dedup,
    attempt_write, make_temp_file, copy_file_fast, SourceFileNotFound_open_rb, wrap,
    open_rb, calc_file_hash, calc_file_size_and_hash, dedup_by_hash, bp_rba,
    copy_compressed, create_blob, write_file, write_compressed, check_changes,
    os_replace, assert_true, add_remove_file_rollbacker, env_step.
  cbn. wp_run. all: try done. all: db_leaf.
Qed.

Lemma apply_blob_rollback_db s :
  db_blobs (apply_blob_rollback s) = db_blobs s /\
  new_blobs (apply_blob_rollback s) = new_blobs s.
Proof.
  unfold apply_blob_rollback. generalize (blob_rollbackers s) as l. intros l.
  revert s. induction l as [|p l IH]; intros s; cbn; [done|].
  destruct (IH (remove_file p s)) as [-> ->]. done.
Qed.

(** In the state any run ends in, the rows created have distinct
    fingerprints. *)
Lemma run_db_new env config fuel all_files s :
  db_new_inv s -> db_new_inv (run_res_world (run env config fuel all_files s)).
Proof.
  intros Hs.
  pose proof (run_store_inv env config db_new_inv db_new_inv_same_store
                (attempt_once_db_new env config) fuel all_files s Hs) as H.
  destruct (run env config fuel all_files s) as [c|c e|c]; cbn; try exact H.
  destruct H as (s' & Hs' & ->). unfold db_new_inv.
  by destruct (apply_blob_rollback_db s') as [-> ->].
Qed.

Lemma NoDup_fmap_filter_length {A B} `{EqDecision B} (f : A -> B) (y : B) (l : list A) :
  NoDup (f <$> l) -> (length (filter (fun x => f x = y) l) <= 1)%nat.
Proof.
  induction l as [|x l IH]; [cbn; lia|].
  rewrite fmap_cons. intros [Hx Hl]%NoDup_cons. rewrite filter_cons.
  destruct (decide (f x = y)) as [Heq|Hne]; [|by apply IH].
  replace (filter (fun x0 => f x0 = y) l) with (@nil A); [cbn; lia|].
  symmetry. apply elem_of_nil_inv. intros z [Hfz Hz]%list_elem_of_filter.
  apply Hx. rewrite Heq, <- Hfz. by apply list_elem_of_fmap_2.
Qed.

(** C3. When a run fails, the blob rollback is applied before the
    exception reaches the caller: no path of the rollback list is on disk
    any more, and, every blob path being added to the rollback list before
    it is written, every blob file left on disk was there before the run;
    at each point where a task gives up control (request, return or raise)
    the blob files on disk are those of before the run and those of the
    rollback list. *)
Theorem C3_failed_run_leaves_no_new_blob
    (env : Env) (config : Config) (fuel : nat) (all_files : list ScanResultEntry)
    (s : State) (c : Coord) (e : Exn) :
  run env config fuel all_files s = Failed c e ->
  (forall path s1,
     rb_inv (fun h => is_Some (disk s !! BlobPath h)) s1 ->
     task_keeps (rb_inv (fun h => is_Some (disk s !! BlobPath h)))
       (create_file env config path s1)) /\
  (exists c0, create_backup env config fuel all_files
                (new_coord env (set_blob_by_hash_cache (fun _ => ∅)
                                  (set_blob_by_size_cache (fun _ => ∅) s)))
              = Failed c0 e /\
              world c = apply_blob_rollback (world c0)) /\
  (forall p, p ∈ blob_rollbackers (world c) -> disk (world c) !! p = None) /\
  (forall h, is_Some (disk (world c) !! BlobPath h) -> is_Some (disk s !! BlobPath h)).
Proof.
  intros Hrun. split; [intros path s1; apply create_file_rb|].
  pose proof (run_rb env config (fun h => is_Some (disk s !! BlobPath h))
                fuel all_files s) as Hinv.
  rewrite Hrun in Hinv. destruct Hinv as (s' & Hs' & Hw); [intros h Hh; by right|].
  split.
  { unfold run in Hrun. destruct (create_backup _ _ _ _ _) as [c0|c0 e0|c0]; try done.
    injection Hrun as <- <-. by exists c0. }
  split.
  - intros p. rewrite Hw, apply_blob_rollback_list, apply_blob_rollback_disk.
    intros Hp. by rewrite decide_True.
  - intros h. rewrite Hw, apply_blob_rollback_disk.
    destruct (decide _) as [|Hnin]; [by intros [? ?]|].
    intros Hh. by destruct (Hs' h Hh).
Qed.

(** C3 at the file followed by a pipe: the run fails on the pipe after the
    blob of the file was written, and no blob file is left. *)
Lemma C3_failed_run_leaves_no_new_blob_witness :
  exists c,
    run ticking_env plain_config 10 pipe_scan (state_of_disk pipe_disk)
    = Failed c (UnsupportedFileFormat 4516) /\
    blob_rollbackers (world c) = [BlobPath "hi"] /\
    forall h, is_Some (disk (world c) !! BlobPath h) ->
              is_Some (disk (state_of_disk pipe_disk) !! BlobPath h).
Proof.
  assert (He : run_res_error
                 (run ticking_env plain_config 10 pipe_scan (state_of_disk pipe_disk))
               = Some (UnsupportedFileFormat 4516)) by (vm_compute; reflexivity).
  assert (Hrb : blob_rollbackers (run_res_world
                  (run ticking_env plain_config 10 pipe_scan (state_of_disk pipe_disk)))
                = [BlobPath "hi"]) by (vm_compute; reflexivity).
  destruct (run ticking_env plain_config 10 pipe_scan (state_of_disk pipe_disk))
    as [c|c e|c] eqn:Hrun; [discriminate He| |discriminate He].
  injection He as ->. exists c. split; [reflexivity|]. split; [exact Hrb|].
  apply (C3_failed_run_leaves_no_new_blob ticking_env plain_config 10 pipe_scan
           (state_of_disk pipe_disk) c (UnsupportedFileFormat 4516) Hrun).
Defined.

Lemma restat_missing_ends env (attempt : stat_result -> bool -> M Blob)
    src_path n i st s s1 :
  Ends (attempt st (i + 1 =? BLOB_FILE_CHANGED_RETRY_COUNT)%nat s)
       (Raised s1 BlobFileChanged) ->
  disk (env_act env s1) !! src_path = None ->
  Ends (retry_loop env attempt src_path (S n) i st s)
       (Raised (env_act env s1) (FileNotFoundError src_path)).
Proof.
  intros Hatt Hgone. apply retry_loop_step. cbn zeta. right. right.
  exists s1. split; [exact Hatt|]. left.
  destruct (lstat_cases env src_path s1) as [(nd & Hnd & _)|(_ & Hl)]; [congruence|].
  eauto.
Qed.

Lemma create_file_propagates env config path st s s2 e :
  reused_files s !! path = None ->
  stats s !! path = Some st ->
  S_ISREG (st_mode st) = true ->
  Ends (get_or_create_blob env config path st (set_stats (delete path) s)) (Raised s2 e) ->
  Ends (create_file env config path s) (Raised s2 e).
Proof.
  intros Hreuse Hst Hreg HE. unfold create_file, bind, get_state, pop_stat.
  cbn. rewrite Hreuse, Hst. cbn. rewrite Hreg.
  by apply Ends_bind_raise, Ends_bind_raise.
Qed.

(** C10. The re-stat after a BlobFileChanged attempt is a bare lstat: when
    the file is gone by then, the loop raises FileNotFoundError, not
    SourceFileNotFound; the task passes it on, the coordinator does not
    consult the skip-missing patterns for it and fails, and the run applies
    the blob rollback and raises it again. *)
Theorem C10_restat_failure_is_not_skipped
    (env : Env) (config : Config) (fuel : nat) (all_files : list ScanResultEntry)
    (s : State) (c : Coord) (p : Path) :
  create_backup env config fuel all_files
    (new_coord env (set_blob_by_hash_cache (fun _ => ∅)
                      (set_blob_by_size_cache (fun _ => ∅) s)))
  = Failed c (FileNotFoundError p) ->
  run env config fuel all_files s =
    Failed (set_world (apply_blob_rollback (world c)) c) (FileNotFoundError p) /\
  (forall src_path n i st s0 s1,
     Ends (attempt_once env config src_path st
             (i + 1 =? BLOB_FILE_CHANGED_RETRY_COUNT)%nat s0)
          (Raised s1 BlobFileChanged) ->
     disk (env_act env s1) !! src_path = None ->
     Ends (retry_loop env (attempt_once env config src_path) src_path (S n) i st s0)
          (Raised (env_act env s1) (FileNotFoundError src_path))) /\
  (forall path st s0 s2 e,
     reused_files s0 !! path = None ->
     stats s0 !! path = Some st ->
     S_ISREG (st_mode st) = true ->
     Ends (get_or_create_blob env config path st (set_stats (delete path) s0))
          (Raised s2 e) ->
     Ends (create_file env config path s0) (Raised s2 e)) /\
  (forall gen value c0 s0 p0,
     gen value (world c0) = Err s0 (FileNotFoundError p0) ->
     schedule_step env config gen value c0 =
       CErr (set_world s0 c0) (FileNotFoundError p0)) /\
  (forall fuel0 c0 gen value rest s0 p0,
     schedule_queue c0 = (gen, value) :: rest ->
     gen value (world c0) = Err s0 (FileNotFoundError p0) ->
     schedule_loop env config (S fuel0) c0 =
       Failed (set_world s0 (set_schedule_queue rest c0)) (FileNotFoundError p0)).
Proof.
  intros Hcb. repeat apply conj.
  - unfold run. by rewrite Hcb.
  - intros src_path n i st s0 s1. apply restat_missing_ends.
  - intros path st s0 s2 e. apply create_file_propagates.
  - intros gen value c0 s0 p0 Hgen. unfold schedule_step. by rewrite Hgen.
  - intros fuel0 c0 gen value rest s0 p0 Hq Hgen. cbn [schedule_loop]. rewrite Hq.
    unfold schedule_step. cbn [world set_schedule_queue]. by rewrite Hgen.
Qed.

(** C10 at a file that matches the skip-missing patterns, grows after the
    scan and is deleted before the re-stat: the run fails with
    FileNotFoundError and the blob store is left as it was. *)
Lemma C10_restat_failure_is_not_skipped_witness :
  should_skip_missing_source_file skip_all_config (SrcPath "log") = true /\
  exists c,
    run deleting_env skip_all_config 10 log_scan (state_of_disk log_disk)
    = Failed c (FileNotFoundError (SrcPath "log")).
Proof.
  split; [reflexivity|].
  assert (He : run_res_error
                 (create_backup deleting_env skip_all_config 10 log_scan
                    (new_coord deleting_env
                       (set_blob_by_hash_cache (fun _ => ∅)
                          (set_blob_by_size_cache (fun _ => ∅)
                             (state_of_disk log_disk)))))
               = Some (FileNotFoundError (SrcPath "log"))) by (vm_compute; reflexivity).
  destruct (create_backup deleting_env skip_all_config 10 log_scan
              (new_coord deleting_env
                 (set_blob_by_hash_cache (fun _ => ∅)
                    (set_blob_by_size_cache (fun _ => ∅) (state_of_disk log_disk)))))
    as [c|c e|c] eqn:Hcb; [discriminate He| |discriminate He].
  injection He as ->. eexists.
  exact (proj1 (C10_restat_failure_is_not_skipped deleting_env skip_all_config 10
                  log_scan (state_of_disk log_disk) c (SrcPath "log") Hcb)).
Defined.

(** ** The order of the File rows *)

(** C2 fails on the code: for a small file scanned before a directory the
    run succeeds and its File rows are in the order directory, file.  The
    file's task waits in the hash fetcher while the directory's task, which
    asks nothing, finishes first. *)
Lemma C2_file_order_not_scan_order :
  match run quiet_env plain_config 10 order_scan (state_of_disk order_disk) with
  | Finished c =>
      file_path <$> files c = ["d"; "a.txt"] /\
      (fun e => match relative_to_source (entry_path e) with
                | Some rel => rel
                | None => ""
                end) <$> order_scan = ["a.txt"; "d"]
  | _ => False
  end.
Proof. vm_compute. split; reflexivity. Qed.

(** ** Empty files *)

Lemma decision_table_size_zero last_chance pre_hash can_cow ex :
  decision_table last_chance pre_hash can_cow 0 ex =
  size_zero_row last_chance pre_hash can_cow.
Proof.
  unfold decision_table, size_zero_row.
  destruct last_chance; [done|]. destruct pre_hash; [done|]. by destruct can_cow.
Qed.

Lemma db_new_inv_fresh d : db_new_inv (state_of_disk d).
Proof. split; [constructor | by intros b ?%elem_of_nil]. Defined.

(** C8, as stated, fails: with copy-on-write available an empty file gets
    the default policy, not read_all; and when the catalog already holds
    the Blob row of the empty body, a run over an empty file commits no
    zero-byte blob at all. *)
Lemma C8_empty_file_counterexample :
  st_size (stat_of (regular_file 0 [])) = 0 /\
  match attempt_select cow_env plain_config (SrcPath "e1") (stat_of (regular_file 0 []))
          false (set_blob_store 2 true (state_of_disk empty_disk)) with
  | Done _ loc => policy loc = Some Policy.default
  | _ => False
  end /\
  match run quiet_env plain_config 10 [scan_entry "e1" (regular_file 0 [])]
          catalogued_state with
  | Finished c =>
      new_blobs (world c) = [] /\
      file_blob_raw_size <$> files c = [Some 0]
  | _ => False
  end.
Proof.
  split; [reflexivity|]. split.
  - vm_compute. reflexivity.
  - vm_compute. split; reflexivity.
Qed.

(** Two empty files in a fresh store: one zero-byte blob is committed and
    both File rows reference it. *)
Lemma two_empty_files_one_blob :
  match run quiet_env plain_config 10
          [scan_entry "e1" (regular_file 0 []); scan_entry "e2" (regular_file 0 [])]
          (state_of_disk empty_disk) with
  | Finished c =>
      new_blobs (world c) = [zero_blob] /\
      file_blob_hash <$> files c = [Some ""; Some ""]
  | _ => False
  end.
Proof. vm_compute. split; reflexivity. Qed.

Lemma needs_size_lookup_zero last_chance pre_hash can_cow cached :
  needs_size_lookup last_chance pre_hash can_cow 0 cached = false.
Proof.
  unfold needs_size_lookup. change (0 <=? READ_ALL_SIZE_THRESHOLD) with true.
  cbn [negb]. by rewrite !andb_false_r.
Qed.

(** C8 (amended). For a regular file of size 0 that is not reused, the
    policy is read_all exactly when the attempt is not the final retry,
    the hashes map has no fingerprint for the path and copy-on-write is
    unavailable (copy_hash on the final retry, default otherwise); under
    read_all an empty body gives the fingerprint of the empty byte string;
    and in a run a Blob row of a given fingerprint, that of the empty body
    in particular, is committed at most once: two empty files commit one
    zero-byte blob, which both File rows reference. *)
Theorem C8_empty_file_policy_and_single_blob
    (env : Env) (config : Config) (src_path : Path) (st : stat_result)
    (last_chance : bool) (s : State) (fuel : nat) (all_files : list ScanResultEntry)
    (s0 : State) :
  st_size st = 0 ->
  db_new_inv s0 ->
  let can_cow :=
    can_copy_on_write env (get_compress_method_from_size config (st_size st)) st s in
  let pre_hash := hashes s !! src_path in
  let s1 := set_hashes (delete src_path) s in
  attempt_select env config src_path st last_chance s =
    selection_of env src_path (size_zero_row last_chance pre_hash can_cow) s1 /\
  (size_zero_row last_chance pre_hash can_cow = row_read_all <->
   last_chance = false /\ pre_hash = None /\ can_cow = false) /\
  (forall n, disk (env_act env s1) !! src_path = Some n -> n_data n = [] ->
     selection_of env src_path row_read_all s1 =
     Done (env_act env s1)
       (mkLocals (Some Policy.read_all) (Some (calc_bytes_hash env [])) (Some []))) /\
  (length (filter (fun b => blob_hash b = calc_bytes_hash env [])
             (new_blobs (run_res_world (run env config fuel all_files s0)))) <= 1)%nat /\
  match run quiet_env plain_config 10
          [scan_entry "e1" (regular_file 0 []); scan_entry "e2" (regular_file 0 [])]
          (state_of_disk empty_disk) with
  | Finished c =>
      new_blobs (world c) = [zero_blob] /\
      file_blob_hash <$> files c = [Some ""; Some ""]
  | _ => False
  end.
Proof.
  intros Hsz Hdb. cbn zeta.
  split; [|split; [|split; [|split; [|exact two_empty_files_one_blob]]]].
  - pose proof (attempt_select_spec env config src_path st last_chance s) as H.
    cbn zeta in H. rewrite Hsz in H.
    rewrite needs_size_lookup_zero, decision_table_size_zero in H.
    rewrite Hsz. exact H.
  - unfold size_zero_row. split.
    + destruct last_chance; [by intros [=]|].
      destruct (hashes s !! src_path); [by intros [=]|].
      destruct (can_copy_on_write _ _ _ _); [by intros [=] | done].
    + by intros (-> & -> & ->).
  - intros n Hn Hdata. cbn [selection_of]. rewrite Hn, Hdata. reflexivity.
  - apply NoDup_fmap_filter_length, (run_db_new env config fuel all_files s0 Hdb).
Qed.

(** C8 at an empty file in a fresh store. *)
Lemma C8_empty_file_policy_and_single_blob_witness :
  attempt_select quiet_env plain_config (SrcPath "e1") (stat_of (regular_file 0 []))
    false (state_of_disk empty_disk)
  = selection_of quiet_env (SrcPath "e1") row_read_all
      (set_hashes (delete (SrcPath "e1")) (state_of_disk empty_disk)).
Proof.
  exact (proj1 (C8_empty_file_policy_and_single_blob quiet_env plain_config
                  (SrcPath "e1") (stat_of (regular_file 0 [])) false
                  (state_of_disk empty_disk) 10 [] (state_of_disk empty_disk)
                  eq_refl (db_new_inv_fresh empty_disk))).
Defined.

(** ** Counting the requests of a task *)

Section CountedLogic.

Variable I : State -> Prop.

Lemma wpn_mono {A} (Q Q' : State -> A -> Prop) (E E' : State -> Exn -> Prop) n m r :
  wpn I Q E n r -> (n <= m)%nat ->
  (forall s a, Q s a -> Q' s a) -> (forall s e, E s e -> E' s e) ->
  wpn I Q' E' m r.
Proof.
  intros H. revert m. induction H as [n s a H|n s e H|n s q k HI Hk IH]; intros m Hm HQ HE.
  - constructor. auto.
  - constructor. auto.
  - destruct m as [|m]; [lia|]. constructor; [done|].
    intros v s' Hs'. apply IH; [done | lia | done | done].
Qed.

Lemma wpn_bind {A B} (Q' : State -> A -> Prop) (Q : State -> B -> Prop) E a b
    (r : Res A) (f : A -> M B) :
  wpn I Q' E a r ->
  (forall s x, Q' s x -> wpn I Q E b (f x s)) ->
  wpn I Q E (a + b) (bind_res r f).
Proof.
  induction 1 as [n s x H|n s e H|n s q k HI Hk IH]; intros Hf; cbn.
  - eapply wpn_mono; [by apply Hf | lia | done | done].
  - by constructor.
  - constructor; [done|]. intros v s' Hs'. by apply IH.
Qed.

Lemma wpn_catch {A} (Q : State -> A -> Prop) E' E a b (r : Res A) (h : Exn -> M A) :
  wpn I Q E' a r ->
  (forall s e, E' s e -> wpn I Q E b (h e s)) ->
  wpn I Q E (a + b) (catch_res r h).
Proof.
  induction 1 as [n s x H|n s e H|n s q k HI Hk IH]; intros Hh; cbn.
  - by constructor.
  - eapply wpn_mono; [by apply Hh | lia | done | done].
  - constructor; [done|]. intros v s' Hs'. by apply IH.
Qed.

Lemma wpn_wp {A} (Q : State -> A -> Prop) E n (r : Res A) :
  wpn I Q E n r -> wp I Q E r.
Proof.
  induction 1 as [n s x H|n s e H|n s q k HI Hk IH]; constructor; auto.
Qed.

End CountedLogic.

(** Symbolic execution of a computation under [wpn]. *)
Ltac wpn_step :=
  first
    [ apply wpn_done
    | apply wpn_err
    | apply wpn_yield; [ | intros ? ? ?]
    | match goal with
      | |- context [match ?x with _ => _ end] => destruct x eqn:?
      end ].

Ltac wpn_run := repeat (wpn_step; cbn).

Section TaskBound.

Variable env : Env.
Variable config : Config.
Variable I : State -> Prop.
Variable Qd : Path -> File -> Prop.

(* [I] reads the rows kept for reuse only *)
Hypothesis I_frame : forall s s', reused_files s' = reused_files s -> I s -> I s'.
Hypothesis Qd_new : forall p rel st content blob,
  relative_to_source p = Some rel -> Qd p (new_file_row rel st content blob).
Hypothesis Qd_reused : forall s p f,
  I s -> reused_files s !! p = Some f -> Qd p (copy_file_row f).

Ltac frame_leaf :=
  match goal with
  | H : I ?s |- I _ =>
      apply (I_frame s); [|exact H];
      unfold remove_file, env_act, set_new_blob, record_blob_state; cbn; reflexivity
  end.

Ltac own_leaf :=
  match goal with
  | |- own_missing _ _ => let p := fresh in let H := fresh in
                          intros p H; simplify_eq; done
  end.

Lemma env_act_frame s : I s -> I (env_act env s).
Proof. intros Hs. frame_leaf. Qed.

Lemma attempt_once_requests src_path st last_chance s :
  I s ->
  wpn I (fun s (_ : Blob) => I s) (fun s e => I s /\ own_missing src_path e)
      (attempt_requests last_chance)
      (attempt_once env config src_path st last_chance s).
Proof.
  intros Hs.
  unfold attempt_requests, attempt_once, attempt_finish, attempt_select, attempt_dedup,
    attempt_write, make_temp_file, copy_file_fast, SourceFileNotFound_open_rb, wrap,
    open_rb, calc_file_hash, calc_file_size_and_hash, dedup_by_hash, bp_rba,
    copy_compressed, create_blob, write_file, write_compressed, check_changes,
    os_replace, assert_true, add_remove_file_rollbacker, env_step.
  destruct last_chance; cbn; wpn_run.
  all: try done.
  all: try (split; [frame_leaf | own_leaf]).
  all: try frame_leaf.
Qed.

Lemma lstat_requests p s :
  I s ->
  wpn I (fun s (_ : stat_result) => I s)
      (fun s e => I s /\ e = FileNotFoundError p) 0 (lstat env p s).
Proof.
  intros Hs. unfold lstat, bind, env_step, modify. cbn.
  change (set_env_tick (S (env_tick s))
            (set_disk (fun d => fold_left apply_event (src_events env (env_tick s)) d) s))
    with (env_act env s).
  destruct (_ !! p); constructor; [|split; [|done]]; by apply env_act_frame.
Qed.

Lemma retry_loop_requests src_path n i st s :
  I s ->
  wpn I (fun s (_ : Blob * stat_result) => I s)
      (fun s e => I s /\ (e = FileNotFoundError src_path \/ own_missing src_path e))
      (retry_requests n i)
      (retry_loop env (attempt_once env config src_path) src_path n i st s).
Proof.
  revert i st s. induction n as [|n IH]; intros i st s Hs.
  - constructor. split; [done|]. right. by intros p [=].
  - rewrite retry_loop_unfold. cbn [retry_requests]. unfold catch.
    eapply wpn_catch with (E' := fun s e => I s /\ own_missing src_path e).
    + unfold bind.
      replace (attempt_requests (i + 1 =? BLOB_FILE_CHANGED_RETRY_COUNT)%nat)
        with (attempt_requests (i + 1 =? BLOB_FILE_CHANGED_RETRY_COUNT) + 0)%nat by lia.
      eapply wpn_bind; [by apply attempt_once_requests|].
      intros s1 blob Hs1. cbn in Hs1 |- *. constructor. frame_leaf.
    + intros s1 e [Hs1 He].
      destruct e; try (constructor; split; [done | by right]).
      unfold bind. change (retry_requests n (S i)) with (0 + retry_requests n (S i))%nat.
      eapply wpn_bind.
      * eapply wpn_mono; [by apply lstat_requests | done | done |].
        intros s2 e [Hs2 ->]. cbn. split; [done | by left].
      * intros s2 st' Hs2. by apply IH.
Qed.

Lemma create_file_requests path s :
  I s -> task_ok I Qd path FILE_REQUESTS (create_file env config path s).
Proof.
  intros Hs. unfold task_ok, create_file, bind, get_state, pop_stat. cbn.
  destruct (reused_files s !! path) as [f|] eqn:Hf.
  { constructor. split; [done|]. by eapply Qd_reused. }
  cbn.
  assert (Hs1 : I (set_stats (delete path) s)) by frame_leaf.
  revert Hs1. generalize (set_stats (delete path) s). intros s1 Hs1.
  eapply (wpn_bind I (fun s _ => I s) _ _ 0 FILE_REQUESTS).
  - destruct (stats s !! path); [by constructor|].
    unfold wrap, catch.
    eapply (wpn_catch I _ _ _ 0 0); [by apply lstat_requests|].
    intros s2 e [Hs2 ->]. cbn. constructor. split; [done|]. by intros p [= <-].
  - intros s2 st Hs2. cbn.
    eapply (wpn_bind I (fun s _ => I s) _ _ FILE_REQUESTS 0).
    + destruct (S_ISREG (st_mode st)).
      * eapply (wpn_bind I (fun s _ => I s) _ _ FILE_REQUESTS 0).
        -- eapply wpn_mono; [by apply retry_loop_requests | done | done |].
           (* a bare FileNotFoundError is not a _SourceFileNotFound *)
           intros s3 e [Hs3 [->|He]]; (split; [done|]); [by intros p [=] | done].
        -- intros s3 [blob st'] Hs3. by constructor.
      * destruct (S_ISDIR (st_mode st)); [by constructor|].
        destruct (S_ISLNK (st_mode st)).
        2:{ constructor. split; [done|]. by intros p [=]. }
        eapply (wpn_bind I (fun s _ => I s) _ _ 0 FILE_REQUESTS);
          [|intros; by constructor].
        unfold wrap, catch, readlink, encode_utf8, env_step, modify, bind. cbn.
        destruct (disk (env_act env s2) !! path) as [n|]; cbn;
          [destruct (S_ISLNK (n_mode n)); cbn;
           [destruct (utf8_valid (n_data n)); cbn|]|];
          constructor; try (by apply env_act_frame);
          (split; [by apply env_act_frame|]); intros p Hp; by simplify_eq.
    + intros s3 [[blob content] st'] Hs3. unfold file_path_to_db_path.
      destruct (relative_to_source path) eqn:Hrel; constructor.
      * split; [done|]. by apply Qd_new.
      * split; [done|]. by intros p [=].
Qed.

End TaskBound.

(** ** The tasks of a run: none is lost, none runs for ever *)

Lemma sum_list_with_perm {A} (f : A -> nat) (l l' : list A) :
  l ≡ₚ l' -> sum_list_with f l = sum_list_with f l'.
Proof. induction 1; cbn; lia. Qed.

Lemma ledger_same_refl G : ledger_same G G.
Proof. by repeat split. Qed.

Lemma ledger_same_trans G1 G2 G3 :
  ledger_same G1 G2 -> ledger_same G2 G3 -> ledger_same G1 G3.
Proof.
  intros (H1 & H2 & H3) (H4 & H5 & H6). repeat split; [congruence | congruence|].
  by rewrite H6.
Qed.

Lemma ledger_same_paths G G' : ledger_same G G' -> ledger_paths G' ≡ₚ ledger_paths G.
Proof. intros (H1 & H2 & H3). unfold ledger_paths. by rewrite H1, H2, H3. Qed.

Lemma ledger_same_cost G G' : ledger_same G G' -> ledger_cost G' = ledger_cost G.
Proof. intros (_ & _ & H3). unfold ledger_cost. by apply sum_list_with_perm. Qed.

Section Accounting.

Variable env : Env.
Variable config : Config.
Variable I : State -> Prop.
Variable Qd : Path -> File -> Prop.

Hypothesis I_frame : forall s s', reused_files s' = reused_files s -> I s -> I s'.

Ltac frame_leaf :=
  match goal with
  | H : I ?s |- I _ => apply (I_frame s); [|exact H]; cbn; reflexivity
  end.

Lemma callback_lab l g : gen_lab I Qd l g -> cb_lab I Qd l (callback g).
Proof. intros Hg rsp q. exists g. by split. Qed.

(** [_batch_run] puts the tasks of the batch at the front of the deque, in
    the order they were queued. *)
Lemma run_callbacks_lab {K V} `{Countable K} (result : gmap K V) mk_rsp
    (l : list (K * Callback)) labs q qlabs q' :
  Forall2 (fun t l => cb_lab I Qd l (snd t)) l labs ->
  Forall2 (fun gv l => gen_lab I Qd l (fst gv)) q qlabs ->
  run_callbacks result mk_rsp (reverse l) q = Some q' ->
  Forall2 (fun gv l => gen_lab I Qd l (fst gv)) q' (labs ++ qlabs).
Proof.
  revert labs q qlabs. induction l as [|[key cb] l IH] using rev_ind;
    intros labs q qlabs Hl Hq.
  - apply Forall2_nil_inv_l in Hl as ->. cbn. by intros [= <-].
  - apply Forall2_app_inv_l in Hl as (labs0 & labs1 & Hl0 & Hl1 & ->).
    apply Forall2_cons_inv_l in Hl1 as (lab & labs2 & Hcb & Hnil & ->).
    apply Forall2_nil_inv_l in Hnil as ->.
    rewrite reverse_app. cbn [reverse rev_append app run_callbacks].
    change (rev_append [] [(key, cb)]) with [(key, cb)]. cbn.
    destruct (result !! key) as [v|]; [|done].
    cbn in Hcb. destruct (Hcb (mk_rsp v) q) as (g & -> & Hg). intros Hrun.
    rewrite <- app_assoc. cbn.
    eapply IH; [exact Hl0 | | exact Hrun]. by constructor.
Qed.

Lemma ledger_inv_world c G s :
  ledger_inv config I Qd c G -> I s -> ledger_inv config I Qd (set_world s c) G.
Proof. intros (Hw & _ & H) Hs. by split. Qed.

Lemma size_batch_run_lab c G :
  ledger_inv config I Qd c G ->
  exists c' G', size_batch_run c = COk c' /\ ledger_inv config I Qd c' G' /\
                ledger_same G G'.
Proof.
  intros ([Hws Hwh] & HI & Hq & Hts & Hth & Hd & Hsk).
  unfold size_batch_run, has_blob_with_size_batched.
  destruct (run_callbacks_total
    (list_to_map ((fun sz => (sz, has_blob_with_size (world c) sz))
                  <$> elements (keys (fetcher_size c))) : gmap Z bool)
    SizeRsp (reverse (tasks (fetcher_size c))) (schedule_queue c)) as [q' Hq'].
  { intros key cb Hin. rewrite elem_of_reverse in Hin.
    rewrite (batch_answer_lookup (has_blob_with_size (world c))); [by eexists|].
    by eapply Hws. }
  rewrite Hq'.
  eexists _, {| l_queue := l_size G ++ l_queue G; l_size := []; l_hash := l_hash G;
                l_done := l_done G; l_skipped := l_skipped G |}.
  split; [reflexivity|]. split.
  - split; [split; [by apply fetcher_wf_cleared | exact Hwh]|].
    split; [cbn; frame_leaf|].
    split; [cbn; by eapply run_callbacks_lab|].
    split; [by constructor|]. by repeat split.
  - split; [done|]. split; [done|]. unfold ledger_pending. cbn.
    solve_Permutation.
Qed.

Lemma hash_batch_run_lab c G :
  ledger_inv config I Qd c G ->
  exists c' G', hash_batch_run c = COk c' /\ ledger_inv config I Qd c' G' /\
                ledger_same G G'.
Proof.
  intros ([Hws Hwh] & HI & Hq & Hts & Hth & Hd & Hsk).
  unfold hash_batch_run, get_blobs.
  destruct (run_callbacks_total
    (list_to_map ((fun h => (h, db_blobs (world c) !! h))
                  <$> elements (keys (fetcher_hash c))) : gmap Hash (option Blob))
    HashRsp (reverse (tasks (fetcher_hash c))) (schedule_queue c)) as [q' Hq'].
  { intros key cb Hin. rewrite elem_of_reverse in Hin.
    rewrite (batch_answer_lookup (fun h => db_blobs (world c) !! h)); [by eexists|].
    by eapply Hwh. }
  rewrite Hq'.
  eexists _, {| l_queue := l_hash G ++ l_queue G; l_size := l_size G; l_hash := [];
                l_done := l_done G; l_skipped := l_skipped G |}.
  split; [reflexivity|]. split.
  - split; [split; [exact Hws | by apply fetcher_wf_cleared]|].
    split; [cbn; frame_leaf|].
    split; [cbn; by eapply run_callbacks_lab|].
    split; [done|]. split; [by constructor|]. by split.
  - split; [done|]. split; [done|]. unfold ledger_pending. cbn.
    solve_Permutation.
Qed.

Lemma flush_if_needed_lab {K} `{Countable K} (get_fetcher : Coord -> Fetcher K)
    (batch_run : Coord -> CRes) c G :
  (forall c G, ledger_inv config I Qd c G ->
     exists c' G', batch_run c = COk c' /\ ledger_inv config I Qd c' G' /\
                   ledger_same G G') ->
  ledger_inv config I Qd c G ->
  exists c' G', flush_if_needed env get_fetcher batch_run c = COk c' /\
                ledger_inv config I Qd c' G' /\ ledger_same G G'.
Proof.
  intros Hrun Hc. unfold flush_if_needed.
  destruct (0 <? _)%nat; [|exists c, G; by auto using ledger_same_refl].
  destruct (_ <=? _)%nat; [by apply Hrun|].
  assert (Hc' : ledger_inv config I Qd (snd (time_time env c)) G).
  { cbn. apply ledger_inv_world; [done|]. destruct Hc as (_ & HI & _). frame_leaf. }
  destruct (time_time env c) as [now c1]. cbn [snd] in Hc'.
  destruct (Qle_bool _ _); [by apply Hrun|].
  exists c1, G. auto using ledger_same_refl.
Qed.

Lemma flush_lab {K} `{Countable K} (get_fetcher : Coord -> Fetcher K)
    (batch_run : Coord -> CRes) c G :
  (forall c G, ledger_inv config I Qd c G ->
     exists c' G', batch_run c = COk c' /\ ledger_inv config I Qd c' G' /\
                   ledger_same G G') ->
  ledger_inv config I Qd c G ->
  exists c' G', flush get_fetcher batch_run c = COk c' /\
                ledger_inv config I Qd c' G' /\ ledger_same G G'.
Proof.
  intros Hrun Hc. unfold flush.
  destruct (0 <? _)%nat; [by apply Hrun|]. exists c, G. auto using ledger_same_refl.
Qed.

Lemma bqm_flush_if_needed_lab c G :
  ledger_inv config I Qd c G ->
  exists c' G', bqm_flush_if_needed env c = COk c' /\
                ledger_inv config I Qd c' G' /\ ledger_same G G'.
Proof.
  intros Hc. unfold bqm_flush_if_needed.
  destruct (flush_if_needed_lab fetcher_size size_batch_run c G size_batch_run_lab Hc)
    as (c1 & G1 & -> & Hc1 & HG1).
  cbn [cbind].
  destruct (flush_if_needed_lab fetcher_hash hash_batch_run c1 G1 hash_batch_run_lab Hc1)
    as (c2 & G2 & -> & Hc2 & HG2).
  exists c2, G2. split; [done|]. split; [done|]. by eapply ledger_same_trans.
Qed.

Lemma bqm_flush_lab c G :
  ledger_inv config I Qd c G ->
  exists c' G', bqm_flush c = COk c' /\
                ledger_inv config I Qd c' G' /\ ledger_same G G'.
Proof.
  intros Hc. unfold bqm_flush.
  destruct (flush_lab fetcher_size size_batch_run c G size_batch_run_lab Hc)
    as (c1 & G1 & -> & Hc1 & HG1).
  cbn [cbind].
  destruct (flush_lab fetcher_hash hash_batch_run c1 G1 hash_batch_run_lab Hc1)
    as (c2 & G2 & -> & Hc2 & HG2).
  exists c2, G2. split; [done|]. split; [done|]. by eapply ledger_same_trans.
Qed.

Lemma bqm_query_lab query cb lab c G :
  ledger_inv config I Qd c G -> cb_lab I Qd lab cb ->
  exists c' G', bqm_query env query cb c = COk c' /\ ledger_inv config I Qd c' G' /\
    l_done G' = l_done G /\ l_skipped G' = l_skipped G /\
    ledger_pending G' ≡ₚ lab :: ledger_pending G.
Proof.
  intros ([Hws Hwh] & HI & Hq & Hts & Hth & Hd & Hsk) Hcb.
  destruct query as [size|h]; cbn [bqm_query]; unfold fetcher_query, post_query;
    cbn [time_time fetcher_size fetcher_hash set_world set_fetcher_size
         set_fetcher_hash tasks keys max_batch_size first_task_scheduled_time world].
  - match goal with
    | |- exists c' G', flush_if_needed _ _ _ ?c1 = _ /\ _ =>
        destruct (flush_if_needed_lab fetcher_size size_batch_run c1
                    {| l_queue := l_queue G; l_size := l_size G ++ [lab];
                       l_hash := l_hash G; l_done := l_done G;
                       l_skipped := l_skipped G |} size_batch_run_lab)
          as (c' & G' & Hc' & Hinv & (H1 & H2 & H3))
    end.
    { destruct (length _ =? 1)%nat; unfold ledger_inv, coord_wf; cbn.
      all: repeat split; try done; try (by apply fetcher_wf_enqueue);
        try frame_leaf.
      all: apply Forall2_app; [done | by constructor]. }
    exists c', G'. split; [exact Hc'|]. split; [exact Hinv|].
    split; [exact H1|]. split; [exact H2|]. rewrite H3. unfold ledger_pending. cbn.
    solve_Permutation.
  - match goal with
    | |- exists c' G', flush_if_needed _ _ _ ?c1 = _ /\ _ =>
        destruct (flush_if_needed_lab fetcher_hash hash_batch_run c1
                    {| l_queue := l_queue G; l_size := l_size G;
                       l_hash := l_hash G ++ [lab]; l_done := l_done G;
                       l_skipped := l_skipped G |} hash_batch_run_lab)
          as (c' & G' & Hc' & Hinv & (H1 & H2 & H3))
    end.
    { destruct (length _ =? 1)%nat; unfold ledger_inv, coord_wf; cbn.
      all: repeat split; try done; try (by apply fetcher_wf_enqueue);
        try frame_leaf.
      all: apply Forall2_app; [done | by constructor]. }
    exists c', G'. split; [exact Hc'|]. split; [exact Hinv|].
    split; [exact H1|]. split; [exact H2|]. rewrite H3. unfold ledger_pending. cbn.
    solve_Permutation.
Qed.

(** One iteration of the coordinator loop: the task popped is accounted
    for, and the pending tasks have one iteration less to take. *)
Lemma schedule_step_lab gen value lab c G :
  ledger_inv config I Qd c G -> gen_lab I Qd lab gen ->
  match schedule_step env config gen value c with
  | COk c' =>
      exists G', ledger_inv config I Qd c' G' /\
                 ledger_paths G' ≡ₚ fst lab :: ledger_paths G /\
                 (ledger_cost G' <= snd lab + ledger_cost G)%nat
  | CErr _ _ => True
  end.
Proof.
  intros Hc Hgen. unfold schedule_step.
  pose proof Hc as ([Hws Hwh] & HI & Hq & Hts & Hth & Hd & Hsk).
  pose proof (Hgen value (world c) HI) as Hwp. unfold task_ok in Hwp.
  destruct lab as [p m]. cbn [fst snd] in *.
  match goal with
  | |- match cbind ?r _ with _ => _ end =>
      assert (H1 : match r with
                   | COk c1 =>
                       exists G1, ledger_inv config I Qd c1 G1 /\
                                  ledger_paths G1 ≡ₚ p :: ledger_paths G /\
                                  (ledger_cost G1 <= m + ledger_cost G)%nat
                   | CErr _ _ => True
                   end)
  end.
  { inversion Hwp as [n s f [HIs HQ] Hn Heq|n s e [HIs Hown] Hn Heq
                     |n s q k HIs Hk Hn Heq]; subst.
    - exists {| l_queue := l_queue G; l_size := l_size G; l_hash := l_hash G;
                l_done := l_done G ++ [p]; l_skipped := l_skipped G |}.
      split; [|split].
      + unfold ledger_inv. cbn. repeat split; try done.
        apply Forall2_app; [done | by constructor].
      + unfold ledger_paths, ledger_pending. cbn. solve_Permutation.
      + unfold ledger_cost, ledger_pending. cbn. lia.
    - destruct e; try exact Logic.I.
      match goal with
      | Hown' : own_missing p (SourceFileNotFound ?fp) |- _ =>
          pose proof (Hown' fp eq_refl) as ->
      end.
      destruct (should_skip_missing_source_file config p) eqn:Hskip;
        [|exact Logic.I].
      exists {| l_queue := l_queue G; l_size := l_size G; l_hash := l_hash G;
                l_done := l_done G; l_skipped := p :: l_skipped G |}.
      split; [|split].
      + unfold ledger_inv. cbn. repeat split; try done. by constructor.
      + unfold ledger_paths, ledger_pending. cbn. solve_Permutation.
      + unfold ledger_cost, ledger_pending. cbn. lia.
    - destruct (bqm_query_lab q (callback k) (p, n) (set_world s c) G)
        as (c1 & G1 & -> & Hc1 & Hd1 & Hs1 & Hp1).
      { by apply ledger_inv_world. }
      { apply callback_lab. intros v s' Hs'. by apply Hk. }
      exists G1. split; [exact Hc1|]. split.
      + unfold ledger_paths. rewrite Hd1, Hs1, Hp1. cbn. solve_Permutation.
      + unfold ledger_cost. rewrite (sum_list_with_perm _ _ _ Hp1). cbn. lia. }
  match goal with
  | |- match cbind ?r _ with _ => _ end => destruct r as [c1|c1 e]; [|exact Logic.I]
  end.
  cbn [cbind]. destruct H1 as (G1 & Hc1 & Hp1 & Hcost1).
  destruct (bqm_flush_if_needed_lab c1 G1 Hc1) as (c2 & G2 & -> & Hc2 & HG2).
  cbn [cbind].
  destruct (schedule_queue c2).
  - destruct (bqm_flush_lab c2 G2 Hc2) as (c3 & G3 & -> & Hc3 & HG3).
    exists G3. split; [exact Hc3|].
    pose proof (ledger_same_trans _ _ _ HG2 HG3) as HG.
    rewrite (ledger_same_paths _ _ HG), (ledger_same_cost _ _ HG). by split.
  - exists G2. split; [exact Hc2|].
    rewrite (ledger_same_paths _ _ HG2), (ledger_same_cost _ _ HG2). by split.
Qed.

(** The coordinator loop, by what it ends in: when it finishes, every
    task has returned its row or was skipped; it runs out of fuel only
    when the fuel is below what the pending tasks can take. *)
Lemma schedule_loop_lab fuel c G :
  ledger_inv config I Qd c G ->
  (schedule_queue c = [] ->
   tasks (fetcher_size c) = [] /\ tasks (fetcher_hash c) = []) ->
  match schedule_loop env config fuel c with
  | Finished c' =>
      exists done skipped,
        ledger_paths G ≡ₚ done ++ skipped /\
        Forall2 Qd done (files c') /\
        Forall (fun p => should_skip_missing_source_file config p = true) skipped
  | Failed _ _ => True
  | OutOfFuel _ => (fuel < ledger_cost G)%nat
  end.
Proof.
  revert c G. induction fuel as [|fuel IH]; intros c G Hc Hempty; cbn [schedule_loop];
    pose proof Hc as (Hw & HI & Hq & Hts & Hth & Hd & Hsk);
    destruct (schedule_queue c) as [|[gen value] rest] eqn:Hqc.
  1,3: destruct (Hempty eq_refl) as [Ht1 Ht2]; rewrite Ht1 in Hts; rewrite Ht2 in Hth;
       apply Forall2_nil_inv_l in Hq, Hts, Hth;
       exists (l_done G), (l_skipped G); split; [|by split];
       unfold ledger_paths, ledger_pending; rewrite Hq, Hts, Hth; cbn;
       by rewrite app_nil_r.
  - apply Forall2_cons_inv_l in Hq as (lab & labs & _ & _ & HG).
    unfold ledger_cost, ledger_pending. rewrite HG. cbn. lia.
  - apply Forall2_cons_inv_l in Hq as (lab & labs & Hgen & Hrest & HG).
    set (G0 := {| l_queue := labs; l_size := l_size G; l_hash := l_hash G;
                  l_done := l_done G; l_skipped := l_skipped G |}).
    assert (Hc0 : ledger_inv config I Qd (set_schedule_queue rest c) G0).
    { unfold ledger_inv. cbn. by repeat split; try apply Hw. }
    assert (HpG : ledger_paths G ≡ₚ fst lab :: ledger_paths G0).
    { unfold ledger_paths, ledger_pending. rewrite HG. cbn. solve_Permutation. }
    assert (HcG : ledger_cost G = S (snd lab + ledger_cost G0)).
    { unfold ledger_cost, ledger_pending. rewrite HG. cbn. lia. }
    pose proof (schedule_step_lab gen value lab (set_schedule_queue rest c) G0 Hc0 Hgen)
      as Hstep.
    pose proof (schedule_step_wf env config gen value (set_schedule_queue rest c)) as Hwf.
    destruct (schedule_step env config gen value (set_schedule_queue rest c))
      as [c'|c' e]; [|exact Logic.I].
    destruct Hstep as (G' & Hc' & Hp' & Hcost').
    destruct (Hwf c' Hw eq_refl) as [_ Hempty'].
    specialize (IH c' G' Hc' Hempty').
    destruct (schedule_loop env config fuel c') as [c''|c'' e|c''].
    + destruct IH as (done & skipped & Hp & Hdone & Hskipped).
      exists done, skipped. split; [|by split]. by rewrite HpG, <- Hp', Hp.
    + exact Logic.I.
    + lia.
Qed.

Hypothesis I_task : forall path s,
  I s -> task_ok I Qd path FILE_REQUESTS (create_file env config path s).
Hypothesis I_reuse : forall all_files s s' u,
  I s -> reuse_unchanged_files all_files s = Done s' u -> I s'.
Hypothesis I_pre_hash : forall all_files s s' u,
  I s -> pre_calculate_hash env all_files s = Done s' u -> I s'.

Lemma create_backup_lab fuel all_files c :
  coord_wf c -> I (world c) -> files c = [] ->
  tasks (fetcher_size c) = [] -> tasks (fetcher_hash c) = [] ->
  match create_backup env config fuel all_files c with
  | Finished c' =>
      exists done skipped,
        entry_path <$> all_files ≡ₚ done ++ skipped /\
        Forall2 Qd done (files c') /\
        Forall (fun p => should_skip_missing_source_file config p = true) skipped
  | Failed _ _ => True
  | OutOfFuel _ => (fuel < S FILE_REQUESTS * length all_files)%nat
  end.
Proof.
  intros Hw HI Hf Hts Hth. unfold create_backup, call. cbn [world set_world].
  assert (H1 : I (pre_calculate_stats all_files (world c))).
  { unfold pre_calculate_stats. frame_leaf. }
  destruct ((if reuse_stat_unchanged_file config
             then reuse_unchanged_files all_files else ret tt)
              (pre_calculate_stats all_files (world c))) as [s1 u1|s1 e1|s1 q1 k1] eqn:Hr;
    [|exact Logic.I|exact Logic.I].
  assert (H2 : I s1).
  { destruct (reuse_stat_unchanged_file config).
    - by eapply I_reuse.
    - by injection Hr as <- _. }
  cbn [world set_world].
  destruct ((if 1 <? get_effective_concurrency config
             then pre_calculate_hash env all_files else ret tt) s1)
    as [s2 u2|s2 e2|s2 q2 k2] eqn:Hh; [|exact Logic.I|exact Logic.I].
  assert (H3 : I s2).
  { destruct (1 <? get_effective_concurrency config).
    - by eapply I_pre_hash.
    - by injection Hh as <- _. }
  cbn [world set_world].
  set (G := {| l_queue := (fun e => (entry_path e, FILE_REQUESTS)) <$> all_files;
               l_size := []; l_hash := []; l_done := []; l_skipped := [] |}).
  match goal with
  | |- match schedule_loop _ _ _ ?c0 with _ => _ end =>
      pose proof (schedule_loop_lab fuel c0 G) as Hloop
  end.
  assert (Hpaths : ledger_paths G = entry_path <$> all_files).
  { unfold ledger_paths, ledger_pending. cbn. rewrite !app_nil_r, <- list_fmap_compose.
    done. }
  assert (Hcost : ledger_cost G = (S FILE_REQUESTS * length all_files)%nat).
  { unfold ledger_cost, ledger_pending. cbn [l_queue l_size l_hash G]. rewrite !app_nil_r.
    clear. induction all_files as [|e l IH]; [cbn; lia|].
    rewrite fmap_cons. cbn [sum_list_with length snd]. rewrite IH. lia. }
  rewrite Hpaths, Hcost in Hloop. apply Hloop.
  - unfold ledger_inv. cbn. rewrite Hf, Hts, Hth.
    split; [exact Hw|]. split; [frame_leaf|]. repeat split; try constructor.
    apply Forall2_fmap, Forall_Forall2_diag, Forall_forall.
    intros e _ v s Hs. cbn. by apply I_task.
  - cbn. by rewrite Hts, Hth.
Qed.

Lemma run_lab fuel all_files s :
  I s ->
  match run env config fuel all_files s with
  | Finished c' =>
      exists done skipped,
        entry_path <$> all_files ≡ₚ done ++ skipped /\
        Forall2 Qd done (files c') /\
        Forall (fun p => should_skip_missing_source_file config p = true) skipped
  | Failed _ _ => True
  | OutOfFuel _ => (fuel < S FILE_REQUESTS * length all_files)%nat
  end.
Proof.
  intros Hs. unfold run.
  pose proof (create_backup_lab fuel all_files
    (new_coord env (set_blob_by_hash_cache (fun _ => ∅)
                      (set_blob_by_size_cache (fun _ => ∅) s)))) as H.
  destruct (create_backup _ _ _ _ _) as [c|c e|c]; try exact Logic.I.
  all: apply H; try done.
  all: try (split; by intros ? ? ?%elem_of_nil).
  all: unfold new_coord; cbn; frame_leaf.
Qed.

End Accounting.

(** ** The requests of a task and the end of the loop *)

Lemma reused_ok_frame s s' :
  reused_files s' = reused_files s -> reused_ok s -> reused_ok s'.
Proof. unfold reused_ok. by intros ->. Qed.

(** X1. The task of one file asks the batch query manager at most five
    times before it returns its row or raises, however the answers come:
    at most twice in each of the first two attempts and once in the last;
    a [_SourceFileNotFound] it raises carries its own path. *)
Theorem create_file_asks_at_most_five_times
    (env : Env) (config : Config) (path : Path) (s : State) :
  wpn (fun _ => True) (fun _ (_ : File) => True) (fun _ e => own_missing path e)
      5 (create_file env config path s) /\
  (forall st (last_chance : bool) s0,
     wpn (fun _ => True) (fun _ (_ : Blob) => True) (fun _ e => own_missing path e)
         (if last_chance then 1 else 2)%nat
         (attempt_once env config path st last_chance s0)).
Proof.
  split.
  - eapply wpn_mono.
    + apply (create_file_requests env config (fun _ => True) (fun _ _ => True));
        auto.
    + done.
    + done.
    + by intros s0 e [_ He].
  - intros st last_chance s0. eapply wpn_mono.
    + by apply (attempt_once_requests env config (fun _ => True)).
    + done.
    + done.
    + by intros s1 e [_ He].
Qed.

(** X2. The coordinator loop ends: with six iterations for each scanned
    entry (five requests and the final resumption) a run is never cut
    short. *)
Theorem run_ends_within_six_iterations_per_file
    (env : Env) (config : Config) (fuel : nat) (all_files : list ScanResultEntry)
    (s : State) :
  (6 * length all_files <= fuel)%nat ->
  forall c, run env config fuel all_files s <> OutOfFuel c.
Proof.
  intros Hfuel c Hrun.
  unshelve epose proof (run_lab env config (fun _ => True) (fun _ _ => True)
                          _ _ _ _ fuel all_files s Logic.I) as H; try done.
  { intros path s0 _. by apply create_file_requests. }
  rewrite Hrun in H. change (S FILE_REQUESTS) with 6%nat in H. lia.
Qed.

Lemma run_ends_within_six_iterations_per_file_witness :
  (6 * length order_scan <= 12)%nat /\
  ~ exists c, run quiet_env plain_config 12 order_scan (state_of_disk order_disk)
              = OutOfFuel c.
Proof.
  assert (Hfuel : (6 * length order_scan <= 12)%nat) by (cbn; lia).
  split; [exact Hfuel|]. intros [c Hc].
  exact (run_ends_within_six_iterations_per_file quiet_env plain_config 12 order_scan
           (state_of_disk order_disk) Hfuel c Hc).
Defined.

(** ** Reuse of unchanged files *)

Lemma stat_to_files_of_mem backup_files acc key file :
  (key, file) ∈ fold_left
     (fun acc file =>
        if S_ISREG (file_mode file) then (stat_key_of_file file, file) :: acc else acc)
     backup_files acc ->
  (key, file) ∈ acc \/
  (file ∈ backup_files /\ S_ISREG (file_mode file) = true /\ key = stat_key_of_file file).
Proof.
  revert acc. induction backup_files as [|x l IH]; intros acc; cbn; [by left|].
  intros [Hin|(Hin & Hreg & Hkey)]%IH.
  - destruct (S_ISREG (file_mode x)) eqn:Hx; [|by left].
    apply elem_of_cons in Hin as [[= -> ->]|Hin]; [|by left].
    right. split; [by left | done].
  - right. split; [by right | done].
Qed.

Lemma stat_to_files_get_mem backup_files key file :
  stat_to_files_get (stat_to_files_of backup_files) key = Some file ->
  file ∈ backup_files /\ S_ISREG (file_mode file) = true /\ key = stat_key_of_file file.
Proof.
  unfold stat_to_files_get, stat_to_files_of. intros Hget.
  destruct (list_find _ _) as [[i [k f]]|] eqn:Hfind; [|done].
  cbn in Hget. injection Hget as ->.
  apply list_find_Some in Hfind as (Hi & Hk & _). cbn in Hk. subst k.
  apply list_elem_of_lookup_2, stat_to_files_of_mem in Hi as [Hi|Hi]; [|done].
  by apply elem_of_nil in Hi.
Qed.

Lemma stat_to_files_of_complete backup_files acc file :
  file ∈ backup_files -> S_ISREG (file_mode file) = true ->
  (stat_key_of_file file, file) ∈ fold_left
     (fun acc file =>
        if S_ISREG (file_mode file) then (stat_key_of_file file, file) :: acc else acc)
     backup_files acc.
Proof.
  assert (Hmono : forall l acc (x : StatKey * File),
            x ∈ acc ->
            x ∈ fold_left
              (fun acc file =>
                 if S_ISREG (file_mode file)
                 then (stat_key_of_file file, file) :: acc else acc) l acc).
  { induction l as [|y l IH]; intros acc0 x Hx; cbn; [done|].
    apply IH. destruct (S_ISREG (file_mode y)); [by right | done]. }
  revert acc. induction backup_files as [|x l IH]; intros acc Hin Hreg; cbn.
  - by apply elem_of_nil in Hin.
  - apply elem_of_cons in Hin as [->|Hin]; [|by apply IH].
    apply Hmono. rewrite Hreg. by left.
Qed.

Lemma stat_to_files_get_complete backup_files file :
  file ∈ backup_files -> S_ISREG (file_mode file) = true ->
  exists file', stat_to_files_get (stat_to_files_of backup_files) (stat_key_of_file file)
                = Some file'.
Proof.
  intros Hin Hreg. unfold stat_to_files_get, stat_to_files_of.
  pose proof (stat_to_files_of_complete backup_files [] file Hin Hreg) as Hmem.
  destruct (list_find_elem_of (fun kf => fst kf = stat_key_of_file file) _ _ Hmem eq_refl)
    as [[i [k f]] ->].
  by eexists.
Qed.

(** What the scan of [__reuse_unchanged_files] leaves: only the dict of
    reused rows changes, and a row it adds is the row the table holds for
    the key of a regular scanned entry. *)
Lemma reuse_scan_spec d all_files s s' u :
  reuse_scan d all_files s = Done s' u ->
  s' = set_reused_files (fun _ => reused_files s') s /\
  (forall p f, reused_files s' !! p = Some f ->
     reused_files s !! p = Some f \/
     exists e rel, e ∈ all_files /\ entry_path e = p /\ is_file e = true /\
       relative_to_source p = Some rel /\
       stat_to_files_get d (stat_key_of_entry rel (entry_stat e)) = Some f) /\
  (forall e rel f, e ∈ all_files -> is_file e = true ->
     relative_to_source (entry_path e) = Some rel ->
     stat_to_files_get d (stat_key_of_entry rel (entry_stat e)) = Some f ->
     is_Some (reused_files s' !! entry_path e)) /\
  (forall p, is_Some (reused_files s !! p) -> is_Some (reused_files s' !! p)).
Proof.
  revert s. induction all_files as [|e rest IH]; intros s; cbn.
  - intros [= <- _]. split; [by destruct s|]. split; [by left|].
    split; [by intros ? ? ? ?%elem_of_nil | done].
  - unfold bind. destruct (is_file e) eqn:Hfile; cbn.
    + unfold file_path_to_db_path.
      destruct (relative_to_source (entry_path e)) as [rel|] eqn:Hrel; cbn; [|done].
      destruct (stat_to_files_get d (stat_key_of_entry rel (entry_stat e)))
        as [file|] eqn:Hget; cbn.
      * intros Hrest. destruct (IH _ Hrest) as (Heq & Hsound & Hcompl & Hmono).
        split; [rewrite Heq at 1; by destruct s|]. split; [|split].
        -- intros p f [Hold|(e' & rel' & Hin & ?)]%Hsound.
           ++ cbn in Hold. destruct (decide (entry_path e = p)) as [<-|Hne].
              ** rewrite lookup_insert_eq in Hold. injection Hold as <-.
                 right. exists e, rel. split; [by left | done].
              ** rewrite lookup_insert_ne in Hold by done. by left.
           ++ right. exists e', rel'. split; [by right | done].
        -- intros e' rel' f' [->|Hin]%elem_of_cons Hf' Hrel' Hget'.
           ++ apply Hmono. cbn. rewrite lookup_insert_eq. by eexists.
           ++ by eapply Hcompl.
        -- intros p Hp. apply Hmono. cbn.
           destruct (decide (entry_path e = p)) as [<-|Hne].
           ++ rewrite lookup_insert_eq. by eexists.
           ++ by rewrite lookup_insert_ne.
      * intros Hrest. destruct (IH _ Hrest) as (Heq & Hsound & Hcompl & Hmono).
        split; [done|]. split; [|split; [|done]].
        -- intros p f [Hold|(e' & rel' & Hin & ?)]%Hsound; [by left|].
           right. exists e', rel'. split; [by right | done].
        -- intros e' rel' f' [->|Hin]%elem_of_cons Hf' Hrel' Hget'.
           ++ congruence.
           ++ by eapply Hcompl.
    + intros Hrest. destruct (IH _ Hrest) as (Heq & Hsound & Hcompl & Hmono).
      split; [done|]. split; [|split; [|done]].
      * intros p f [Hold|(e' & rel' & Hin & ?)]%Hsound; [by left|].
        right. exists e', rel'. split; [by right | done].
      * intros e' rel' f' [->|Hin]%elem_of_cons Hf' Hrel' Hget'.
        -- congruence.
        -- by eapply Hcompl.
Qed.

Lemma reuse_unchanged_files_ok all_files s s' u :
  reused_ok s -> reuse_unchanged_files all_files s = Done s' u -> reused_ok s'.
Proof.
  intros Hs. unfold reuse_unchanged_files, bind, get_state. cbn.
  destruct (db_last_backup_files s) as [backup_files|]; [|by intros [= <- _]].
  intros (_ & Hsound & _)%reuse_scan_spec p f [Hold|(e & rel & _ & _ & _ & Hrel & Hget)]%Hsound.
  - by apply Hs.
  - apply stat_to_files_get_key in Hget. unfold row_of. rewrite Hrel.
    apply (f_equal key_path) in Hget. cbn in Hget. by rewrite Hget.
Qed.

Lemma hash_files_reused env existed_sizes entries s s' u :
  hash_files env existed_sizes entries s = Done s' u ->
  reused_files s' = reused_files s.
Proof.
  revert s. induction entries as [|e rest IH]; intros s; cbn; [by intros [= <- _]|].
  destruct (existed_sizes !! _) as [[|]|]; [|by apply IH|done].
  unfold bind, calc_file_hash, open_rb, env_step, modify. cbn.
  destruct (_ !! entry_path e); [|done]. cbn. intros Hrest.
  by rewrite (IH _ Hrest).
Qed.

Lemma pre_calculate_hash_reused env all_files s s' u :
  pre_calculate_hash env all_files s = Done s' u ->
  reused_files s' = reused_files s.
Proof.
  unfold pre_calculate_hash, bind, get_state, modify. cbn.
  by intros ->%hash_files_reused.
Qed.

(** X3. In a run that finishes, the File rows account for the scan: every
    scanned entry has its own row, filed under its path relative to the
    source root, or was skipped as a missing file under the skip-missing
    configuration; no entry is lost or doubled and no row is made up.
    With the skipping switched off every entry has its row. *)
Theorem finished_run_has_a_row_for_every_entry
    (env : Env) (config : Config) (fuel : nat) (all_files : list ScanResultEntry)
    (s : State) (c : Coord) :
  reused_ok s ->
  run env config fuel all_files s = Finished c ->
  exists done skipped,
    entry_path <$> all_files ≡ₚ done ++ skipped /\
    Forall2 row_of done (files c) /\
    Forall (fun p => should_skip_missing_source_file config p = true) skipped /\
    (creation_skip_missing_file config = false ->
     skipped = [] /\ length (files c) = length all_files).
Proof.
  intros Hs Hrun.
  unshelve epose proof (run_lab env config reused_ok row_of
                          _ _ _ _ fuel all_files s Hs) as H.
  { apply reused_ok_frame. }
  { intros path s0 Hs0. apply create_file_requests; [apply reused_ok_frame | | | done].
    - intros p rel st content blob Hrel. exact Hrel.
    - intros s1 p f Hs1 Hf. exact (Hs1 p f Hf). }
  { apply reuse_unchanged_files_ok. }
  { intros all s0 s1 u Hs0 Hh. eapply reused_ok_frame; [|exact Hs0].
    by eapply pre_calculate_hash_reused. }
  rewrite Hrun in H. destruct H as (done & skipped & Hperm & Hdone & Hskip).
  exists done, skipped. split; [done|]. split; [done|]. split; [done|].
  intros Hoff.
  assert (skipped = []) as ->.
  { destruct skipped as [|p l]; [done|].
    apply Forall_cons in Hskip as [Hp _].
    unfold should_skip_missing_source_file in Hp. by rewrite Hoff in Hp. }
  split; [done|].
  apply Forall2_length in Hdone. apply Permutation_length in Hperm.
  rewrite length_fmap, app_nil_r in Hperm. lia.
Qed.

Lemma reused_ok_fresh (d : gmap Path Node) : reused_ok (state_of_disk d).
Proof. intros p f Hpf. cbn in Hpf. by rewrite lookup_empty in Hpf. Qed.

Lemma finished_run_has_a_row_for_every_entry_witness :
  exists c done,
    run quiet_env plain_config 10 order_scan (state_of_disk order_disk) = Finished c /\
    entry_path <$> order_scan ≡ₚ done /\ Forall2 row_of done (files c).
Proof.
  assert (Hf : run_finished
                 (run quiet_env plain_config 10 order_scan (state_of_disk order_disk))
               = true) by (vm_compute; reflexivity).
  destruct (run quiet_env plain_config 10 order_scan (state_of_disk order_disk))
    as [c|c e|c] eqn:Hrun; [|discriminate Hf|discriminate Hf].
  destruct (finished_run_has_a_row_for_every_entry quiet_env plain_config 10
              order_scan (state_of_disk order_disk) c (reused_ok_fresh order_disk) Hrun)
    as (done & skipped & Hperm & Hdone & _ & Hoff).
  destruct (Hoff eq_refl) as [-> _].
  exists c, done. split; [reflexivity|]. split; [|exact Hdone].
  rewrite Hperm. apply Permutation_app_comm.
Defined.

Lemma copy_file_row_id (f : File) : copy_file_row f = f.
Proof. by destruct f. Qed.

(** X4. [__reuse_unchanged_files] changes nothing but the dict of reused
    rows.  A row it files under a path is a regular-file row of the last
    backup whose path, size, mode, owner and mtime (in microseconds) are
    those of a regular scanned entry of that path; every regular scanned
    entry that has such a row in the last backup is marked; and the task
    of a marked path returns the kept row as it is, without touching the
    disk or any other state. *)
Theorem reuse_marks_exactly_the_unchanged_regular_files
    (all_files : list ScanResultEntry) (s s' : State) (u : unit) :
  reuse_unchanged_files all_files s = Done s' u ->
  s' = set_reused_files (fun _ => reused_files s') s /\
  (db_last_backup_files s = None -> s' = s) /\
  (forall p f, reused_files s' !! p = Some f ->
     reused_files s !! p = Some f \/
     exists e backup_files,
       db_last_backup_files s = Some backup_files /\
       e ∈ all_files /\ entry_path e = p /\ S_ISREG (st_mode (entry_stat e)) = true /\
       f ∈ backup_files /\ S_ISREG (file_mode f) = true /\ row_of p f /\
       file_blob_raw_size f = Some (st_size (entry_stat e)) /\
       file_mode f = st_mode (entry_stat e) /\
       file_uid f = st_uid (entry_stat e) /\ file_gid f = st_gid (entry_stat e) /\
       file_mtime f = st_mtime_ns (entry_stat e) / 1000) /\
  (forall e backup_files f,
     db_last_backup_files s = Some backup_files ->
     e ∈ all_files -> S_ISREG (st_mode (entry_stat e)) = true ->
     f ∈ backup_files -> S_ISREG (file_mode f) = true -> row_of (entry_path e) f ->
     stat_key_of_file f = stat_key_of_entry (file_path f) (entry_stat e) ->
     is_Some (reused_files s' !! entry_path e)) /\
  (forall env config p f s0,
     reused_files s0 !! p = Some f -> create_file env config p s0 = Done s0 f).
Proof.
  intros Hrun. unfold reuse_unchanged_files, bind, get_state in Hrun. cbn in Hrun.
  destruct (db_last_backup_files s) as [backup_files|] eqn:Hlast.
  - apply reuse_scan_spec in Hrun as (Heq & Hsound & Hcompl & _).
    split; [exact Heq|]. split; [done|]. split; [|split].
    + intros p f [Hold|(e & rel & Hin & Hp & Hfile & Hrel & Hget)]%Hsound; [by left|].
      right. exists e, backup_files.
      apply stat_to_files_get_mem in Hget as (Hmem & Hreg & Hkey).
      split; [done|]. split; [done|]. split; [done|]. split; [exact Hfile|].
      split; [done|]. split; [done|].
      unfold row_of. rewrite Hrel.
      apply (f_equal key_path) in Hkey as Hk1. apply (f_equal key_size) in Hkey as Hk2.
      apply (f_equal key_mode) in Hkey as Hk3. apply (f_equal key_uid) in Hkey as Hk4.
      apply (f_equal key_gid) in Hkey as Hk5. apply (f_equal key_mtime_us) in Hkey as Hk6.
      cbn in Hk1, Hk2, Hk3, Hk4, Hk5, Hk6. by rewrite Hk1.
    + intros e bf f [= <-] Hin Hreg Hf Hfreg Hrow Hkey.
      destruct (stat_to_files_get_complete backup_files f Hf Hfreg) as [f' Hget].
      rewrite Hkey in Hget. by eapply Hcompl.
    + intros env config p f s0 Hf. unfold create_file, bind, get_state. cbn.
      rewrite Hf. cbn. by rewrite copy_file_row_id.
  - injection Hrun as <- _. split; [by destruct s|]. split; [done|]. split; [by left|].
    split; [done|].
    intros env config p f s0 Hf. unfold create_file, bind, get_state. cbn.
    rewrite Hf. cbn. by rewrite copy_file_row_id.
Qed.

Lemma reuse_marks_exactly_the_unchanged_regular_files_witness :
  reuse_unchanged_files order_scan reuse_state
  = Done (set_reused_files (fun _ => {[ SrcPath "a.txt" := kept_row ]}) reuse_state) tt /\
  set_reused_files (fun _ => {[ SrcPath "a.txt" := kept_row ]}) reuse_state
  = set_reused_files
      (fun _ => reused_files
                  (set_reused_files (fun _ => {[ SrcPath "a.txt" := kept_row ]})
                     reuse_state))
      reuse_state.
Proof.
  assert (H : reuse_unchanged_files order_scan reuse_state
              = Done (set_reused_files (fun _ => {[ SrcPath "a.txt" := kept_row ]})
                        reuse_state) tt) by (vm_compute; reflexivity).
  split; [exact H|].
  exact (proj1 (reuse_marks_exactly_the_unchanged_regular_files order_scan reuse_state
                  _ tt H)).
Defined.

(** ** Skipping a missing source file *)

Lemma size_batch_run_files c c' : size_batch_run c = COk c' -> files c' = files c.
Proof.
  unfold size_batch_run. destruct (has_blob_with_size_batched _ _) as [s1 existence].
  destruct (run_callbacks _ _ _ _); [|done]. by intros [= <-].
Qed.

Lemma hash_batch_run_files c c' : hash_batch_run c = COk c' -> files c' = files c.
Proof.
  unfold hash_batch_run. destruct (get_blobs _ _) as [s1 blobs].
  destruct (run_callbacks _ _ _ _); [|done]. by intros [= <-].
Qed.

Lemma flush_if_needed_files {K} `{Countable K} env (get_fetcher : Coord -> Fetcher K)
    (batch_run : Coord -> CRes) c c' :
  (forall c c', batch_run c = COk c' -> files c' = files c) ->
  flush_if_needed env get_fetcher batch_run c = COk c' -> files c' = files c.
Proof.
  intros Hrun. unfold flush_if_needed.
  destruct (0 <? _)%nat; [|by intros [= <-]].
  destruct (_ <=? _)%nat; [by apply Hrun|]. cbn.
  destruct (Qle_bool _ _); [by intros ->%Hrun | by intros [= <-]].
Qed.

Lemma flush_files {K} `{Countable K} (get_fetcher : Coord -> Fetcher K)
    (batch_run : Coord -> CRes) c c' :
  (forall c c', batch_run c = COk c' -> files c' = files c) ->
  flush get_fetcher batch_run c = COk c' -> files c' = files c.
Proof.
  intros Hrun. unfold flush. destruct (0 <? _)%nat; [by apply Hrun | by intros [= <-]].
Qed.

Lemma bqm_flush_if_needed_files env c c' :
  bqm_flush_if_needed env c = COk c' -> files c' = files c.
Proof.
  unfold bqm_flush_if_needed.
  destruct (flush_if_needed env fetcher_size size_batch_run c) as [c1|] eqn:H1; [|done].
  cbn. intros H2.
  apply flush_if_needed_files in H1, H2;
    auto using size_batch_run_files, hash_batch_run_files. congruence.
Qed.

Lemma bqm_flush_files c c' : bqm_flush c = COk c' -> files c' = files c.
Proof.
  unfold bqm_flush.
  destruct (flush fetcher_size size_batch_run c) as [c1|] eqn:H1; [|done].
  cbn. intros H2.
  apply flush_files in H1, H2; auto using size_batch_run_files, hash_batch_run_files.
  congruence.
Qed.

Lemma new_coord_wf env s : coord_wf (new_coord env s).
Proof. split; by intros ? ? ?%elem_of_nil. Qed.

(** X5. A task that raises [_SourceFileNotFound] for a path is dropped and
    the loop goes on, without a File row for it, exactly when the
    skip-missing feature is on, the path lies inside the source root and
    the patterns match its relative path; otherwise the exception leaves
    the loop as it is. *)
Theorem missing_source_file_is_skipped_by_config
    (env : Env) (config : Config) (gen : Generator) (value : option BqmRsp)
    (c : Coord) (s : State) (p : Path) :
  coord_wf c ->
  gen value (world c) = Err s (SourceFileNotFound p) ->
  (should_skip_missing_source_file config p = true <->
   creation_skip_missing_file config = true /\
   exists rel, p = SrcPath rel /\ creation_skip_missing_file_patterns config rel = true) /\
  if should_skip_missing_source_file config p
  then exists c', schedule_step env config gen value c = COk c' /\
                  files c' = files c /\ coord_wf c'
  else schedule_step env config gen value c = CErr (set_world s c) (SourceFileNotFound p).
Proof.
  intros Hwf Hgen. split.
  - unfold should_skip_missing_source_file.
    destruct (creation_skip_missing_file config); [|split; [done | by intros [? _]]].
    destruct p as [rel|n|h]; cbn.
    + split; [intros Hp; split; [done|]; by exists rel|].
      by intros (_ & rel' & [= <-] & Hp).
    + split; [done | by intros (_ & rel' & [=] & _)].
    + split; [done | by intros (_ & rel' & [=] & _)].
  - unfold schedule_step. rewrite Hgen.
    destruct (should_skip_missing_source_file config p); [|done].
    cbn [cbind].
    destruct (bqm_flush_if_needed_wf env (set_world s c) Hwf) as (c1 & Hc1 & Hw1).
    rewrite Hc1. cbn [cbind]. apply bqm_flush_if_needed_files in Hc1. cbn in Hc1.
    destruct (schedule_queue c1).
    + destruct (bqm_flush_spec c1 Hw1) as (c2 & Hc2 & _ & _ & Hw2).
      exists c2. split; [exact Hc2|]. apply bqm_flush_files in Hc2.
      split; [congruence | exact Hw2].
    + exists c1. by split.
Qed.

Lemma missing_source_file_is_skipped_by_config_witness :
  exists c',
    schedule_step quiet_env skip_all_config
      (fun _ s => Err s (SourceFileNotFound (SrcPath "gone"))) None
      (new_coord quiet_env (state_of_disk ∅)) = COk c' /\
    files c' = [].
Proof.
  destruct (missing_source_file_is_skipped_by_config quiet_env skip_all_config
              (fun _ s => Err s (SourceFileNotFound (SrcPath "gone"))) None
              (new_coord quiet_env (state_of_disk ∅))
              (world (new_coord quiet_env (state_of_disk ∅))) (SrcPath "gone")
              (new_coord_wf quiet_env (state_of_disk ∅)) eq_refl)
    as [_ (c' & Hc' & Hfiles & _)].
  exists c'. by split.
Defined.

(** ** The order of a batch *)

Lemma run_callbacks_order {K V} `{Countable K} (result : gmap K V) mk_rsp
    (ts : list (K * Generator)) q q' :
  run_callbacks result mk_rsp
    (reverse ((fun kg => (fst kg, callback (snd kg))) <$> ts)) q = Some q' ->
  exists vs, Forall2 (fun kg v => result !! fst kg = Some v) ts vs /\
    q' = zip (snd <$> ts) ((fun v => Some (mk_rsp v)) <$> vs) ++ q.
Proof.
  revert q q'. induction ts as [|[key g] ts IH] using rev_ind; intros q q'.
  - cbn. intros [= <-]. by exists [].
  - rewrite fmap_app, reverse_app. cbn.
    destruct (result !! key) as [v|] eqn:Hkey; [|done].
    intros (vs & Hvs & ->)%IH.
    exists (vs ++ [v]). split.
    + apply Forall2_app; [done|]. by constructor.
    + rewrite !fmap_app. cbn.
      rewrite zip_with_app by (rewrite !length_fmap; by eapply Forall2_length).
      by rewrite <- app_assoc.
Qed.

(** X6. [_batch_run] resumes the tasks of its batch in the order they were
    queued, ahead of everything the deque already holds (the callbacks,
    each of which puts its task at the front, are called in reverse), and
    each task is resumed with the answer the cache now holds for its
    key. *)
Theorem batch_run_resumes_in_query_order (c c' : Coord) :
  (forall ts : list (Z * Generator),
     tasks (fetcher_size c) = (fun kg => (fst kg, callback (snd kg))) <$> ts ->
     size_batch_run c = COk c' ->
     exists vs,
       Forall2 (fun kg v => blob_by_size_cache (world c') !! fst kg = Some v) ts vs /\
       schedule_queue c'
       = zip (snd <$> ts) ((fun v => Some (SizeRsp v)) <$> vs) ++ schedule_queue c) /\
  (forall ts : list (Hash * Generator),
     tasks (fetcher_hash c) = (fun kg => (fst kg, callback (snd kg))) <$> ts ->
     hash_batch_run c = COk c' ->
     exists vs,
       Forall2 (fun kg v => blob_by_hash_cache (world c') !! fst kg = Some v) ts vs /\
       schedule_queue c'
       = zip (snd <$> ts) ((fun v => Some (HashRsp v)) <$> vs) ++ schedule_queue c).
Proof.
  split; intros ts Hts.
  - unfold size_batch_run. destruct (has_blob_with_size_batched _ _) as [s1 existence].
    rewrite Hts.
    destruct (run_callbacks _ _ _ _) as [q'|] eqn:Hq; [|done].
    intros [= <-]. apply run_callbacks_order in Hq as (vs & Hvs & ->).
    exists vs. split; [|done]. cbn.
    eapply Forall2_impl; [exact Hvs|]. intros kg v Hkg. cbn.
    by apply lookup_union_Some_l.
  - unfold hash_batch_run. destruct (get_blobs _ _) as [s1 blobs].
    rewrite Hts.
    destruct (run_callbacks _ _ _ _) as [q'|] eqn:Hq; [|done].
    intros [= <-]. apply run_callbacks_order in Hq as (vs & Hvs & ->).
    exists vs. split; [|done]. cbn.
    eapply Forall2_impl; [exact Hvs|]. intros kg v Hkg. cbn.
    by apply lookup_union_Some_l.
Qed.

(** ** The size of a batch *)

Lemma size_batch_run_fetchers c c' :
  size_batch_run c = COk c' ->
  fetcher_size c' = clear_fetcher (fetcher_size c) /\ fetcher_hash c' = fetcher_hash c.
Proof.
  unfold size_batch_run. destruct (has_blob_with_size_batched _ _) as [s1 existence].
  destruct (run_callbacks _ _ _ _); [|done]. by intros [= <-].
Qed.

Lemma hash_batch_run_fetchers c c' :
  hash_batch_run c = COk c' ->
  fetcher_hash c' = clear_fetcher (fetcher_hash c) /\ fetcher_size c' = fetcher_size c.
Proof.
  unfold hash_batch_run. destruct (get_blobs _ _) as [s1 blobs].
  destruct (run_callbacks _ _ _ _); [|done]. by intros [= <-].
Qed.

Section Room.

Context {K K' : Type} `{Countable K} `{Countable K'}.
Variable env : Env.
Variable get_fetcher : Coord -> Fetcher K.
Variable set_fetcher : Fetcher K -> Coord -> Coord.
Variable other : Coord -> Fetcher K'.
Variable batch_run : Coord -> CRes.

Hypothesis get_fetcher_world : forall s c, get_fetcher (set_world s c) = get_fetcher c.
Hypothesis other_world : forall s c, other (set_world s c) = other c.
Hypothesis get_set_fetcher : forall f c, get_fetcher (set_fetcher f c) = f.
Hypothesis other_set_fetcher : forall f c, other (set_fetcher f c) = other c.
Hypothesis batch_run_fetchers : forall c c',
  batch_run c = COk c' ->
  get_fetcher c' = clear_fetcher (get_fetcher c) /\ other c' = other c.

Lemma flush_if_needed_room c c' :
  (0 < max_batch_size (get_fetcher c))%nat ->
  flush_if_needed env get_fetcher batch_run c = COk c' ->
  (length (tasks (get_fetcher c')) < max_batch_size (get_fetcher c'))%nat /\
  max_batch_size (get_fetcher c') = max_batch_size (get_fetcher c) /\
  (length (tasks (get_fetcher c')) <= length (tasks (get_fetcher c)))%nat /\
  other c' = other c.
Proof.
  intros Hmax. unfold flush_if_needed.
  destruct (Nat.ltb_spec 0 (length (tasks (get_fetcher c)))) as [Hpos|Hzero].
  - destruct (Nat.leb_spec (max_batch_size (get_fetcher c))
                (length (tasks (get_fetcher c)))) as [Hfull|Hroom].
    + intros [-> ->]%batch_run_fetchers. cbn. split; [lia|]. split; [done|].
      split; [lia | done].
    + cbn. destruct (Qle_bool _ _).
      * intros [-> ->]%batch_run_fetchers.
        rewrite get_fetcher_world, other_world. cbn. split; [lia|]. split; [done|].
        split; [lia | done].
      * intros [= <-]. rewrite get_fetcher_world, other_world. split; [lia|].
        split; [done|]. split; [lia | done].
  - intros [= <-]. split; [lia|]. split; [done|]. split; [lia | done].
Qed.

Lemma flush_room c c' :
  flush get_fetcher batch_run c = COk c' ->
  max_batch_size (get_fetcher c') = max_batch_size (get_fetcher c) /\
  (length (tasks (get_fetcher c')) <= length (tasks (get_fetcher c)))%nat /\
  other c' = other c.
Proof.
  unfold flush. destruct (0 <? _)%nat.
  - intros [-> ->]%batch_run_fetchers. cbn. split; [done|]. split; [lia | done].
  - intros [= <-]. split; [done|]. split; [lia | done].
Qed.

(** After [query] the fetcher holds fewer tasks than its batch size, and
    [_batch_run] is never run on more tasks than that. *)
Lemma fetcher_query_room key callback c c' :
  (length (tasks (get_fetcher c)) < max_batch_size (get_fetcher c))%nat ->
  fetcher_query env get_fetcher set_fetcher batch_run key callback c = COk c' ->
  (length (tasks (get_fetcher c')) < max_batch_size (get_fetcher c'))%nat /\
  max_batch_size (get_fetcher c') = max_batch_size (get_fetcher c) /\
  other c' = other c.
Proof.
  intros Hroom. unfold fetcher_query, post_query. cbn [time_time].
  rewrite get_fetcher_world, get_set_fetcher. cbn [tasks keys max_batch_size].
  match goal with
  | |- flush_if_needed _ _ _ ?c2 = _ -> _ =>
      assert (Hc2 : max_batch_size (get_fetcher c2) = max_batch_size (get_fetcher c) /\
                    other c2 = other c)
  end.
  { destruct (length _ =? 1)%nat.
    - by rewrite get_set_fetcher, other_set_fetcher, other_world, other_set_fetcher.
    - by rewrite get_fetcher_world, get_set_fetcher, other_world, other_set_fetcher. }
  destruct Hc2 as [Hm Ho]. intros Hf.
  apply flush_if_needed_room in Hf as (H1 & H2 & _ & H4); [|lia].
  split; [done|]. split; congruence.
Qed.

End Room.

Lemma bqm_query_room env query cb c c' :
  batch_room c -> bqm_query env query cb c = COk c' -> batch_room c'.
Proof.
  intros [Hs Hh]. destruct query as [size|h]; cbn [bqm_query]; intros Hq.
  - apply (fetcher_query_room env fetcher_size set_fetcher_size fetcher_hash
             size_batch_run) in Hq as (H1 & _ & H3);
      [|done|done|done|done|apply size_batch_run_fetchers|done].
    split; [done|]. by rewrite H3.
  - apply (fetcher_query_room env fetcher_hash set_fetcher_hash fetcher_size
             hash_batch_run) in Hq as (H1 & _ & H3);
      [|done|done|done|done|apply hash_batch_run_fetchers|done].
    split; [by rewrite H3 | done].
Qed.

Lemma bqm_flush_if_needed_room env c c' :
  batch_room c -> bqm_flush_if_needed env c = COk c' -> batch_room c'.
Proof.
  intros [Hs Hh]. unfold bqm_flush_if_needed.
  destruct (flush_if_needed env fetcher_size size_batch_run c) as [c1|] eqn:H1; [|done].
  cbn. intros H2.
  apply (flush_if_needed_room env fetcher_size fetcher_hash size_batch_run) in H1
    as (Ha & _ & _ & Hb); [|done|done|apply size_batch_run_fetchers|lia].
  apply (flush_if_needed_room env fetcher_hash fetcher_size hash_batch_run) in H2
    as (Hc & _ & _ & Hd); [|done|done|apply hash_batch_run_fetchers|rewrite Hb; lia].
  split; [by rewrite Hd | done].
Qed.

Lemma bqm_flush_room c c' : batch_room c -> bqm_flush c = COk c' -> batch_room c'.
Proof.
  intros [Hs Hh]. unfold bqm_flush.
  destruct (flush fetcher_size size_batch_run c) as [c1|] eqn:H1; [|done].
  cbn. intros H2.
  apply (flush_room fetcher_size fetcher_hash size_batch_run) in H1
    as (Ha & Hb & Hc); [|apply size_batch_run_fetchers].
  apply (flush_room fetcher_hash fetcher_size hash_batch_run) in H2
    as (Hd & He & Hf); [|apply hash_batch_run_fetchers].
  rewrite Hc in Hd, He. split; [rewrite Hf; lia | lia].
Qed.

Lemma schedule_step_room env config gen value c c' :
  batch_room c -> schedule_step env config gen value c = COk c' -> batch_room c'.
Proof.
  intros Hroom. unfold schedule_step.
  match goal with
  | |- cbind ?r _ = _ -> _ =>
      assert (H1 : forall c1, r = COk c1 -> batch_room c1); [|destruct r as [c1|]; [|done]]
  end.
  { intros c1. destruct (gen value (world c)) as [s f|s e|s q k].
    - by intros [= <-].
    - destruct e; try done.
      destruct (should_skip_missing_source_file _ _); [|done]. by intros [= <-].
    - by apply bqm_query_room. }
  specialize (H1 c1 eq_refl). cbn [cbind].
  destruct (bqm_flush_if_needed env c1) as [c2|] eqn:H2; [|done]. cbn [cbind].
  apply bqm_flush_if_needed_room in H2; [|done].
  destruct (schedule_queue c2); [by apply bqm_flush_room | by intros [= <-]].
Qed.

(** X7. A new manager has room in both fetchers, and every query leaves
    each fetcher with fewer pending tasks than its batch size: a fetcher
    that reaches the size is flushed in the same call, so [_batch_run]
    never sees more tasks than the batch size.  This holds after every
    iteration of the coordinator loop and where the loop finishes. *)
Theorem pending_tasks_stay_below_batch_size (env : Env) (config : Config) :
  (forall s, batch_room (new_coord env s)) /\
  (forall query cb c c',
     batch_room c -> bqm_query env query cb c = COk c' -> batch_room c') /\
  (forall gen value c c',
     batch_room c -> schedule_step env config gen value c = COk c' -> batch_room c') /\
  (forall fuel c c',
     batch_room c -> schedule_loop env config fuel c = Finished c' -> batch_room c').
Proof.
  split; [|split; [|split]].
  - intros s. split; cbn; unfold DEFAULT_MAX_BATCH_SIZE; lia.
  - apply bqm_query_room.
  - apply schedule_step_room.
  - induction fuel as [|fuel IH]; intros c c' Hroom; cbn [schedule_loop].
    + destruct (schedule_queue c) as [|[gen value] rest]; [by intros [= <-] | done].
    + destruct (schedule_queue c) as [|[gen value] rest]; [by intros [= <-]|].
      destruct (schedule_step env config gen value (set_schedule_queue rest c))
        as [c1|c1 e] eqn:Hstep; [|done].
      apply IH. eapply schedule_step_room; [|exact Hstep]. exact Hroom.
Qed.

(** ** What a finished acquisition leaves in the caches *)

Lemma acquisition_records env attempt src_path k st s o :
  blob_acquisition env attempt src_path k st s o ->
  forall s' blob st', o = Returned s' (blob, st') ->
  hash_cache_get s' (blob_hash blob) = Some blob /\
  blob_by_size_cache s' !! blob_raw_size blob = Some true.
Proof.
  induction 1 as [k st s s1 blob Hk H1|k st s s1 e Hk Hne H1
                 |k st s s1 s2 st1 o Hk H1 Hl H2 IH|k st s s1 s2 e Hk H1 Hl
                 |st s s1 s2 st1 H1 Hl]; intros s' b st' Ho; try discriminate.
  - injection Ho as <- <- <-. unfold hash_cache_get. cbn.
    by rewrite !lookup_insert_eq.
  - by eapply IH.
Qed.

(** X8. When blob acquisition returns a blob, both caches hold it: the
    hash cache maps its fingerprint to the row and the size cache marks
    its raw size as taken.  From then on an attempt that knows this
    fingerprint before writing returns the row at once, with no request
    and no write, and no attempt on a file of that size selects the
    hash_once policy. *)
Theorem acquired_blob_is_served_from_the_caches
    (env : Env) (config : Config) (src_path : Path) (st st' : stat_result)
    (s s' : State) (blob : Blob) :
  Ends (get_or_create_blob env config src_path st s) (Returned s' (blob, st')) ->
  hash_cache_get s' (blob_hash blob) = Some blob /\
  blob_by_size_cache s' !! blob_raw_size blob = Some true /\
  (forall p2 st2 last_chance can_cow loc,
     l_blob_hash loc = Some (blob_hash blob) ->
     policy loc <> Some Policy.hash_once ->
     attempt_finish env config p2 st2 last_chance can_cow loc s' = Done s' blob) /\
  (forall p2 st2 last_chance s2 loc,
     st_size st2 = blob_raw_size blob ->
     attempt_select env config p2 st2 last_chance s' = Done s2 loc ->
     policy loc <> Some Policy.hash_once).
Proof.
  intros HE. unfold get_or_create_blob in HE.
  apply retry_loop_acquisition in HE; [|done|unfold BLOB_FILE_CHANGED_RETRY_COUNT; lia].
  destruct (acquisition_records _ _ _ _ _ _ _ HE s' blob st' eq_refl) as [Hh Hs].
  split; [exact Hh|]. split; [exact Hs|]. split.
  - intros p2 st2 lc cow loc Hloc Hpol.
    unfold attempt_finish, attempt_dedup, bind. rewrite Hloc. cbn.
    rewrite bool_decide_true by done. cbn.
    unfold dedup_by_hash, bind, get_state. cbn. by rewrite Hh.
  - intros p2 st2 lc s2 loc Hsz Hsel.
    pose proof (attempt_select_spec env config p2 st2 lc s') as Hspec. cbn zeta in Hspec.
    rewrite Hsz, Hs in Hspec.
    replace (needs_size_lookup _ _ _ _ _) with false in Hspec.
    2:{ unfold needs_size_lookup. rewrite (bool_decide_false (Some true = None)) by done.
        by rewrite !andb_false_r. }
    rewrite Hsel in Hspec. symmetry in Hspec.
    apply selection_of_policy in Hspec. rewrite Hspec. cbn.
    unfold decision_table. destruct lc; [done|]. destruct (hashes s' !! p2); [done|].
    destruct (negb _ && (_ <=? _)); [done|]. rewrite andb_false_r. done.
Qed.

Lemma acquired_blob_is_served_from_the_caches_witness :
  hash_cache_get
    (record_blob_state hi_blob
       (env_act quiet_env (set_hashes (delete (SrcPath "a.txt")) cached_state)))
    "hi" = Some hi_blob.
Proof.
  refine (proj1 (acquired_blob_is_served_from_the_caches quiet_env plain_config
                   (SrcPath "a.txt") (stat_of (regular_file 0 [x68; x69]))
                   (stat_of (regular_file 0 [x68; x69])) cached_state _ hi_blob _)).
  assert (H : get_or_create_blob quiet_env plain_config (SrcPath "a.txt")
                (stat_of (regular_file 0 [x68; x69])) cached_state
              = Done (record_blob_state hi_blob
                        (env_act quiet_env
                           (set_hashes (delete (SrcPath "a.txt")) cached_state)))
                     (hi_blob, stat_of (regular_file 0 [x68; x69])))
    by (vm_compute; reflexivity).
  rewrite H. constructor.
Defined.

(** ** Where a bare FileNotFoundError can come from *)

(** Every read of the source inside an attempt goes through
    [_SourceFileNotFound]: an attempt never raises a bare
    [FileNotFoundError] for a source path. *)
Lemma attempt_once_no_bare_missing env config src_path st last_chance s :
  wp (fun _ => True) (fun _ (_ : Blob) => True)
     (fun _ e => forall r, e <> FileNotFoundError (SrcPath r))
     (attempt_once env config src_path st last_chance s).
Proof.
  unfold attempt_once, attempt_finish, attempt_select, attempt_dedup,
    attempt_write, make_temp_file, copy_file_fast, SourceFileNotFound_open_rb, wrap,
    open_rb, calc_file_hash, calc_file_size_and_hash, dedup_by_hash, bp_rba,
    copy_compressed, create_blob, write_file, write_compressed, check_changes,
    os_replace, assert_true, add_remove_file_rollbacker, env_step.
  cbn. wp_run. all: try done.
  all: intros r; unfold temp_file_path, get_blob_path; intros ?; simplify_eq.
Qed.

Lemma acquisition_bare_missing env config src_path k st s o :
  blob_acquisition env (attempt_once env config src_path) src_path k st s o ->
  forall s' r, o = Raised s' (FileNotFoundError (SrcPath r)) ->
  src_path = SrcPath r /\ disk s' !! src_path = None /\
  exists st0 last_chance s0 s1,
    Ends (attempt_once env config src_path st0 last_chance s0)
         (Raised s1 BlobFileChanged) /\
    s' = env_act env s1.
Proof.
  induction 1 as [k st s s1 blob Hk H1|k st s s1 e Hk Hne H1
                 |k st s s1 s2 st1 o Hk H1 Hl H2 IH|k st s s1 s2 e Hk H1 Hl
                 |st s s1 s2 st1 H1 Hl]; intros s' r Ho; try discriminate.
  - injection Ho as <- ->.
    pose proof (wp_Ends _ _ _ _
                  (attempt_once_no_bare_missing env config src_path st _ s) H1) as Hno.
    by destruct (Hno r).
  - by eapply IH.
  - injection Ho as <- ->.
    destruct (lstat_cases env src_path s1) as [(n & _ & Hl')|(Hnone & Hl')];
      rewrite Hl' in Hl; [done|].
    injection Hl as <- <-. split; [done|]. split; [exact Hnone|]. eauto 10.
Qed.

(** X9. A missing source file reaches the coordinator as a bare
    [FileNotFoundError], which the skip-missing configuration cannot
    suppress, in one case only: the file was there for an attempt that
    ended in [_BlobFileChanged] and was gone at the re-stat that follows.
    No attempt raises it, and neither do the stat, the readlink or the
    path conversion of [__create_file]. *)
Theorem bare_missing_source_error_comes_from_the_restat
    (env : Env) (config : Config) (path : Path) (r : string) (s s' : State) :
  Ends (create_file env config path s) (Raised s' (FileNotFoundError (SrcPath r))) ->
  path = SrcPath r /\ disk s' !! path = None /\
  (exists st0 last_chance s0 s1,
     Ends (attempt_once env config path st0 last_chance s0)
          (Raised s1 BlobFileChanged) /\
     s' = env_act env s1) /\
  (forall st0 last_chance s0 s1 r0,
     ~ Ends (attempt_once env config path st0 last_chance s0)
            (Raised s1 (FileNotFoundError (SrcPath r0)))).
Proof.
  intros HE.
  assert (Hnever : forall st0 last_chance s0 s1 r0,
            ~ Ends (attempt_once env config path st0 last_chance s0)
                   (Raised s1 (FileNotFoundError (SrcPath r0)))).
  { intros st0 lc s0 s1 r0 H1.
    pose proof (wp_Ends _ _ _ _
                  (attempt_once_no_bare_missing env config path st0 lc s0) H1) as Hno.
    by destruct (Hno r0). }
  cut (path = SrcPath r /\ disk s' !! path = None /\
       exists st0 last_chance s0 s1,
         Ends (attempt_once env config path st0 last_chance s0)
              (Raised s1 BlobFileChanged) /\
         s' = env_act env s1).
  { intros (H1 & H2 & H3). by repeat split. }
  clear Hnever. revert HE.
  unfold create_file, bind, get_state, pop_stat. cbn.
  destruct (reused_files s !! path); [by inversion 1|]. cbn.
  intros HE. apply Ends_bind_inv in HE as [(s1 & st & H1 & H2)|(s1 & e & H1 & [= <- <-])].
  - apply Ends_bind_inv in H2 as [(s2 & x & H2 & H3)|(s2 & e & H2 & [= <- <-])].
    + destruct x as [[blob content] st']. unfold file_path_to_db_path in H3.
      destruct (relative_to_source path); cbn in H3; inversion H3.
    + destruct (S_ISREG (st_mode st)).
      * apply Ends_bind_inv in H2 as [(s3 & [blob st'] & _ & H4)|(s3 & e & H2 & [= <- <-])].
        { cbn in H4. inversion H4. }
        unfold get_or_create_blob in H2.
        apply retry_loop_acquisition in H2;
          [|done|unfold BLOB_FILE_CHANGED_RETRY_COUNT; lia].
        by eapply acquisition_bare_missing.
      * destruct (S_ISDIR (st_mode st)); [by inversion H2|].
        destruct (S_ISLNK (st_mode st)); [|by inversion H2].
        apply Ends_bind_inv in H2 as [(s3 & t & _ & H4)|(s3 & e & H2 & [= <- <-])].
        { cbn in H4. inversion H4. }
        unfold wrap, catch, readlink, encode_utf8, env_step, modify, bind in H2.
        cbn in H2.
        destruct (_ !! path) as [n|] in H2; cbn in H2;
          [destruct (S_ISLNK (n_mode n)) in H2; cbn in H2;
           [destruct (utf8_valid (n_data n)) in H2; cbn in H2|]|];
          inversion H2.
  - destruct (stats s !! path); [by inversion H1|].
    unfold wrap, catch, lstat, env_step, modify, bind in H1. cbn in H1.
    destruct (_ !! path) in H1; cbn in H1; inversion H1.
Qed.

Lemma bare_missing_source_error_comes_from_the_restat_witness :
  disk (env_act deleting_env
          (env_act deleting_env
             (set_hashes (delete (SrcPath "log"))
                (set_stats (delete (SrcPath "log")) gone_state))))
    !! SrcPath "log" = None.
Proof.
  refine (proj1 (proj2
    (bare_missing_source_error_comes_from_the_restat deleting_env skip_all_config
       (SrcPath "log") "log" gone_state _ _))).
  apply (create_file_propagates deleting_env skip_all_config (SrcPath "log")
           (stat_of (regular_file 0 (repeat x61 100))));
    [reflexivity | reflexivity | reflexivity |].
  apply (restat_missing_ends deleting_env
           (attempt_once deleting_env skip_all_config (SrcPath "log")) (SrcPath "log")
           2 0 _ _
           (env_act deleting_env
              (set_hashes (delete (SrcPath "log"))
                 (set_stats (delete (SrcPath "log")) gone_state)))).
  - assert (H : attempt_once deleting_env skip_all_config (SrcPath "log")
                  (stat_of (regular_file 0 (repeat x61 100))) false
                  (set_stats (delete (SrcPath "log")) gone_state)
                = Err (env_act deleting_env
                         (set_hashes (delete (SrcPath "log"))
                            (set_stats (delete (SrcPath "log")) gone_state)))
                      BlobFileChanged) by (vm_compute; reflexivity).
    cbn [Nat.add Nat.eqb BLOB_FILE_CHANGED_RETRY_COUNT]. rewrite H. constructor.
  - by vm_compute.
Defined.

(** ** What a failed check leaves behind *)

(** X10. The default policy writes before it checks: when the bytes it
    copies differ in size or fingerprint from what the attempt expects, it
    raises [_BlobFileChanged] with the changed content already stored
    under the expected fingerprint.  The hash_once policy checks the size
    before it names a blob path: when it raises [_BlobFileChanged] the
    blob files, the rollback list and the Blob rows are as before. *)
Theorem default_policy_writes_before_it_checks
    (env : Env) (config : Config) (src_path : Path) (st : stat_result)
    (last_chance can_cow : bool) (h : Hash) (s : State) (n : Node) :
  let method := get_compress_method_from_size config (st_size st) in
  disk (env_act env s) !! src_path = Some n ->
  (blen (n_data n) <> st_size st ->
   exists s',
     attempt_write env config src_path st last_chance can_cow
       (mkLocals (Some Policy.hash_once) None None) s = Err s' BlobFileChanged /\
     same_store s s') /\
  (blen (n_data n) <> st_size st \/ calc_bytes_hash env (n_data n) <> h ->
   exists s',
     attempt_write env config src_path st last_chance can_cow
       (mkLocals (Some Policy.default) (Some h) None) s = Err s' BlobFileChanged /\
     disk s' !! get_blob_path h =
       Some (file_node (if can_cow && bool_decide (method = plain)
                        then n_data n else compress env method (n_data n)))).
Proof.
  intros method Hn. split.
  - intros Hsize.
    unfold attempt_write, make_temp_file, finally, bind, copy_compressed,
      SourceFileNotFound_open_rb, wrap, catch, open_rb, env_step, modify, write_file,
      check_changes, assert_true. cbn.
    change (set_env_tick (S (env_tick s))
              (set_disk (fun d => fold_left apply_event (src_events env (env_tick s)) d) s))
      with (env_act env s).
    rewrite Hn. cbn.
    destruct (Z.eqb_spec (blen (n_data n)) (st_size st)) as [Heq|_]; [done|]. cbn.
    eexists. split; [reflexivity|].
    unfold same_store, remove_file, temp_file_path. cbn. repeat split; try done.
    intros h0. rewrite lookup_delete_ne by done. rewrite lookup_insert_ne by done.
    by rewrite env_act_disk_other.
  - intros Hchanged.
    unfold attempt_write, bind, bp_rba, add_remove_file_rollbacker, modify. cbn.
    fold method.
    assert (Hn1 : disk (env_act env
                          (set_blob_rollbackers (fun l => l ++ [get_blob_path h]) s))
                  !! src_path = Some n) by exact Hn.
    revert Hn1. generalize (set_blob_rollbackers (fun l => l ++ [get_blob_path h]) s).
    intros s1 Hn1.
    destruct (can_cow && bool_decide (method = plain)) eqn:Hcow.
    + unfold copy_file_fast, SourceFileNotFound_open_rb, wrap, catch, open_rb, env_step,
        modify, write_file, bind, calc_file_size_and_hash, check_changes. cbn.
      rewrite Hn1. cbn.
      rewrite env_act_disk_other by done. cbn. rewrite lookup_insert_eq. cbn.
      destruct (Z.eqb_spec (blen (n_data n)) (st_size st)) as [Heq|Hne]; cbn.
      * destruct Hchanged as [Hsz|Hh]; [done|].
        rewrite bool_decide_true by done. cbn.
        eexists. split; [reflexivity|].
        rewrite env_act_disk_other by done. cbn. by rewrite lookup_insert_eq.
      * eexists. split; [reflexivity|].
        rewrite env_act_disk_other by done. cbn. by rewrite lookup_insert_eq.
    + unfold copy_compressed, SourceFileNotFound_open_rb, wrap, catch, open_rb, env_step,
        modify, write_file, bind, check_changes. cbn.
      rewrite Hn1. cbn.
      destruct (Z.eqb_spec (blen (n_data n)) (st_size st)) as [Heq|Hne]; cbn.
      * destruct Hchanged as [Hsz|Hh]; [done|].
        rewrite bool_decide_true by done. cbn.
        eexists. split; [reflexivity|]. cbn. by rewrite lookup_insert_eq.
      * eexists. split; [reflexivity|]. cbn. by rewrite lookup_insert_eq.
Qed.

Lemma default_policy_writes_before_it_checks_witness :
  exists s',
    attempt_write quiet_env plain_config (SrcPath "a.txt")
      (stat_of (regular_file 0 (repeat x61 100))) false false
      (mkLocals (Some Policy.hash_once) None None) (state_of_disk pipe_disk)
    = Err s' BlobFileChanged /\
    same_store (state_of_disk pipe_disk) s'.
Proof.
  refine (proj1 (default_policy_writes_before_it_checks quiet_env plain_config
                   (SrcPath "a.txt") (stat_of (regular_file 0 (repeat x61 100)))
                   false false "" (state_of_disk pipe_disk)
                   (regular_file 0 [x68; x69]) _) _).
  - reflexivity.
  - by vm_compute.
Defined.

(** ** Pre-calculated fingerprints *)

Lemma hash_files_spec env existed_sizes entries s :
  match hash_files env existed_sizes entries s with
  | Done s' _ =>
      (forall p h, hashes s' !! p = Some h ->
         hashes s !! p = Some h \/
         exists e, e ∈ entries /\ entry_path e = p /\
                   existed_sizes !! st_size (entry_stat e) = Some true) /\
      reused_files s' = reused_files s /\ stats s' = stats s /\
      blob_by_size_cache s' = blob_by_size_cache s
  | Err s' e =>
      e = KeyError \/
      exists p, e = FileNotFoundError p /\ disk s' !! p = None /\
                p ∈ entry_path <$> entries
  | Yield _ _ _ => False
  end.
Proof.
  revert s. induction entries as [|e rest IH]; intros s; cbn.
  - split; [by left | done].
  - destruct (existed_sizes !! st_size (entry_stat e)) as [[|]|] eqn:Hex.
    + unfold bind, calc_file_hash, open_rb, env_step, modify. cbn.
      change (set_env_tick (S (env_tick s))
                (set_disk (fun d => fold_left apply_event (src_events env (env_tick s)) d)
                   s)) with (env_act env s).
      destruct (disk (env_act env s) !! entry_path e) as [n|] eqn:Hn; cbn.
      * specialize (IH (set_hashes
                          (fun m => <[entry_path e := calc_bytes_hash env (n_data n)]> m)
                          (env_act env s))).
        destruct (hash_files _ _ _ _) as [s' u|s' e'|]; [| |done].
        -- destruct IH as (Hh & Hr & Hst & Hc). split; [|by rewrite Hr, Hst, Hc].
           intros p h [Hold|(e0 & Hin & ?)]%Hh.
           ++ cbn in Hold. destruct (decide (entry_path e = p)) as [<-|Hne].
              ** right. exists e. split; [by left | done].
              ** rewrite lookup_insert_ne in Hold by done. by left.
           ++ right. exists e0. split; [by right | done].
        -- destruct IH as [->|(p & -> & Hp & Hin)]; [by left|].
           right. exists p. split; [done|]. split; [done|]. by right.
      * right. exists (entry_path e). split; [done|]. split; [done|]. by left.
    + specialize (IH s). destruct (hash_files _ _ _ _) as [s' u|s' e'|]; [| |done].
      * destruct IH as (Hh & Hrest). split; [|done].
        intros p h [Hold|(e0 & Hin & ?)]%Hh; [by left|].
        right. exists e0. split; [by right | done].
      * destruct IH as [->|(p & -> & Hp & Hin)]; [by left|].
        right. exists p. split; [done|]. split; [done|]. by right.
    + by left.
Qed.

(** X11. [__pre_calculate_hash] starts from an empty table and hashes
    only regular scanned entries that are not reused and whose size the
    catalog already has a blob of (their size is then marked as taken in
    the size cache); it leaves the stats and the reused rows alone.  It
    makes no request, and it fails in two ways only: with a [KeyError]
    for a size the catalog's answer lacks, or with a bare
    [FileNotFoundError], never a [_SourceFileNotFound], for a scanned path
    that is gone. *)
Theorem pre_hash_covers_only_files_that_need_it
    (env : Env) (all_files : list ScanResultEntry) (s : State) :
  match pre_calculate_hash env all_files s with
  | Done s' _ =>
      (forall p h, hashes s' !! p = Some h ->
         exists e, e ∈ all_files /\ entry_path e = p /\
                   S_ISREG (st_mode (entry_stat e)) = true /\
                   reused_files s !! p = None /\
                   blob_by_size_cache s' !! st_size (entry_stat e) = Some true) /\
      reused_files s' = reused_files s /\ stats s' = stats s
  | Err s' e =>
      e = KeyError \/
      exists p, e = FileNotFoundError p /\ disk s' !! p = None /\
                p ∈ entry_path <$> all_files
  | Yield _ _ _ => False
  end.
Proof.
  unfold pre_calculate_hash, bind, get_state, modify. cbn.
  match goal with
  | |- match hash_files _ ?ex ?l ?s0 with _ => _ end =>
      pose proof (hash_files_spec env ex l s0) as H;
      destruct (hash_files env ex l s0) as [s' u|s' e|]; [| |done]
  end.
  - destruct H as (Hh & Hr & Hst & Hc). split; [|by rewrite Hr, Hst].
    intros p h [Hold|(e & Hin & Hp & Hex)]%Hh; [done|].
    apply list_elem_of_filter in Hin as [[Hfile Hreuse] Hin].
    exists e. split; [done|]. split; [done|]. split; [by apply Is_true_true|].
    split; [by rewrite <- Hp|].
    rewrite Hc. cbn. apply lookup_union_Some_l. exact Hex.
  - destruct H as [->|(p & -> & Hp & Hin)]; [by left|].
    right. exists p. split; [done|]. split; [done|].
    apply list_elem_of_fmap in Hin as (e0 & -> & Hin).
    apply list_elem_of_filter in Hin as [_ Hin]. by apply list_elem_of_fmap_2.
Qed.

(** ** The row of a file, by its kind *)

(** X12. What [__create_file] does with a scanned path that is not reused
    follows the kind of its stat.  A regular file gets the blob that blob
    acquisition returns and takes mode, owner and mtime from the stat
    returned with it (the re-stat of the last retry, not the scanned
    stat); a directory gets a row without blob or content, with no access
    to the disk; a symlink gets its target as content, read at that
    moment, when the target is well-formed UTF-8: a target that cannot be
    encoded raises [UnicodeEncodeError], a path that is no longer a
    symlink raises [OSError], and one that is gone raises
    [_SourceFileNotFound]; anything else raises [UnsupportedFileFormat]
    with the mode. *)
Theorem create_file_row_follows_the_file_kind
    (env : Env) (config : Config) (path : Path) (rel : string) (st : stat_result)
    (s : State) :
  relative_to_source path = Some rel ->
  reused_files s !! path = None ->
  stats s !! path = Some st ->
  let s1 := set_stats (delete path) s in
  (S_ISREG (st_mode st) = true ->
   forall s' f,
     Ends (create_file env config path s) (Returned s' f) ->
     exists blob st',
       Ends (get_or_create_blob env config path st s1) (Returned s' (blob, st')) /\
       f = new_file_row rel st' None (Some blob)) /\
  (S_ISREG (st_mode st) = false ->
   create_file env config path s =
   if S_ISDIR (st_mode st) then Done s1 (new_file_row rel st None None)
   else if S_ISLNK (st_mode st) then
     match disk (env_act env s1) !! path with
     | Some n =>
         if S_ISLNK (n_mode n) then
           if utf8_valid (n_data n)
           then Done (env_act env s1) (new_file_row rel st (Some (n_data n)) None)
           else Err (env_act env s1) UnicodeEncodeError
         else Err (env_act env s1) OSError
     | None => Err (env_act env s1) (SourceFileNotFound path)
     end
   else Err s1 (UnsupportedFileFormat (st_mode st))).
Proof.
  intros Hrel Hreuse Hst s1. split.
  - intros Hreg s' f HE.
    pose proof (create_file_row env config path rel st s s' f Hrel Hreuse Hst HE) as H.
    by rewrite Hreg in H.
  - intros Hreg. unfold create_file, bind, get_state, pop_stat. cbn.
    rewrite Hreuse, Hst. cbn. rewrite Hreg. unfold file_path_to_db_path. rewrite Hrel.
    destruct (S_ISDIR (st_mode st)); [done|].
    destruct (S_ISLNK (st_mode st)); [|done].
    unfold wrap, catch, readlink, encode_utf8, env_step, modify, bind. cbn. subst s1.
    destruct (disk (env_act env (set_stats (delete path) s)) !! path) as [n|];
      [|done].
    cbn. destruct (S_ISLNK (n_mode n)); [|done].
    cbn. by destruct (utf8_valid (n_data n)).
Qed.

Lemma create_file_row_follows_the_file_kind_witness :
  create_file quiet_env plain_config (SrcPath "old") pre_epoch_state
  = Done (set_stats (delete (SrcPath "old")) pre_epoch_state)
         (new_file_row "old" (stat_of (directory (-1))) None None) /\
  create_file quiet_env plain_config (SrcPath "good") links_state
  = Done (env_act quiet_env (set_stats (delete (SrcPath "good")) links_state))
         (new_file_row "good" (stat_of (symlink [x61; xc3; xa9])) (Some [x61; xc3; xa9])
            None) /\
  create_file quiet_env plain_config (SrcPath "bad") links_state
  = Err (env_act quiet_env (set_stats (delete (SrcPath "bad")) links_state))
        UnicodeEncodeError.
Proof.
  split; [|split].
  - exact (proj2 (create_file_row_follows_the_file_kind quiet_env plain_config
                    (SrcPath "old") "old" (stat_of (directory (-1))) pre_epoch_state
                    eq_refl eq_refl eq_refl) eq_refl).
  - exact (proj2 (create_file_row_follows_the_file_kind quiet_env plain_config
                    (SrcPath "good") "good" (stat_of (symlink [x61; xc3; xa9]))
                    links_state eq_refl eq_refl eq_refl) eq_refl).
  - exact (proj2 (create_file_row_follows_the_file_kind quiet_env plain_config
                    (SrcPath "bad") "bad" (stat_of (symlink [xff])) links_state
                    eq_refl eq_refl eq_refl) eq_refl).
Defined.

(** ** What a written blob holds *)

Lemma selection_read_all env src_path d s s' loc :
  selection_of env src_path d s = Done s' loc ->
  policy loc = Some Policy.read_all ->
  exists content,
    loc = mkLocals (Some Policy.read_all) (Some (calc_bytes_hash env content))
            (Some content) /\
    blen content <= READ_ALL_SIZE_THRESHOLD.
Proof.
  destruct d; cbn; try (by intros [= <- <-]).
  - destruct (disk _ !! _) as [n|]; [|done].
    destruct (Z.gtb_spec (blen (bread (READ_ALL_SIZE_THRESHOLD + 1) (n_data n)))
                READ_ALL_SIZE_THRESHOLD) as [|Hle]; [done|].
    intros [= <- <-] _. eexists. split; [reflexivity | lia].
  - destruct (disk _ !! _); [|done]. by intros [= <- <-].
Qed.

Lemma selection_Ends_read_all env src_path d s s' loc :
  Ends (selection_of env src_path d s) (Returned s' loc) ->
  policy loc = Some Policy.read_all ->
  exists content,
    loc = mkLocals (Some Policy.read_all) (Some (calc_bytes_hash env content))
            (Some content) /\
    blen content <= READ_ALL_SIZE_THRESHOLD.
Proof.
  intros HE Hpol. apply (selection_read_all env src_path d s s' loc); [|done].
  destruct d; cbn in HE |- *;
    repeat match type of HE with
           | Ends (match ?x with _ => _ end) _ => destruct x
           | Ends (if ?x then _ else _) _ => destruct x
           end; by inversion HE.
Qed.

Lemma attempt_select_read_all env config src_path st last_chance s s' loc :
  Ends (attempt_select env config src_path st last_chance s) (Returned s' loc) ->
  policy loc = Some Policy.read_all ->
  exists content,
    loc = mkLocals (Some Policy.read_all) (Some (calc_bytes_hash env content))
            (Some content) /\
    blen content <= READ_ALL_SIZE_THRESHOLD.
Proof.
  intros HE Hpol.
  pose proof (attempt_select_spec env config src_path st last_chance s) as Hspec.
  cbn zeta in Hspec.
  destruct (needs_size_lookup _ _ _ _ _).
  - destruct Hspec as (k & Hk & Hres). rewrite Hk in HE.
    inversion HE as [| |s2 q k2 v s3 o Hend]; subst.
    rewrite Hres in Hend. destruct (blob_by_size_cache s3 !! _); [|inversion Hend].
    by eapply selection_Ends_read_all.
  - rewrite Hspec in HE. by eapply selection_Ends_read_all.
Qed.

(** X13. An attempt that writes a blob and returns has stored, under the
    fingerprint it passes on, bytes of that fingerprint: read_all stores
    the bytes its selection read and fingerprinted; hash_once stores the
    bytes it hashed while copying, of the size the stat announced, whether
    the rename into the blob store works or the copy fallback is used;
    default returns only when the bytes it copied have the expected size
    and fingerprint (they are stored as they are on the copy-on-write
    path, compressed otherwise). *)
Theorem written_blob_holds_the_bytes_of_its_fingerprint
    (env : Env) (config : Config) (src_path : Path) (st : stat_result)
    (last_chance : bool) (s s' : State) (b : Blob) :
  let method := get_compress_method_from_size config (st_size st) in
  (forall s0 s1 loc can_cow,
     Ends (attempt_select env config src_path st last_chance s0) (Returned s1 loc) ->
     policy loc = Some Policy.read_all ->
     attempt_write env config src_path st last_chance can_cow loc s = Done s' b ->
     exists content,
       blob_content loc = Some content /\
       blen content <= READ_ALL_SIZE_THRESHOLD /\
       disk s' !! get_blob_path (calc_bytes_hash env content)
       = Some (file_node (compress env method content))) /\
  (attempt_write env config src_path st last_chance false
     (mkLocals (Some Policy.hash_once) None None) s = Done s' b ->
   exists n, disk (env_act env s) !! src_path = Some n /\
     blen (n_data n) = st_size st /\
     disk s' !! get_blob_path (calc_bytes_hash env (n_data n))
     = Some (file_node (compress env method (n_data n)))) /\
  (forall can_cow h,
     attempt_write env config src_path st last_chance can_cow
       (mkLocals (Some Policy.default) (Some h) None) s = Done s' b ->
     exists n, disk (env_act env s) !! src_path = Some n /\
       blen (n_data n) = st_size st /\ calc_bytes_hash env (n_data n) = h /\
       disk s' !! get_blob_path h =
         Some (file_node (if can_cow && bool_decide (method = plain)
                          then n_data n else compress env method (n_data n)))).
Proof.
  intros method. split; [|split].
  - intros s0 s1 loc can_cow Hsel Hpol.
    destruct (attempt_select_read_all _ _ _ _ _ _ _ _ Hsel Hpol) as (content & -> & Hlen).
    unfold attempt_write, bind, bp_rba, add_remove_file_rollbacker, modify,
      write_compressed, write_file, create_blob. cbn. fold method.
    destruct (db_blobs s !! _); intros [= <- _]; exists content;
      (split; [done|]); (split; [done|]); cbn; by rewrite lookup_insert_eq.
  - unfold attempt_write, make_temp_file, finally, bind, copy_compressed,
      SourceFileNotFound_open_rb, wrap, catch, open_rb, env_step, modify, write_file,
      check_changes, assert_true, bp_rba, add_remove_file_rollbacker, os_replace,
      copy_file_fast, create_blob. cbn. fold method.
    change (set_env_tick (S (env_tick s))
              (set_disk (fun d => fold_left apply_event (src_events env (env_tick s)) d) s))
      with (env_act env s).
    destruct (disk (env_act env s) !! src_path) as [n|] eqn:Hn; cbn; [|done].
    destruct (Z.eqb_spec (blen (n_data n)) (st_size st)) as [Heq|Hne]; cbn; [|done].
    destruct (temp_on_other_device env); cbn.
    + rewrite env_act_disk_other by done. cbn. rewrite lookup_insert_eq. cbn.
      destruct (db_blobs _ !! _); intros [= <- _]; exists n; (split; [done|]);
        (split; [done|]); unfold remove_file, temp_file_path, get_blob_path; cbn;
        rewrite lookup_delete_ne by done; by rewrite lookup_insert_eq.
    + rewrite lookup_insert_eq. cbn.
      destruct (db_blobs _ !! _); intros [= <- _]; exists n; (split; [done|]);
        (split; [done|]); unfold remove_file, temp_file_path, get_blob_path; cbn;
        rewrite lookup_delete_ne by done; by rewrite lookup_insert_eq.
  - intros can_cow h.
    unfold attempt_write, bind, bp_rba, add_remove_file_rollbacker, modify. cbn.
    fold method.
    assert (Hd : disk (env_act env
                         (set_blob_rollbackers (fun l => l ++ [get_blob_path h]) s))
                 = disk (env_act env s)) by reflexivity.
    revert Hd. generalize (set_blob_rollbackers (fun l => l ++ [get_blob_path h]) s).
    intros s1 Hd. rewrite <- Hd.
    destruct (can_cow && bool_decide (method = plain)).
    + unfold copy_file_fast, SourceFileNotFound_open_rb, wrap, catch, open_rb, env_step,
        modify, write_file, bind, calc_file_size_and_hash, check_changes, create_blob.
      cbn.
      destruct (disk (env_act env s1) !! src_path) as [n|] eqn:Hn; cbn; [|done].
      rewrite env_act_disk_other by done. cbn. rewrite lookup_insert_eq. cbn.
      destruct (Z.eqb_spec (blen (n_data n)) (st_size st)) as [Heq|Hne]; cbn; [|done].
      destruct (decide (calc_bytes_hash env (n_data n) = h)) as [Hh|Hh].
      2:{ by rewrite bool_decide_true. }
      rewrite bool_decide_false by (by intros ?). cbn.
      destruct (db_blobs _ !! _); intros [= <- _]; exists n; (split; [done|]);
        (split; [done|]); (split; [done|]); cbn;
        rewrite env_act_disk_other by done; cbn; by rewrite lookup_insert_eq.
    + unfold copy_compressed, SourceFileNotFound_open_rb, wrap, catch, open_rb, env_step,
        modify, write_file, bind, check_changes, create_blob. cbn.
      destruct (disk (env_act env s1) !! src_path) as [n|] eqn:Hn; cbn; [|done].
      destruct (Z.eqb_spec (blen (n_data n)) (st_size st)) as [Heq|Hne]; cbn; [|done].
      destruct (decide (calc_bytes_hash env (n_data n) = h)) as [Hh|Hh].
      2:{ by rewrite bool_decide_true. }
      rewrite bool_decide_false by (by intros ?). cbn.
      destruct (db_blobs _ !! _); intros [= <- _]; exists n; (split; [done|]);
        (split; [done|]); (split; [done|]); cbn; by rewrite lookup_insert_eq.
Qed.

(** ** The table of scanned stats *)

Lemma stats_fold_lookup (all_files : list ScanResultEntry) (m : gmap Path stat_result)
    (p : Path) :
  fold_left (fun m e => <[entry_path e := entry_stat e]> m) all_files m !! p
  = match last (filter (fun e => entry_path e = p) all_files) with
    | Some e => Some (entry_stat e)
    | None => m !! p
    end.
Proof.
  revert m. induction all_files as [|e l IH]; intros m; [done|].
  cbn [fold_left]. rewrite IH, filter_cons.
  destruct (decide (entry_path e = p)) as [Hp|Hp].
  - destruct (filter _ l) as [|e' l'] eqn:Hl.
    + cbn. subst p. apply lookup_insert_eq.
    + rewrite last_cons_cons.
      destruct (last (e' :: l')) eqn:Hlast; [done|]. by apply last_None in Hlast.
  - destruct (last (filter _ l)); [done|]. by rewrite lookup_insert_ne.
Qed.

(** X14. [__pre_calculate_stats] throws away whatever the table held and
    files every scanned entry under its path: a path scanned more than
    once keeps the stat of its last entry, a path that was not scanned has
    none.  The task of a path that is not reused and has no stat in the
    table stats the disk as it is at that moment: it raises
    [_SourceFileNotFound] for its path when the file is gone, and the row
    of a directory takes mode, owner and mtime from that stat. *)
Theorem scanned_stats_keep_the_last_entry_of_a_path
    (env : Env) (config : Config) (all_files : list ScanResultEntry) (s : State)
    (p : Path) :
  stats (pre_calculate_stats all_files s) !! p
  = entry_stat <$> last (filter (fun e => entry_path e = p) all_files) /\
  (forall s0 : State,
     reused_files s0 !! p = None -> stats s0 !! p = None ->
     let s1 := env_act env (set_stats (delete p) s0) in
     match disk s1 !! p with
     | None => create_file env config p s0 = Err s1 (SourceFileNotFound p)
     | Some n =>
         forall rel, relative_to_source p = Some rel ->
         S_ISDIR (n_mode n) = true ->
         create_file env config p s0 = Done s1 (new_file_row rel (stat_of n) None None)
     end).
Proof.
  split.
  - unfold pre_calculate_stats. cbn. rewrite stats_fold_lookup.
    by destruct (last _).
  - intros s0 Hreuse Hstat s1.
    unfold create_file, bind, get_state, pop_stat. cbn. rewrite Hreuse, Hstat. cbn.
    unfold wrap, catch, bind.
    destruct (lstat_cases env p (set_stats (delete p) s0)) as [(n & Hn & Hl)|(Hn & Hl)];
      rewrite Hl; subst s1; rewrite Hn.
    + intros rel Hrel Hdir. cbn.
      assert (Hreg : S_ISREG (n_mode n) = false).
      { unfold S_ISREG, S_ISDIR in *. apply Z.eqb_eq in Hdir. rewrite Hdir. done. }
      rewrite Hreg, Hdir. unfold file_path_to_db_path. by rewrite Hrel.
    + done.
Qed.
